(** * Behaviour tracker: a shallow embedding and its properties

    The development follows [frontend/js/modules/behavior_tracker.js] and
    the sibling revisions of the same module kept in the repository.  Each
    JavaScript method becomes a function of the same name; the mutable
    tracker object becomes an explicit state record that every method
    takes and returns; [Date.now()] becomes an explicit reading [now];
    timers become handles carrying their due time. *)

From Stdlib Require Import ZArith String List Bool Lia DecimalString.
From stdpp Require Import base option list gmap strings.

Local Open Scope string_scope.
Local Open Scope list_scope.
Local Open Scope Z_scope.

(** ** JavaScript values, as far as truthiness is concerned *)

Module Js.

Inductive value :=
| Undefined
| Null
| Bool (b : bool)
| Num (n : Z)
| NaN
| Str (s : string)
| Obj.

(** ToBoolean. *)
Definition truthy (v : value) : bool :=
  match v with
  | Undefined | Null | NaN => false
  | Bool b => b
  | Num n => negb (n =? 0)
  | Str s => negb (String.eqb s "")
  | Obj => true
  end.

End Js.

(** ** Delivery: [logEvent] and the revisions of [_sendPayload] *)

Module Delivery.

(** Where a console message comes from. *)
Inductive site :=
| NoParticipantId (eventType : string)   (* console.warn in logEvent *)
| SendException                          (* console.warn in the catch block *)
| FetchFailed                            (* console.warn in the promise's catch *)
| ApiClientMissing                       (* console.error, apiClient revision *)
| PostFailed.                            (* console.warn, apiClient revision *)

(** What the identity collaborators do when asked. *)
Inductive provider :=
| NotAFunction                 (* typeof getParticipantId !== 'function' *)
| Throws                       (* the call raises *)
| Returns (v : Js.value).

Record Identity := {
  getParticipantId : provider;
  window_participantId : Js.value      (* window.participantId *)
}.

(** The two sources of identity both fail to give a truthy value. *)
Definition yields (p : provider) : bool :=
  match p with
  | Returns v => Js.truthy v
  | NotAFunction | Throws => false
  end.

Definition no_identity (i : Identity) : bool :=
  negb (yields (getParticipantId i)) && negb (Js.truthy (window_participantId i)).

(** What the transport collaborators do when called. *)
Inductive beacon :=
| BeaconAbsent                 (* typeof navigator.sendBeacon !== 'function' *)
| BeaconReturns (queued : bool)
| BeaconThrows.

Inductive promise := Fulfilled | Rejected.

Inductive callee :=
| CallThrows
| CallReturns (p : promise).

(** What [window.apiClient] is when [_sendPayload] looks at it, and what
    its [postWithoutAuth] does when called. *)
Inductive returned :=
| ReturnsPromise (p : promise)
| ReturnsOther.                (* no callable [catch], or one that raises *)

Inductive post :=
| PostThrows
| PostReturns (r : returned).

Inductive client :=
| ClientUndefined              (* typeof window.apiClient === 'undefined' *)
| ClientNull                   (* null: reading its postWithoutAuth raises *)
| ClientWithout                (* typeof postWithoutAuth !== 'function' *)
| ClientWith (m : post).

Record Transport := {
  navigator_declared : bool;   (* false: reading [navigator] is a ReferenceError *)
  sendBeacon : beacon;
  stringify_ok : bool;         (* false: JSON.stringify raises *)
  fetch : callee
}.

(** The transport fails in a way the caller can observe: an exception
    or a rejected promise. *)
Definition transport_fails (w : Transport) : bool :=
  negb (navigator_declared w)
  || negb (stringify_ok w)
  || match sendBeacon w with
     | BeaconThrows => true
     | BeaconReturns _ => false
     | BeaconAbsent =>
         match fetch w with
         | CallThrows | CallReturns Rejected => true
         | CallReturns Fulfilled => false
         end
     end.

(** How a method call ends. *)
Inductive outcome (A : Type) :=
| Normal (a : A)
| Raised.
Arguments Normal {A} a.
Arguments Raised {A}.

Section WithEventData.

(** The shape of [event_data] is left to the caller. *)
Context {D : Type}.

Record Envelope := {
  participant_id : Js.value;
  event_type : string;
  event_data : D;
  timestamp : Z                (* the instant rendered by toISOString *)
}.

(** The options object handed to [fetch]; [credentials = None] when the
    key is not written, so that the browser default applies. *)
Record Request := {
  url : string;
  method : string;
  headers : list (string * string);
  body : Envelope;
  keepalive : bool;
  credentials : option string
}.

Inductive effect :=
| ConsoleWarn (s : site)
| ConsoleError (s : site)
| SendBeacon (url : string) (blobType : string) (body : Envelope)
| Fetch (r : Request)
| ApiPost (path : string) (body : Envelope).

(** A small exception monad with an effect trace. *)
Definition M (A : Type) : Type := list effect * outcome A.

Definition ret {A} (a : A) : M A := ([], Normal a).
Definition raise {A} : M A := ([], Raised).
Definition emit (e : effect) : M unit := ([e], Normal tt).

Definition bind {A B} (m : M A) (k : A -> M B) : M B :=
  match m with
  | (tr, Normal a) => let '(tr', r) := k a in (tr ++ tr', r)
  | (tr, Raised) => (tr, Raised)
  end.

(** [try { m } catch { h }] *)
Definition try_catch {A} (m : M A) (h : M A) : M A :=
  match m with
  | (tr, Normal a) => (tr, Normal a)
  | (tr, Raised) => let '(tr', r) := h in (tr ++ tr', r)
  end.

(** [p.catch(h)]: the handler runs when the promise is rejected. *)
Definition promise_catch (p : promise) (h : M unit) : M unit :=
  match p with
  | Fulfilled => ret tt
  | Rejected => h
  end.

Definition call (c : callee) (e : effect) : M promise :=
  match c with
  | CallThrows => ([e], Raised)
  | CallReturns p => ([e], Normal p)
  end.

Definition stringify (w : Transport) (p : Envelope) : M Envelope :=
  if stringify_ok w then ret p else raise.

(** *** [_sendPayload], revision with the hard-coded endpoint

    try {
      if (navigator && typeof navigator.sendBeacon === 'function') {
        const blob = new Blob([JSON.stringify(payload)], { type: 'application/json' });
        navigator.sendBeacon(url, blob);
      } else {
        fetch(url, { method: 'POST', headers: {...}, body: JSON.stringify(payload),
                     keepalive: true }).catch(err => console.warn(...));
      }
    } catch (e) { console.warn(...); } *)
Definition beacon_or_fetch (w : Transport) (target : string)
    (cred : option string) (payload : Envelope) : M unit :=
  try_catch
    (if navigator_declared w then
       match sendBeacon w with
       | BeaconAbsent =>
           bind (stringify w payload) (fun b =>
           bind (call (fetch w)
                   (Fetch {| url := target;
                             method := "POST";
                             headers := [("Content-Type", "application/json")];
                             body := b;
                             keepalive := true;
                             credentials := cred |})) (fun p =>
           promise_catch p (emit (ConsoleWarn FetchFailed))))
       | BeaconReturns _ =>
           bind (stringify w payload) (fun b =>
           emit (SendBeacon target "application/json" b))
       | BeaconThrows =>
           bind (stringify w payload) (fun b =>
           bind (emit (SendBeacon target "application/json" b)) (fun _ =>
           raise))
       end
     else raise)
    (emit (ConsoleWarn SendException)).

(** The revision whose options object has no [credentials] key. *)
Definition _sendPayload_fixed_url (w : Transport) (payload : Envelope) : M unit :=
  beacon_or_fetch w "/api/v1/behavior/log" None payload.

(** The revision with [this._endpoint] and [credentials: 'omit']. *)
Definition _sendPayload_omit (w : Transport) (endpoint : string)
    (payload : Envelope) : M unit :=
  beacon_or_fetch w endpoint (Some "omit") payload.

(** *** [_sendPayload], revision going through [window.apiClient]

    if (typeof window.apiClient === 'undefined'
        || typeof window.apiClient.postWithoutAuth !== 'function') {
      console.error(...); return;
    }
    window.apiClient.postWithoutAuth('/behavior/log', payload)
      .catch(err => { console.warn(...); });

    Nothing here is inside a [try]: the guard raises on [null], the call
    raises when the method does, and [.catch] raises on what is not a
    promise. *)
Definition _sendPayload_apiClient (apiClient : client) (payload : Envelope) : M unit :=
  match apiClient with
  | ClientUndefined | ClientWithout => emit (ConsoleError ApiClientMissing)
  | ClientNull => raise
  | ClientWith m =>
      bind (emit (ApiPost "/behavior/log" payload)) (fun _ =>
      match m with
      | PostThrows => raise
      | PostReturns ReturnsOther => raise
      | PostReturns (ReturnsPromise p) =>
          promise_catch p (emit (ConsoleWarn PostFailed))
      end)
  end.

(** *** [logEvent]

    The participant id comes from the provider, then from
    [window.participantId]; without one the event is skipped. *)
Definition resolve_participant (i : Identity) : Js.value :=
  let participant_id :=
    match getParticipantId i with
    | Returns v => v
    | NotAFunction | Throws => Js.Null
    end in
  if negb (Js.truthy participant_id) && Js.truthy (window_participantId i)
  then window_participantId i
  else participant_id.

Definition logEvent (_sendPayload : Envelope -> M unit) (i : Identity)
    (now : Z) (eventType : string) (eventData : D) : M unit :=
  let participant_id := resolve_participant i in
  if negb (Js.truthy participant_id) then
    emit (ConsoleWarn (NoParticipantId eventType))
  else
    let payload := {| participant_id := participant_id;
                      event_type := eventType;
                      event_data := eventData;
                      timestamp := now |} in
    _sendPayload payload.

(** The envelope carried by a transport call. *)
Definition carried (e : effect) : option Envelope :=
  match e with
  | SendBeacon _ _ b | ApiPost _ b => Some b
  | Fetch r => Some (body r)
  | ConsoleWarn _ | ConsoleError _ => None
  end.

(** Transport calls in a trace. *)
Definition is_transport (e : effect) : bool :=
  match e with
  | SendBeacon _ _ _ | Fetch _ | ApiPost _ _ => true
  | ConsoleWarn _ | ConsoleError _ => false
  end.

Definition is_warning (e : effect) : bool :=
  match e with
  | ConsoleWarn _ => true
  | _ => false
  end.

End WithEventData.

Arguments Envelope : clear implicits.
Arguments Request : clear implicits.
Arguments effect : clear implicits.
Arguments M : clear implicits.

(** *** [resolveBehaviorEndpoint]

    [window.__API_BASE__] and the [content] of the [api-base] meta tag,
    when there are any, are strings; [None] stands for an unset global,
    a missing tag, or a read that raises (the method catches it). *)

(** [s.replace(/\/$/, '')]: one slash at the very end is dropped. *)
Fixpoint strip_slash (s : string) : string :=
  match s with
  | EmptyString => EmptyString
  | String c EmptyString => if Ascii.eqb c (Ascii.ascii_of_nat 47) then EmptyString else s
  | String c rest => String c (strip_slash rest)
  end.

Definition log_path : string := "/api/v1/behavior/log".

(** What a truthy string source contributes. *)
Definition from_base (base : option string) : option string :=
  match base with
  | Some b => if String.eqb b "" then None else Some (String.append (strip_slash b) log_path)
  | None => None
  end.

Definition resolveBehaviorEndpoint (configEndpoint : Js.value)
    (api_base meta_content : option string) : string :=
  match configEndpoint with
  | Js.Str s =>
      if negb (String.eqb s "") then s
      else default (default log_path (from_base meta_content)) (from_base api_base)
  | _ => default (default log_path (from_base meta_content)) (from_base api_base)
  end.

End Delivery.

(** ** Strings as sequences of UTF-16 code units *)

Module Text.

Definition text := list N.

(** [s.length] *)
Definition length (s : text) : Z := Z.of_nat (List.length s).

End Text.

(** ** The edit-cycle analyser: [_smartRecordCodeChange] and what it calls

    Console output of these methods is not part of the trace; calls of
    [this.logEvent] and [document.dispatchEvent] are. *)

Module EditCycle.

Record CodeMonitoringConfig := {
  minChangeThreshold : Z;
  meaningfulEditTimeout : Z;
  problemDetectionThreshold : Z;
  maxHistoryLength : Z
}.

Definition defaultConfig : CodeMonitoringConfig :=
  {| minChangeThreshold := 10;
     meaningfulEditTimeout := 3000;
     problemDetectionThreshold := 3;
     maxHistoryLength := 100 |}.

Record HintConfig := {
  hintThreshold : Z;
  cooldownPeriod : Z;
  lastHintTime : Z
}.

Definition defaultHintConfig : HintConfig :=
  {| hintThreshold := 3; cooldownPeriod := 30000; lastHintTime := 0 |}.

Record BufferEntry := {
  entry_timestamp : Z;
  entry_length : Z;
  entry_change : Z;
  entry_content : Text.text
}.

Record EditorState := {
  lastContent : Text.text;
  lastLength : Z;
  lastMeaningfulEdit : Z;
  isDeleting : bool;
  deleteStartTime : Z;
  deleteStartLength : Z;
  consecutiveEdits : Z;
  editBuffer : list BufferEntry
}.

Definition _createEditorState : EditorState :=
  {| lastContent := [];
     lastLength := 0;
     lastMeaningfulEdit := 0;
     isDeleting := false;
     deleteStartTime := 0;
     deleteStartLength := 0;
     consecutiveEdits := 0;
     editBuffer := [] |}.

(** The two shapes of object pushed on [this.significantEdits]. *)
Record CycleRecord := {
  cycle_editor : string;
  cycle_timestamp : Z;
  duration : Z;
  netChange : Z;
  absoluteChange : Z;
  startLength : Z;
  endLength : Z;
  cycle_consecutiveEdits : Z
}.

Record AdditionRecord := {
  addition_type : string;
  addition_editor : string;
  addition_timestamp : Z;
  changeAmount : Z;
  currentLength : Z
}.

Inductive EditRecord :=
| Cycle (r : CycleRecord)        (* type: 'edit_cycle' *)
| Added (r : AdditionRecord).

Definition record_type (r : EditRecord) : string :=
  match r with
  | Cycle _ => "edit_cycle"
  | Added a => addition_type a
  end.

Inductive Severity := low | medium | high.

Record ProblemEvent := {
  problem_editor : string;
  problem_timestamp : Z;
  problem_consecutiveEdits : Z;
  severity : Severity
}.

(** One of the four message templates of [_generateHintMessage], as
    drawn by [Math.random]. *)
Inductive Template := template0 | template1 | template2 | template3.

Record HintDetail := {
  hint_editor : string;
  editCount : Z;
  hint_timestamp : Z;
  message : Template
}.

(** The [event_data] objects built by this part of the tracker. *)
Inductive EventData :=
| SignificantEditsData (count : Z) (edits : list EditRecord) (timestamp : Z)
| LargeAdditionData (editRecord : AdditionRecord)
| CodingProblemData (editor : string) (consecutive_edits : Z)
    (sev : Severity) (timestamp : Z)
| SessionSummaryData (total_edits problem_events : Z)
    (significant_edits : list EditRecord) (timestamp : Z).

Inductive output :=
| LogEvent (eventType : string) (eventData : EventData)
| DispatchEvent (name : string) (detail : HintDetail).

Record Tracker := {
  codeMonitoringConfig : CodeMonitoringConfig;
  hintConfig : HintConfig;
  codeMonitorStates : gmap string EditorState;
  problemEvents : list ProblemEvent;
  significantEdits : list EditRecord
}.

Definition newTracker : Tracker :=
  {| codeMonitoringConfig := defaultConfig;
     hintConfig := defaultHintConfig;
     codeMonitorStates :=
       <["html" := _createEditorState]>
         (<["css" := _createEditorState]>
            (<["js" := _createEditorState]> ∅));
     problemEvents := [];
     significantEdits := [] |}.

(** Field updates of the tracker object. *)
Definition set_significantEdits (h : list EditRecord) (t : Tracker) : Tracker :=
  {| codeMonitoringConfig := codeMonitoringConfig t;
     hintConfig := hintConfig t;
     codeMonitorStates := codeMonitorStates t;
     problemEvents := problemEvents t;
     significantEdits := h |}.

Definition set_problemEvents (p : list ProblemEvent) (t : Tracker) : Tracker :=
  {| codeMonitoringConfig := codeMonitoringConfig t;
     hintConfig := hintConfig t;
     codeMonitorStates := codeMonitorStates t;
     problemEvents := p;
     significantEdits := significantEdits t |}.

Definition set_lastHintTime (now : Z) (t : Tracker) : Tracker :=
  {| codeMonitoringConfig := codeMonitoringConfig t;
     hintConfig := {| hintThreshold := hintThreshold (hintConfig t);
                      cooldownPeriod := cooldownPeriod (hintConfig t);
                      lastHintTime := now |};
     codeMonitorStates := codeMonitorStates t;
     problemEvents := problemEvents t;
     significantEdits := significantEdits t |}.

Definition set_codeMonitorStates (m : gmap string EditorState) (t : Tracker) : Tracker :=
  {| codeMonitoringConfig := codeMonitoringConfig t;
     hintConfig := hintConfig t;
     codeMonitorStates := m;
     problemEvents := problemEvents t;
     significantEdits := significantEdits t |}.

(** [a.length], [a.shift()] and [a.slice(-5)] on arrays. *)
Definition len {A} (a : list A) : Z := Z.of_nat (List.length a).
Definition shift {A} (a : list A) : list A := tail a.
Definition slice_last5 {A} (a : list A) : list A := drop (List.length a - 5)%nat a.

(** [_calculateProblemSeverity] *)
Definition _calculateProblemSeverity (consecutiveEdits : Z) : Severity :=
  if consecutiveEdits >=? 10 then high
  else if consecutiveEdits >=? 5 then medium
  else low.

(** [_submitProblemEvent]: one [coding_problem] event for one problem. *)
Definition _submitProblemEvent (problemEvent : ProblemEvent) : list output :=
  [LogEvent "coding_problem"
     (CodingProblemData (problem_editor problemEvent)
        (problem_consecutiveEdits problemEvent)
        (severity problemEvent)
        (problem_timestamp problemEvent))].

(** [_triggerProblemHint]: held back during the cool-down of [hintConfig]. *)
Definition _triggerProblemHint (t : Tracker) (now : Z) (drawn : Template)
    (editorType : string) (editCount timestamp : Z) : Tracker * list output :=
  if now - lastHintTime (hintConfig t) <? cooldownPeriod (hintConfig t) then
    (t, [])
  else
    (set_lastHintTime now t,
     [DispatchEvent "problemHintNeeded"
        {| hint_editor := editorType;
           editCount := editCount;
           hint_timestamp := timestamp;
           message := drawn |}]).

(** [_recordProblemEvent] *)
Definition _recordProblemEvent (t : Tracker) (now : Z) (drawn : Template)
    (editorType : string) (consecutiveEdits timestamp : Z) : Tracker * list output :=
  let problemEvent :=
    {| problem_editor := editorType;
       problem_timestamp := timestamp;
       problem_consecutiveEdits := consecutiveEdits;
       severity := _calculateProblemSeverity consecutiveEdits |} in
  let t := set_problemEvents (problemEvents t ++ [problemEvent]) t in
  let '(t, hint) :=
    if consecutiveEdits >=? hintThreshold (hintConfig t)
    then _triggerProblemHint t now drawn editorType consecutiveEdits timestamp
    else (t, []) in
  (t, hint ++ _submitProblemEvent problemEvent).

(** [_submitSignificantEdits]: the last five records, as one event. *)
Definition _submitSignificantEdits (t : Tracker) (now : Z) : list output :=
  if len (significantEdits t) =? 0 then []
  else
    let editsToSubmit := slice_last5 (significantEdits t) in
    [LogEvent "significant_edits"
       (SignificantEditsData (len editsToSubmit) editsToSubmit now)].

(** [_submitAllData] *)
Definition _submitAllData (t : Tracker) (now : Z) : list output :=
  if len (significantEdits t) >? 0 then
    [LogEvent "coding_session_summary"
       (SessionSummaryData (len (significantEdits t)) (len (problemEvents t))
          (significantEdits t) now)]
  else [].

(** [_recordMeaningfulEdit] *)
Definition _recordMeaningfulEdit (t : Tracker) (now : Z)
    (editorType editType : string) (changeAmount currentLength timestamp : Z)
    : Tracker * list output :=
  let editRecord :=
    {| addition_type := editType;
       addition_editor := editorType;
       addition_timestamp := timestamp;
       changeAmount := changeAmount;
       currentLength := currentLength |} in
  let t := set_significantEdits (significantEdits t ++ [Added editRecord]) t in
  let outs :=
    if changeAmount >=? 50 then [LogEvent "large_addition" (LargeAdditionData editRecord)]
    else if len (significantEdits t) mod 5 =? 0 then _submitSignificantEdits t now
    else [] in
  let t :=
    if len (significantEdits t) >? maxHistoryLength (codeMonitoringConfig t)
    then set_significantEdits (shift (significantEdits t)) t
    else t in
  (t, outs).

(** The reset at the end of [_completeEditCycle]. *)
Definition reset_cycle (state : EditorState) : EditorState :=
  {| lastContent := lastContent state;
     lastLength := lastLength state;
     lastMeaningfulEdit := lastMeaningfulEdit state;
     isDeleting := false;
     deleteStartTime := 0;
     deleteStartLength := 0;
     consecutiveEdits := 0;
     editBuffer := editBuffer state |}.

(** [_completeEditCycle] *)
Definition _completeEditCycle (t : Tracker) (now : Z) (drawn : Template)
    (editorType : string) (state : EditorState) (timestamp finalLength : Z)
    : Tracker * EditorState * list output :=
  let deleteDuration := timestamp - deleteStartTime state in
  let netChange := finalLength - deleteStartLength state in
  let absoluteChange := Z.abs netChange in
  let cfg := codeMonitoringConfig t in
  let '(t, outs) :=
    if absoluteChange >=? minChangeThreshold cfg then
      let editRecord :=
        {| cycle_editor := editorType;
           cycle_timestamp := timestamp;
           duration := deleteDuration;
           netChange := netChange;
           absoluteChange := absoluteChange;
           startLength := deleteStartLength state;
           endLength := finalLength;
           cycle_consecutiveEdits := consecutiveEdits state |} in
      let t := set_significantEdits (significantEdits t ++ [Cycle editRecord]) t in
      let t :=
        if len (significantEdits t) >? maxHistoryLength cfg
        then set_significantEdits (shift (significantEdits t)) t
        else t in
      let '(t, problem) :=
        if consecutiveEdits state >=? problemDetectionThreshold cfg
        then _recordProblemEvent t now drawn editorType (consecutiveEdits state) timestamp
        else (t, []) in
      let batch :=
        if (len (significantEdits t) >=? 5)
           || (consecutiveEdits state >=? problemDetectionThreshold cfg)
        then _submitSignificantEdits t now
        else [] in
      (t, problem ++ batch)
    else (t, []) in
  (t, reset_cycle state, outs).

(** The record pushed by [_completeEditCycle]. *)
Definition cycle_record (e : string) (state : EditorState) (timestamp finalLength : Z) : EditRecord :=
  Cycle {| cycle_editor := e;
           cycle_timestamp := timestamp;
           duration := timestamp - deleteStartTime state;
           netChange := finalLength - deleteStartLength state;
           absoluteChange := Z.abs (finalLength - deleteStartLength state);
           startLength := deleteStartLength state;
           endLength := finalLength;
           cycle_consecutiveEdits := consecutiveEdits state |}.

(** The history after a push, with the oldest record evicted on overflow. *)
Definition pushed (cfg : CodeMonitoringConfig) (h : list EditRecord) (r : EditRecord)
    : list EditRecord :=
  if len (h ++ [r]) >? maxHistoryLength cfg then shift (h ++ [r]) else h ++ [r].

(** [_completeEditCycle] after the record has been pushed: the problem
    check, then the batch check. *)
Definition problem_step (t : Tracker) (now : Z) (drawn : Template) (e : string) (c timestamp : Z)
    : Tracker * list output :=
  if c >=? problemDetectionThreshold (codeMonitoringConfig t)
  then _recordProblemEvent t now drawn e c timestamp
  else (t, []).

Definition batch_step (t : Tracker) (now : Z) (c : Z) : list output :=
  if (len (significantEdits t) >=? 5)
     || (c >=? problemDetectionThreshold (codeMonitoringConfig t))
  then _submitSignificantEdits t now
  else [].

(** [_handleDeletion] *)
Definition _handleDeletion (state : EditorState) (currentLength timestamp : Z)
    : EditorState :=
  if negb (isDeleting state) then
    {| lastContent := lastContent state;
       lastLength := lastLength state;
       lastMeaningfulEdit := lastMeaningfulEdit state;
       isDeleting := true;
       deleteStartTime := timestamp;
       deleteStartLength := lastLength state;
       consecutiveEdits := consecutiveEdits state + 1;
       editBuffer := editBuffer state |}
  else state.

(** The two assignments that end [_handleAddition]. *)
Definition count_addition (state : EditorState) (timestamp : Z) : EditorState :=
  {| lastContent := lastContent state;
     lastLength := lastLength state;
     lastMeaningfulEdit := timestamp;
     isDeleting := isDeleting state;
     deleteStartTime := deleteStartTime state;
     deleteStartLength := deleteStartLength state;
     consecutiveEdits := consecutiveEdits state + 1;
     editBuffer := editBuffer state |}.

(** [_handleAddition] *)
Definition _handleAddition (t : Tracker) (now : Z) (drawn : Template)
    (editorType : string) (state : EditorState)
    (lengthChange currentLength timestamp timeSinceLastEdit : Z)
    : Tracker * EditorState * list output :=
  let '(t, state, outs) :=
    if isDeleting state then
      _completeEditCycle t now drawn editorType state timestamp currentLength
    else if (lengthChange >=? minChangeThreshold (codeMonitoringConfig t))
            && (timeSinceLastEdit >? meaningfulEditTimeout (codeMonitoringConfig t))
    then
      let '(t, outs) :=
        _recordMeaningfulEdit t now editorType "addition" lengthChange
          currentLength timestamp in
      (t, state, outs)
    else (t, state, []) in
  (t, count_addition state timestamp, outs).

(** The first two assignments of [_smartRecordCodeChange]. *)
Definition set_last (state : EditorState) (content : Text.text) (length : Z)
    : EditorState :=
  {| lastContent := content;
     lastLength := length;
     lastMeaningfulEdit := lastMeaningfulEdit state;
     isDeleting := isDeleting state;
     deleteStartTime := deleteStartTime state;
     deleteStartLength := deleteStartLength state;
     consecutiveEdits := consecutiveEdits state;
     editBuffer := editBuffer state |}.

(** The bounded [editBuffer]: push, then drop the oldest past 20. *)
Definition buffer_edit (state : EditorState) (e : BufferEntry) : EditorState :=
  let buf := editBuffer state ++ [e] in
  {| lastContent := lastContent state;
     lastLength := lastLength state;
     lastMeaningfulEdit := lastMeaningfulEdit state;
     isDeleting := isDeleting state;
     deleteStartTime := deleteStartTime state;
     deleteStartLength := deleteStartLength state;
     consecutiveEdits := consecutiveEdits state;
     editBuffer := if len buf >? 20 then shift buf else buf |}.

(** [_smartRecordCodeChange].  [None]: [this.codeMonitorStates[editorType]]
    is undefined and reading [state.lastLength] raises before anything is
    changed.  All clock readings of one call return [now]. *)
Definition _smartRecordCodeChange (t : Tracker) (now : Z) (drawn : Template)
    (editorType : string) (currentContent : Text.text)
    : option (Tracker * list output) :=
  match codeMonitorStates t !! editorType with
  | None => None
  | Some state =>
      let currentLength := Text.length currentContent in
      let previousLength := lastLength state in
      let lengthChange := currentLength - previousLength in
      let state := set_last state currentContent currentLength in
      let timeSinceLastEdit := now - lastMeaningfulEdit state in
      let '(t, state, outs) :=
        if lengthChange <? 0 then
          (t, _handleDeletion state currentLength now, [])
        else if lengthChange >? 0 then
          _handleAddition t now drawn editorType state lengthChange
            currentLength now timeSinceLastEdit
        else (t, state, []) in
      let state :=
        buffer_edit state
          {| entry_timestamp := now;
             entry_length := currentLength;
             entry_change := lengthChange;
             entry_content := currentContent |} in
      Some (set_codeMonitorStates (<[editorType := state]> (codeMonitorStates t)) t,
            outs)
  end.

(** A sequence of content-change notifications, each with the clock
    reading and the template drawn should a hint be shown. *)
Record Signal := {
  at_time : Z;
  drawn : Template;
  surface : string;
  content : Text.text
}.

Fixpoint run (t : Tracker) (signals : list Signal) : option (Tracker * list output) :=
  match signals with
  | [] => Some (t, [])
  | s :: rest =>
      match _smartRecordCodeChange t (at_time s) (drawn s) (surface s) (content s) with
      | None => None
      | Some (t, outs) =>
          match run t rest with
          | None => None
          | Some (t, outs') => Some (t, outs ++ outs')
          end
      end
  end.

(** What the edit counter of a surface depends on: [lastLength],
    [isDeleting] and [consecutiveEdits]. *)
Definition counter_view (state : EditorState) : Z * bool * Z :=
  (lastLength state, isDeleting state, consecutiveEdits state).

(** The effect of one content change of length [currentLength] on it. *)
Definition next_view (v : Z * bool * Z) (currentLength : Z) : Z * bool * Z :=
  let '(lastLength, deleting, count) := v in
  let lengthChange := currentLength - lastLength in
  if lengthChange <? 0 then
    (currentLength, true, if deleting then count else count + 1)
  else if lengthChange >? 0 then
    (currentLength, false, (if deleting then 0 else count) + 1)
  else (currentLength, deleting, count).

(** Its value after the signals of [signals] that are for surface [e]. *)
Fixpoint view_after (v : Z * bool * Z) (e : string) (signals : list Signal)
    : Z * bool * Z :=
  match signals with
  | [] => v
  | s :: rest =>
      view_after
        (if String.eqb (surface s) e then next_view v (Text.length (content s)) else v)
        e rest
  end.

(** Event types of the [logEvent] calls in a trace. *)
Definition logged (eventType : string) (o : output) : bool :=
  match o with
  | LogEvent e _ => String.eqb e eventType
  | DispatchEvent _ _ => false
  end.

(** A series of calls of [_recordMeaningfulEdit] as [_handleAddition]
    makes them, each with its clock reading. *)
Record Recording := {
  rec_now : Z;
  rec_editor : string;
  rec_change : Z;
  rec_length : Z
}.

Fixpoint record_all (t : Tracker) (l : list Recording) : Tracker * list output :=
  match l with
  | [] => (t, [])
  | r :: rest =>
      let '(t, o1) :=
        _recordMeaningfulEdit t (rec_now r) (rec_editor r) "addition"
          (rec_change r) (rec_length r) (rec_now r) in
      let '(t, o2) := record_all t rest in
      (t, o1 ++ o2)
  end.

(** [resetCodeMonitoring]: new surface states and empty histories; the
    two configuration objects are not touched. *)
Definition resetCodeMonitoring (t : Tracker) : Tracker :=
  {| codeMonitoringConfig := codeMonitoringConfig t;
     hintConfig := hintConfig t;
     codeMonitorStates :=
       <["html" := _createEditorState]>
         (<["css" := _createEditorState]>
            (<["js" := _createEditorState]> ∅));
     problemEvents := [];
     significantEdits := [] |}.

(** The counting reductions of [getCodingBehaviorAnalysis]:
    [acc[k] = (acc[k] || 0) + 1] over the history, for [k = edit.type] and
    [k = edit.editor]. *)
Definition record_editor (r : EditRecord) : string :=
  match r with
  | Cycle c => cycle_editor c
  | Added a => addition_editor a
  end.

Definition count_step (key : EditRecord -> string) (acc : gmap string Z)
    (edit : EditRecord) : gmap string Z :=
  <[key edit := default 0 (acc !! key edit) + 1]> acc.

Definition editsByType (edits : list EditRecord) : gmap string Z :=
  foldl (count_step record_type) ∅ edits.

Definition editsByEditor (edits : list EditRecord) : gmap string Z :=
  foldl (count_step record_editor) ∅ edits.

(** The problems reported by the [coding_problem] events of a trace, and
    the times of its hint notifications. *)
Definition reported (outs : list output) : list ProblemEvent :=
  flat_map (fun o =>
    match o with
    | LogEvent _ (CodingProblemData e c sev ts) =>
        [{| problem_editor := e; problem_timestamp := ts;
            problem_consecutiveEdits := c; severity := sev |}]
    | _ => []
    end) outs.

Definition hint_times (outs : list output) : list Z :=
  flat_map (fun o =>
    match o with
    | DispatchEvent _ d => [hint_timestamp d]
    | LogEvent _ _ => []
    end) outs.

(** Successive times, each at least [gap] after the one before, the first
    at least [gap] after [from]. *)
Fixpoint spaced (gap from : Z) (times : list Z) : Prop :=
  match times with
  | [] => True
  | t :: rest => from + gap <= t /\ spaced gap t rest
  end.

End EditCycle.

(** ** The submission policy as the specification words it

    "Flush the most recent 5 whenever the history reaches 5 unsent, or
    immediately whenever a single addition's magnitude crosses a large
    threshold (default 50 units)": a reference policy that keeps count of
    the records not yet sent, to be compared with [record_all]. *)

Module PolicySpec.

Import EditCycle.

Record State := {
  history : list EditRecord;
  unsent : nat
}.

Definition initial : State := {| history := []; unsent := 0 |}.

Definition spec_record (r : Recording) (s : State) : State * list output :=
  let editRecord :=
    {| addition_type := "addition";
       addition_editor := rec_editor r;
       addition_timestamp := rec_now r;
       changeAmount := rec_change r;
       currentLength := rec_length r |} in
  let h := history s ++ [Added editRecord] in
  if rec_change r >=? 50 then
    ({| history := h; unsent := unsent s |},
     [LogEvent "large_addition" (LargeAdditionData editRecord)])
  else if (S (unsent s) =? 5)%nat then
    ({| history := h; unsent := 0 |},
     [LogEvent "significant_edits"
        (SignificantEditsData (len (slice_last5 h)) (slice_last5 h) (rec_now r))])
  else
    ({| history := h; unsent := S (unsent s) |}, []).

Fixpoint spec_record_all (s : State) (l : list Recording) : State * list output :=
  match l with
  | [] => (s, [])
  | r :: rest =>
      let '(s, o1) := spec_record r s in
      let '(s, o2) := spec_record_all s rest in
      (s, o1 ++ o2)
  end.

End PolicySpec.

(** ** Click records: [_isInteractive], [_getInteractiveContent],
       [_buildClickRecord]

    The coordinate, rectangle, page and selector fields of the record are
    computed from floating-point geometry and the DOM tree and do not
    interact with the content fields; they are left out. *)

Module ClickRecord.

Import Text.

(** White space as matched by [\s] and removed by [trim]. *)
Definition is_space (c : N) : bool :=
  ((c =? 9) || (c =? 10) || (c =? 11) || (c =? 12) || (c =? 13) || (c =? 32)
   || (c =? 160) || (c =? 5760) || ((8192 <=? c) && (c <=? 8202))
   || (c =? 8232) || (c =? 8233) || (c =? 8239) || (c =? 8287)
   || (c =? 12288) || (c =? 65279))%N.

Fixpoint drop_space (s : text) : text :=
  match s with
  | [] => []
  | c :: rest => if is_space c then drop_space rest else s
  end.

(** [s.trim()] *)
Definition trim (s : text) : text :=
  rev (drop_space (rev (drop_space s))).

(** [s.replace(/\s+/g, ' ')]; [in_run] tells that the previous unit was
    white space and has been replaced already. *)
Fixpoint collapse (in_run : bool) (s : text) : text :=
  match s with
  | [] => []
  | c :: rest =>
      if is_space c then
        if in_run then collapse true rest else 32%N :: collapse true rest
      else c :: collapse false rest
  end.

(** [s.slice(0, n)]: a negative [n] counts from the end. *)
Definition slice0 (s : text) (n : Z) : text :=
  let stop := if n <? 0 then Z.max (length s + n) 0 else Z.min n (length s) in
  take (Z.to_nat stop) s.

(** Tag names are ASCII; [toLowerCase] on them. *)
Definition lower (c : Ascii.ascii) : Ascii.ascii :=
  let n := Ascii.nat_of_ascii c in
  if ((65 <=? n) && (n <=? 90))%nat then Ascii.ascii_of_nat (n + 32) else c.

Fixpoint toLowerCase (s : string) : string :=
  match s with
  | EmptyString => EmptyString
  | String c rest => String (lower c) (toLowerCase rest)
  end.

(** What the methods read from the clicked element. *)
Record Element := {
  tagName : string;                (* '' when missing *)
  type : string;                   (* el.type *)
  value : option text;             (* None: null or undefined *)
  textContent : option text;
  contenteditable : bool;          (* hasAttribute('contenteditable') *)
  role : option string;            (* getAttribute('role') *)
  href : bool;                     (* hasAttribute('href') *)
  tabindex : option string         (* getAttribute('tabindex') *)
}.

(** [el.matches('a[href], [tabindex]:not([tabindex="-1"])')] *)
Definition matches_link_or_tabindex (el : Element) : bool :=
  (String.eqb (toLowerCase (tagName el)) "a" && href el)
  || match tabindex el with
     | Some v => negb (String.eqb v "-1")
     | None => false
     end.

(** [_isInteractive] *)
Definition _isInteractive (el : Element) : bool :=
  let tag := toLowerCase (tagName el) in
  if existsb (String.eqb tag) ["button"; "input"; "select"; "textarea"; "label"]
  then true
  else if contenteditable el then true
  else if match role el with Some r => String.eqb r "button" | None => false end
  then true
  else if matches_link_or_tabindex el then true
  else false.

(** [_getInteractiveContent]; nothing in the body raises on an element
    of this shape, so the catch branch is not taken. *)
Definition _getInteractiveContent (el : Element) (maxLen : Z) : option text :=
  let tag := toLowerCase (tagName el) in
  if String.eqb tag "input"
     && (String.eqb (type el) "password" || String.eqb (type el) "file")
  then None
  else
    let text :=
      if String.eqb tag "input" || String.eqb tag "textarea"
      then default [] (value el)
      else default [] (textContent el) in
    let text := collapse false (trim text) in
    let text := if length text >? maxLen then slice0 text maxLen else text in
    match text with
    | [] => None                   (* text || null *)
    | _ :: _ => Some text
    end.

Record Click := {
  t : Z;
  tag : string;
  interactive : bool;
  content : option text;
  content_len : Z
}.

(** [_buildClickRecord] *)
Definition _buildClickRecord (now : Z) (target : Element) (maxLen : Z) : Click :=
  let tag := toLowerCase (tagName target) in
  let interactive := _isInteractive target in
  let content :=
    if interactive then _getInteractiveContent target maxLen else None in
  {| t := now;
     tag := tag;
     interactive := interactive;
     content := content;
     content_len :=
       match content with
       | Some ((_ :: _) as c) => length c  (* content ? content.length : 0 *)
       | _ => 0
       end |}.

(** The text of the element after [trim] and [replace], before truncation. *)
Definition normalised (el : Element) : text :=
  let tag := toLowerCase (tagName el) in
  collapse false
    (trim (if String.eqb tag "input" || String.eqb tag "textarea"
           then default [] (value el)
           else default [] (textContent el))).

(** [tag === 'input' && (el.type === 'password' || el.type === 'file')] *)
Definition is_secret_input (el : Element) : bool :=
  String.eqb (toLowerCase (tagName el)) "input"
  && (String.eqb (type el) "password" || String.eqb (type el) "file").

(** A text whose only white space is single U+0020 units; with
    [after_space] set a space at the very start is ruled out as well. *)
Fixpoint single_spaced (after_space : bool) (s : text) : Prop :=
  match s with
  | [] => True
  | c :: rest =>
      (is_space c = true -> c = 32%N /\ after_space = false)
      /\ single_spaced (is_space c) rest
  end.

End ClickRecord.

(** ** Timers

    A field such as [this._clickBatchTimer] holds the handle returned by
    [setTimeout].  The handle records when the callback is due and whether
    it can still run; a handle whose callback has run or was cleared stays
    in the field (and stays truthy) until the field is overwritten. *)

Module Timers.

Record timer := {
  due : Z;
  live : bool
}.

(** [setTimeout(f, delay)] at time [now]; a negative delay counts as 0. *)
Definition setTimeout (now delay : Z) : option timer :=
  Some {| due := now + Z.max 0 delay; live := true |}.

Definition spent (h : timer) : timer := {| due := due h; live := false |}.

(** [clearTimeout(field)] *)
Definition clearTimeout (field : option timer) : option timer :=
  spent <$> field.

(** The callback of the handle in [field] is to run by [now]. *)
Definition expired (now : Z) (field : option timer) : bool :=
  match field with
  | Some h => live h && (due h <=? now)
  | None => false
  end.

Definition pending (field : option timer) : bool :=
  match field with
  | Some h => live h
  | None => false
  end.

End Timers.

(** ** The click batch of [initPageClick]: [_enqueueClick],
       [_flushClickBatch], [_sendClickBatch]

    [page_url] is left out of the event data. *)

Module ClickBatch.

Import Timers.

Record ClickCfg := {
  batch : bool;
  flushInterval : Z;
  maxBatchSize : Z;
  includeTextMaxLen : Z
}.

Definition defaults : ClickCfg :=
  {| batch := true; flushInterval := 1200; maxBatchSize := 50;
     includeTextMaxLen := 120 |}.

(** The end of the window opened by a click at time [t]. *)
Definition window (cfg : ClickCfg) (t : Z) : Z := t + Z.max 0 (flushInterval cfg).

Section WithRecord.

Context {R : Type}.

Record State := {
  _clickBatch : list R;
  _clickBatchTimer : option timer
}.

Definition initial : State := {| _clickBatch := []; _clickBatchTimer := None |}.

Record PageClick := {
  count : Z;
  items : list R;
  final : bool
}.

(** A [logEvent] call and the time at which it is made. *)
Record emitted := {
  at_time : Z;
  eventType : string;
  eventData : PageClick
}.

(** [_sendClickBatch] *)
Definition _sendClickBatch (now : Z) (items : list R) (isFinal : bool)
    : list emitted :=
  [{| at_time := now;
      eventType := "page_click";
      eventData := {| count := Z.of_nat (length items);
                      items := items;
                      final := isFinal |} |}].

(** [_flushClickBatch]: splice the buffer out, clear the timer, send. *)
Definition _flushClickBatch (now : Z) (isFinal : bool) (s : State)
    : State * list emitted :=
  match _clickBatch s with
  | [] => (s, [])
  | _ :: _ =>
      let items := _clickBatch s in
      ({| _clickBatch := []; _clickBatchTimer := None |},
       _sendClickBatch now items isFinal)
  end.

(** [_enqueueClick] *)
Definition _enqueueClick (cfg : ClickCfg) (now : Z) (rec : R) (s : State)
    : State * list emitted :=
  let s := {| _clickBatch := _clickBatch s ++ [rec];
              _clickBatchTimer := _clickBatchTimer s |} in
  if Z.of_nat (length (_clickBatch s)) >=? maxBatchSize cfg then
    _flushClickBatch now false s
  else
    match _clickBatchTimer s with
    | None =>
        ({| _clickBatch := _clickBatch s;
            _clickBatchTimer := setTimeout now (flushInterval cfg) |}, [])
    | Some _ => (s, [])
    end.

(** What the page can do to the batch. *)
Inductive event :=
| Click (rec : R)                    (* a left click on an element *)
| PageHide
| BeforeUnload
| VisibilityChange (hidden : bool).

(** The handlers installed by [initPageClick]. *)
Definition handle (cfg : ClickCfg) (now : Z) (e : event) (s : State)
    : State * list emitted :=
  match e with
  | Click rec =>
      if batch cfg then _enqueueClick cfg now rec s
      else (s, _sendClickBatch now [rec] false)
  | PageHide | BeforeUnload => _flushClickBatch now true s
  | VisibilityChange hidden =>
      if hidden then _flushClickBatch now true s else (s, [])
  end.

(** The timer callback [() => this._flushClickBatch()], run at the time
    it is due if that time has come. *)
Definition expire (now : Z) (s : State) : State * list emitted :=
  match _clickBatchTimer s with
  | Some h =>
      if live h && (due h <=? now) then
        _flushClickBatch (due h) false
          {| _clickBatch := _clickBatch s;
             _clickBatchTimer := Some (spent h) |}
      else (s, [])
  | None => (s, [])
  end.

(** Timed events in order; a timer due by the time of an event runs
    before the event's handler. *)
Fixpoint run (cfg : ClickCfg) (events : list (Z * event)) (s : State)
    : State * list emitted :=
  match events with
  | [] => (s, [])
  | (now, e) :: rest =>
      let '(s, o1) := expire now s in
      let '(s, o2) := handle cfg now e s in
      let '(s, o3) := run cfg rest s in
      (s, o1 ++ o2 ++ o3)
  end.

(** The events, then the passage of time up to [horizon]. *)
Definition run_until (cfg : ClickCfg) (events : list (Z * event))
    (horizon : Z) (s : State) : State * list emitted :=
  let '(s, o1) := run cfg events s in
  let '(s, o2) := expire horizon s in
  (s, o1 ++ o2).

Definition clicks (l : list (Z * R)) : list (Z * event) :=
  map (fun c => (fst c, Click (snd c))) l.

(** The records clicked in a series of events, and the records sent by a
    series of flushes, both in order. *)
Definition clicked (events : list (Z * event)) : list R :=
  flat_map (fun e => match e.2 with Click rec => [rec] | _ => [] end) events.

Definition flushed (outs : list emitted) : list R :=
  flat_map (fun o => items (eventData o)) outs.

(** The events on which the page flushes before it goes away. *)
Definition leaves (e : event) : bool :=
  match e with
  | PageHide | BeforeUnload | VisibilityChange true => true
  | _ => false
  end.

(** The buffer and its timer go together: an empty buffer has no timer, a
    buffer with clicks in it is shorter than [maxBatchSize] and waits for a
    live timer due by [bound]. *)
Definition armed (cfg : ClickCfg) (bound : Z) (s : State) : Prop :=
  match _clickBatch s with
  | [] => _clickBatchTimer s = None
  | _ :: _ =>
      Z.of_nat (length (_clickBatch s)) < maxBatchSize cfg
      /\ exists h, _clickBatchTimer s = Some h /\ live h = true /\ due h <= bound
  end.

End WithRecord.

Arguments State : clear implicits.
Arguments PageClick : clear implicits.
Arguments emitted : clear implicits.
Arguments event : clear implicits.

End ClickBatch.

(** ** The click batch of [initElementClickTracking], the revision with
       frequent areas: [_enqueueClick(rec, isFrequent)] and a
       [_lastFlushAt] field *)

Module HotBatch.

Import Timers.

Record ClickCfg := {
  batch : bool;
  flushInterval : Z;
  maxBatchSize : Z;
  frequentFlushInterval : Z;
  includeTextMaxLen : Z
}.

Definition defaults : ClickCfg :=
  {| batch := true; flushInterval := 1500; maxBatchSize := 40;
     frequentFlushInterval := 500; includeTextMaxLen := 120 |}.

Section WithRecord.

Context {R : Type}.

Record State := {
  _clickBatch : list R;
  _clickBatchTimer : option timer;
  _lastFlushAt : Z
}.

Definition initial : State :=
  {| _clickBatch := []; _clickBatchTimer := None; _lastFlushAt := 0 |}.

Record ClickStats := {
  count : Z;
  items : list R
}.

Record emitted := {
  at_time : Z;
  eventType : string;
  eventData : ClickStats
}.

(** [_sendClickBatch] *)
Definition _sendClickBatch (now : Z) (items : list R) : list emitted :=
  [{| at_time := now;
      eventType := "dom_click_stats";
      eventData := {| count := Z.of_nat (length items); items := items |} |}].

(** [_flushClickBatch] *)
Definition _flushClickBatch (now : Z) (s : State) : State * list emitted :=
  match _clickBatch s with
  | [] => (s, [])
  | _ :: _ =>
      let items := _clickBatch s in
      ({| _clickBatch := []; _clickBatchTimer := None; _lastFlushAt := now |},
       _sendClickBatch now items)
  end.

(** [_enqueueClick] *)
Definition _enqueueClick (cfg : ClickCfg) (now : Z) (rec : R)
    (isFrequent : bool) (s : State) : State * list emitted :=
  let s := {| _clickBatch := _clickBatch s ++ [rec];
              _clickBatchTimer := _clickBatchTimer s;
              _lastFlushAt := _lastFlushAt s |} in
  if Z.of_nat (length (_clickBatch s)) >=? maxBatchSize cfg then
    _flushClickBatch now s
  else
    let interval :=
      if isFrequent then frequentFlushInterval cfg else flushInterval cfg in
    match _clickBatchTimer s with
    | Some _ =>
        let nextAt := _lastFlushAt s + interval in
        if now + interval <? nextAt then
          ({| _clickBatch := _clickBatch s;
              _clickBatchTimer := setTimeout now interval;
              _lastFlushAt := _lastFlushAt s |}, [])
        else (s, [])
    | None =>
        ({| _clickBatch := _clickBatch s;
            _clickBatchTimer := setTimeout now interval;
            _lastFlushAt := _lastFlushAt s |}, [])
    end.

(** The timer callback, run at the time it is due. *)
Definition expire (now : Z) (s : State) : State * list emitted :=
  match _clickBatchTimer s with
  | Some h =>
      if live h && (due h <=? now) then
        _flushClickBatch (due h)
          {| _clickBatch := _clickBatch s;
             _clickBatchTimer := Some (spent h);
             _lastFlushAt := _lastFlushAt s |}
      else (s, [])
  | None => (s, [])
  end.

(** Clicks in batch mode, each with the time and whether the target
    matches a frequent-area selector. *)
Fixpoint run (cfg : ClickCfg) (clicks : list (Z * R * bool)) (s : State)
    : State * list emitted :=
  match clicks with
  | [] => (s, [])
  | (now, rec, isFrequent) :: rest =>
      let '(s, o1) := expire now s in
      let '(s, o2) := _enqueueClick cfg now rec isFrequent s in
      let '(s, o3) := run cfg rest s in
      (s, o1 ++ o2 ++ o3)
  end.

(** The clock never runs backwards and starts after the epoch. *)
Fixpoint ascending (from : Z) (clicks : list (Z * R * bool)) : Prop :=
  match clicks with
  | [] => True
  | (now, _, _) :: rest => from <= now /\ ascending now rest
  end.

(** [_enqueueClick] with the rescheduling of a pending timer taken out,
    and the run built on it; for comparison with the method as written. *)
Definition enqueue_without_reschedule (cfg : ClickCfg) (now : Z) (rec : R)
    (isFrequent : bool) (s : State) : State * list emitted :=
  let s := {| _clickBatch := _clickBatch s ++ [rec];
              _clickBatchTimer := _clickBatchTimer s;
              _lastFlushAt := _lastFlushAt s |} in
  if Z.of_nat (length (_clickBatch s)) >=? maxBatchSize cfg then
    _flushClickBatch now s
  else
    let interval :=
      if isFrequent then frequentFlushInterval cfg else flushInterval cfg in
    match _clickBatchTimer s with
    | Some _ => (s, [])
    | None =>
        ({| _clickBatch := _clickBatch s;
            _clickBatchTimer := setTimeout now interval;
            _lastFlushAt := _lastFlushAt s |}, [])
    end.

Fixpoint run_without_reschedule (cfg : ClickCfg) (clicks : list (Z * R * bool))
    (s : State) : State * list emitted :=
  match clicks with
  | [] => (s, [])
  | (now, rec, isFrequent) :: rest =>
      let '(s, o1) := expire now s in
      let '(s, o2) := enqueue_without_reschedule cfg now rec isFrequent s in
      let '(s, o3) := run_without_reschedule cfg rest s in
      (s, o1 ++ o2 ++ o3)
  end.

(** The interval of the area a click falls in, and the records sent by a
    series of flushes, in order. *)
Definition interval_of (cfg : ClickCfg) (isFrequent : bool) : Z :=
  if isFrequent then frequentFlushInterval cfg else flushInterval cfg.

Definition flushed (outs : list emitted) : list R :=
  flat_map (fun o => items (eventData o)) outs.

Definition clicked (clicks : list (Z * R * bool)) : list R :=
  map (fun c => c.1.2) clicks.

End WithRecord.

Arguments State : clear implicits.
Arguments emitted : clear implicits.

End HotBatch.

(** ** Idle tracking and the idle hint: [initIdleAndFocus],
       [_maybeShowIdleHint]

    [page_url] is left out of the event data. *)

Module Idle.

Import Timers.

Record IdleHintConfig := {
  hintAfterMs : option Z;          (* None: not a number *)
  delayAfterIdleMs : option Z;     (* None: not a number *)
  cooldownMs : Z;
  lastHintTs : Z;
  messages : list string
}.

Definition defaultHintConfig : IdleHintConfig :=
  {| hintAfterMs := Some 3000;
     delayAfterIdleMs := None;
     cooldownMs := 18000;
     lastHintTs := 0;
     (* stand-ins for the five default texts *)
     messages := ["hint-1"; "hint-2"; "hint-3"; "hint-4"; "hint-5"] |}.

Record State := {
  idleTimer : option timer;
  _idleHintTimer : option timer;
  _lastActivityTs : Z;
  _idleStartTs : option Z;         (* None: null *)
  _idleMsgIdx : nat;
  idleHintConfig : IdleHintConfig
}.

Inductive EventData :=
| UserIdle (duration_ms timestamp_start timestamp_end : Z)
    (was_focused : bool) (trigger_source : string)
| IdleHintDisplayed (message : string) (idle_ms timestamp : Z).

Record HintDetail := {
  editor : string;
  editCount : Z;
  timestamp : Z;
  message : string
}.

Inductive call :=
| LogEvent (eventType : string) (eventData : EventData)
| DispatchEvent (name : string) (detail : HintDetail).

(** A call and the time at which it is made. *)
Definition emitted : Type := Z * call.

(** [computeHintDelay] *)
Definition computeHintDelay (idleMs : Z) (c : IdleHintConfig) : Z :=
  match delayAfterIdleMs c with
  | Some d => Z.max 0 d
  | None =>
      let total := match hintAfterMs c with Some h => h | None => idleMs end in
      Z.max 0 (total - idleMs)
  end.

(** [_maybeShowIdleHint] *)
Definition _maybeShowIdleHint (now : Z) (s : State) : State * list emitted :=
  let c := idleHintConfig s in
  let last := lastHintTs c in
  let cooldown := cooldownMs c in
  if now - last <? cooldown then (s, [])
  else
    let msgs := messages c in
    match msgs with
    | [] => (s, [])                        (* !msgs.length *)
    | first :: _ =>
        let idx := (_idleMsgIdx s mod length msgs)%nat in
        let message := nth idx msgs first in
        let idleStart :=
          let v := default (_lastActivityTs s) (_idleStartTs s) in
          if v =? 0 then now else v in
        let idleSoFar := Z.max 0 (now - idleStart) in
        ({| idleTimer := idleTimer s;
            _idleHintTimer := _idleHintTimer s;
            _lastActivityTs := _lastActivityTs s;
            _idleStartTs := _idleStartTs s;
            _idleMsgIdx := (idx + 1)%nat;
            idleHintConfig :=
              {| hintAfterMs := hintAfterMs c;
                 delayAfterIdleMs := delayAfterIdleMs c;
                 cooldownMs := cooldownMs c;
                 lastHintTs := now;
                 messages := messages c |} |},
         [(now, DispatchEvent "problemHintNeeded"
                  {| editor := "idle"; editCount := 0;
                     timestamp := now; message := message |});
          (now, LogEvent "idle_hint_displayed"
                  (IdleHintDisplayed message idleSoFar now))])
    end.

(** [scheduleIdleAndHint] *)
Definition scheduleIdleAndHint (idleMs now : Z) (s : State) : State :=
  {| idleTimer := setTimeout now idleMs;
     _idleHintTimer := clearTimeout (_idleHintTimer s);
     _lastActivityTs := now;
     _idleStartTs := _idleStartTs s;
     _idleMsgIdx := _idleMsgIdx s;
     idleHintConfig := idleHintConfig s |}.

(** The callback of the idle timer: mark the start of the idle session
    and start the hint timer. *)
Definition onIdleTimer (idleMs now : Z) (s : State) : State :=
  {| idleTimer := spent <$> idleTimer s;
     _idleHintTimer := setTimeout now (computeHintDelay idleMs (idleHintConfig s));
     _lastActivityTs := _lastActivityTs s;
     _idleStartTs :=
       match _idleStartTs s with
       | None => Some (_lastActivityTs s)
       | Some start => Some start
       end;
     _idleMsgIdx := _idleMsgIdx s;
     idleHintConfig := idleHintConfig s |}.

(** The callback of the hint timer. *)
Definition onHintTimer (now : Z) (s : State) : State * list emitted :=
  let s := {| idleTimer := idleTimer s;
              _idleHintTimer := spent <$> _idleHintTimer s;
              _lastActivityTs := _lastActivityTs s;
              _idleStartTs := _idleStartTs s;
              _idleMsgIdx := _idleMsgIdx s;
              idleHintConfig := idleHintConfig s |} in
  match _idleStartTs s with
  | Some _ => _maybeShowIdleHint now s
  | None => (s, [])
  end.

(** Closing an open idle session with a [user_idle] event; shared by
    [onActivity] and the [pagehide] handler. *)
Definition close_idle (now : Z) (hidden : bool) (src : string) (s : State)
    : State * list emitted :=
  match _idleStartTs s with
  | Some start =>
      ({| idleTimer := idleTimer s;
          _idleHintTimer := _idleHintTimer s;
          _lastActivityTs := _lastActivityTs s;
          _idleStartTs := None;
          _idleMsgIdx := _idleMsgIdx s;
          idleHintConfig := idleHintConfig s |},
       [(now, LogEvent "user_idle"
                (UserIdle (now - start) start now (negb hidden) src))])
  | None => (s, [])
  end.

(** [onActivity] *)
Definition onActivity (idleMs now : Z) (hidden : bool) (src : string) (s : State)
    : State * list emitted :=
  let '(s, outs) := close_idle now hidden src s in
  (scheduleIdleAndHint idleMs now s, outs).

(** The state left by [initIdleAndFocus] when called at [now]. *)
Definition initIdleAndFocus (idleMs now : Z) (c : IdleHintConfig) : State :=
  scheduleIdleAndHint idleMs now
    {| idleTimer := None;
       _idleHintTimer := None;
       _lastActivityTs := now;
       _idleStartTs := None;
       _idleMsgIdx := 0;
       idleHintConfig := c |}.

(** DOM events seen by the listeners; [hidden] is [document.hidden] when
    the listener runs. *)
Inductive event :=
| Activity (evt : string) (hidden : bool)
| VisibilityChange (hidden : bool)
| PageHide (hidden : bool).

Definition handle (idleMs now : Z) (e : event) (s : State) : State * list emitted :=
  match e with
  | Activity evt hidden => onActivity idleMs now hidden evt s
  | VisibilityChange hidden =>
      if hidden then (s, []) else onActivity idleMs now hidden "visibility" s
  | PageHide hidden => close_idle now hidden "pagehide" s
  end.

(** Timer callbacks due by [now], each run at its due time: the idle
    timer, then the hint timer (which the idle callback may just have
    started).  The two are never pending together: the hint timer is
    started by the idle callback only, and [scheduleIdleAndHint] clears
    it whenever it starts the idle timer. *)
Definition expire_idle (idleMs now : Z) (s : State) : State :=
  match idleTimer s with
  | Some h => if live h && (due h <=? now) then onIdleTimer idleMs (due h) s else s
  | None => s
  end.

Definition expire_hint (now : Z) (s : State) : State * list emitted :=
  match _idleHintTimer s with
  | Some h => if live h && (due h <=? now) then onHintTimer (due h) s else (s, [])
  | None => (s, [])
  end.

Definition expire (idleMs now : Z) (s : State) : State * list emitted :=
  expire_hint now (expire_idle idleMs now s).

Fixpoint run (idleMs : Z) (events : list (Z * event)) (s : State)
    : State * list emitted :=
  match events with
  | [] => (s, [])
  | (now, e) :: rest =>
      let '(s, o1) := expire idleMs now s in
      let '(s, o2) := handle idleMs now e s in
      let '(s, o3) := run idleMs rest s in
      (s, o1 ++ o2 ++ o3)
  end.

Definition is_event (eventType : string) (e : emitted) : bool :=
  match snd e with
  | LogEvent t _ => String.eqb t eventType
  | DispatchEvent _ _ => false
  end.

Definition is_hint (e : emitted) : bool :=
  match snd e with
  | DispatchEvent n _ => String.eqb n "problemHintNeeded"
  | LogEvent _ _ => false
  end.

(** The state right after an activity at time [at_]: the idle timer runs
    from [at_], no hint timer is pending, no idle session is open. *)
Definition rested (idleMs at_ : Z) (s : State) : Prop :=
  idleTimer s = setTimeout at_ idleMs
  /\ pending (_idleHintTimer s) = false
  /\ _lastActivityTs s = at_
  /\ _idleStartTs s = None.

(** When the idle session of a rest begun at [at_] opens, and when its
    hint is due. *)
Definition idle_onset (idleMs at_ : Z) : Z := at_ + Z.max 0 idleMs.

Definition hint_due (idleMs at_ : Z) (c : IdleHintConfig) : Z :=
  idle_onset idleMs at_ + Z.max 0 (computeHintDelay idleMs c).

(** The next message of the rotation. *)
Definition next_message (s : State) : string :=
  let msgs := messages (idleHintConfig s) in
  nth (_idleMsgIdx s mod length msgs)%nat msgs "".

(** The idle timer and the hint timer are not pending together. *)
Definition exclusive (s : State) : Prop :=
  pending (idleTimer s) && pending (_idleHintTimer s) = false.

(** The hint notifications of a trace, each with its time and message,
    and the [user_idle] events, each with its time and the idle span it
    reports. *)
Definition hints (outs : list emitted) : list (Z * string) :=
  flat_map (fun o =>
    match o.2 with
    | DispatchEvent _ d => [(o.1, message d)]
    | LogEvent _ _ => []
    end) outs.

Record Span := {
  sent_at : Z;
  lasted : Z;                      (* duration_ms *)
  from_ts : Z;                     (* timestamp_start *)
  to_ts : Z                        (* timestamp_end *)
}.

Definition idles (outs : list emitted) : list Span :=
  flat_map (fun o =>
    match o.2 with
    | LogEvent _ (UserIdle duration start stop _ _) =>
        [{| sent_at := o.1; lasted := duration; from_ts := start; to_ts := stop |}]
    | _ => []
    end) outs.

(** [count] messages taken in turn from [msgs], beginning with the one
    at [start], and beginning again after the last. *)
Definition rotation (msgs : list string) (start count : nat) : list string :=
  map (fun i => nth ((start + i) mod length msgs)%nat msgs "") (seq 0 count).

(** The clock never runs backwards. *)
Fixpoint ascending (from : Z) (events : list (Z * event)) : Prop :=
  match events with
  | [] => True
  | (now, _) :: rest => from <= now /\ ascending now rest
  end.

(** The events that restart the timers: an activity, or the page coming
    back to the foreground. *)
Definition restarts (e : event) : bool :=
  match e with
  | Activity _ _ => true
  | VisibilityChange hidden => negb hidden
  | PageHide _ => false
  end.

(** Every event comes before the idle threshold has elapsed since the
    last restart, the first restart being at [at_]. *)
Fixpoint brisk (idleMs at_ : Z) (events : list (Z * event)) : Prop :=
  match events with
  | [] => True
  | (now, e) :: rest =>
      now < idle_onset idleMs at_
      /\ brisk idleMs (if restarts e then now else at_) rest
  end.

(** The time of the last restart. *)
Fixpoint last_activity (at_ : Z) (events : list (Z * event)) : Z :=
  match events with
  | [] => at_
  | (now, e) :: rest => last_activity (if restarts e then now else at_) rest
  end.

End Idle.

(** ** Idle and focus in the earlier revision: [initIdleAndFocus] with
       [resetIdle]

    One timer, restarted by every activity and by every return to the
    foreground; its callback reports [user_idle] with the threshold as
    duration.  [startTime] is the variable captured by the callback of
    the timer in place; [hidden] is [document.hidden].  [page_url] is
    left out of the event data. *)

Module OldIdle.

Import Timers.

Record State := {
  idleTimer : option timer;
  startTime : Z;
  hidden : bool
}.

Inductive EventData :=
| UserIdle (duration_ms timestamp_start timestamp_end : Z)
    (was_focused : bool) (trigger_source : string)
| PageFocusChange (status : string) (timestamp : Z).

Record emitted := {
  at_time : Z;
  eventType : string;
  eventData : EventData
}.

(** [resetIdle] *)
Definition resetIdle (idleMs now : Z) (s : State) : State :=
  {| idleTimer := setTimeout now idleMs; startTime := now; hidden := hidden s |}.

(** The state left by the first call of [initIdleAndFocus], at [now]. *)
Definition initIdleAndFocus (idleMs now : Z) (is_hidden : bool) : State :=
  resetIdle idleMs now {| idleTimer := None; startTime := now; hidden := is_hidden |}.

Inductive event :=
| Activity (evt : string)                (* mousemove, keydown, scroll, click *)
| VisibilityChange (is_hidden : bool).

Definition handle (idleMs now : Z) (e : event) (s : State) : State * list emitted :=
  match e with
  | Activity _ => (resetIdle idleMs now s, [])
  | VisibilityChange is_hidden =>
      let status := if is_hidden then "blur" else "focus" in
      let s := {| idleTimer := idleTimer s; startTime := startTime s;
                  hidden := is_hidden |} in
      (if is_hidden then s else resetIdle idleMs now s,
       [{| at_time := now; eventType := "page_focus_change";
           eventData := PageFocusChange status now |}])
  end.

(** The timer callback, run at the time it is due. *)
Definition expire (idleMs now : Z) (s : State) : State * list emitted :=
  match idleTimer s with
  | Some h =>
      if live h && (due h <=? now) then
        ({| idleTimer := Some (spent h); startTime := startTime s; hidden := hidden s |},
         [{| at_time := due h; eventType := "user_idle";
             eventData := UserIdle idleMs (startTime s) (due h) (negb (hidden s))
                            "timeout" |}])
      else (s, [])
  | None => (s, [])
  end.

Fixpoint run (idleMs : Z) (events : list (Z * event)) (s : State)
    : State * list emitted :=
  match events with
  | [] => (s, [])
  | (now, e) :: rest =>
      let '(s, o1) := expire idleMs now s in
      let '(s, o2) := handle idleMs now e s in
      let '(s, o3) := run idleMs rest s in
      (s, o1 ++ o2 ++ o3)
  end.

(** The events, then the passage of time up to [horizon]. *)
Definition run_until (idleMs : Z) (events : list (Z * event)) (horizon : Z)
    (s : State) : State * list emitted :=
  let '(s, o1) := run idleMs events s in
  let '(s, o2) := expire idleMs horizon s in
  (s, o1 ++ o2).





End OldIdle.

(** ** The change log of the revision with [initCodeChangeTracking]:
       [_recordCodeChange], [clearCodeChangeHistory] and the sums of
       [getCodeChangeAnalysis]

    [codeStats] is a plain object whose counters are reached by computed
    keys, so it is a map here; a counter that is not a number holds
    [None] (NaN).  The debounced [code_edit] report is kept as the call
    made to [_debouncedCodeEdit]. *)

Module ChangeLog.

Record ChangeRecord := {
  timestamp : Z;
  editor : string;
  codeLength : Z;
  lineCount : Z;
  timeSinceLastChange : Z
}.

Record State := {
  codeChangeHistory : list ChangeRecord;
  lastChangeTime : Z;
  codeStats : gmap string (option Z)
}.

Inductive output :=
| ConsoleLog (r : ChangeRecord)                          (* _logCodeChangeToConsole *)
| DebouncedCodeEdit (editorType : string) (content : Text.text).

Definition fresh_stats (now : Z) : gmap string (option Z) :=
  <["totalChanges" := Some 0]>
    (<["htmlChanges" := Some 0]>
       (<["cssChanges" := Some 0]>
          (<["jsChanges" := Some 0]>
             (<["startTime" := Some now]> ∅)))).

(** The fields as the constructor leaves them. *)
Definition construct (now : Z) : State :=
  {| codeChangeHistory := []; lastChangeTime := now; codeStats := fresh_stats now |}.

(** [stats[key]++]: a missing counter becomes NaN and stays so. *)
Definition increment (key : string) (stats : gmap string (option Z))
    : gmap string (option Z) :=
  <[key := match stats !! key with
           | Some (Some n) => Some (n + 1)
           | _ => None
           end]> stats.

(** [content.split('\n').length] *)
Definition lines (content : Text.text) : Z :=
  1 + Z.of_nat (length (List.filter (N.eqb 10) content)).

(** [_recordCodeChange] *)
Definition _recordCodeChange (now : Z) (editorType : string) (content : Text.text)
    (s : State) : State * list output :=
  let changeRecord :=
    {| timestamp := now;
       editor := editorType;
       codeLength := Text.length content;
       lineCount := lines content;
       timeSinceLastChange := now - lastChangeTime s |} in
  ({| codeChangeHistory := codeChangeHistory s ++ [changeRecord];
      lastChangeTime := now;
      codeStats :=
        increment (String.append editorType "Changes")
          (increment "totalChanges" (codeStats s)) |},
   [ConsoleLog changeRecord; DebouncedCodeEdit editorType content]).

(** [clearCodeChangeHistory] *)
Definition clearCodeChangeHistory (now : Z) (s : State) : State :=
  {| codeChangeHistory := [];
     lastChangeTime := lastChangeTime s;
     codeStats := fresh_stats now |}.

(** The sum [intervals.reduce((a, b) => a + b, 0)] over the records after
    the first, as [getCodeChangeAnalysis] and the periodic summary take
    it before dividing. *)
Definition intervals (history : list ChangeRecord) : list Z :=
  map timeSinceLastChange (tail history).

Definition intervals_sum (history : list ChangeRecord) : Z :=
  foldl Z.add 0 (intervals history).

(** Changes of the editors, in order. *)
Fixpoint run (changes : list (Z * string * Text.text)) (s : State)
    : State * list output :=
  match changes with
  | [] => (s, [])
  | (now, editorType, content) :: rest =>
      let '(s, o1) := _recordCodeChange now editorType content s in
      let '(s, o2) := run rest s in
      (s, o1 ++ o2)
  end.

(** The number held by a counter, NaN and missing counters apart. *)
Definition counter (key : string) (s : State) : option Z :=
  mjoin (codeStats s !! key).

End ChangeLog.

(** ** The selector of an element: [_generateCssSelector]

    The method walks from the element up its [parentElement] chain.  What
    it reads of each node is its name, its [id] (the empty string when
    there is none) and the names of the element siblings before it; the
    element is given as this chain, itself first, and a null element as
    the empty chain.  Node names are ASCII. *)

Module Selector.

Record Node := {
  nodeName : string;
  id : string;
  previousSiblings : list string     (* nearest first *)
}.

(** The [i] of the inner loop: one more than the earlier siblings whose
    lower-cased name is [part]. *)
Definition nth_of_type (part : string) (siblings : list string) : nat :=
  S (length (List.filter (fun n => String.eqb (ClickRecord.toLowerCase n) part) siblings)).

Definition decimal (n : nat) : string :=
  DecimalString.NilEmpty.string_of_uint (Nat.to_uint n).

(** The part of a node without an [id]. *)
Definition segment (n : Node) : string :=
  let part := ClickRecord.toLowerCase (nodeName n) in
  let i := nth_of_type part (previousSiblings n) in
  if (1 <? i)%nat
  then String.append part (String.append ":nth-of-type(" (String.append (decimal i) ")"))
  else part.

(** The part of a node with an [id]. *)
Definition anchor (n : Node) : string :=
  String.append (ClickRecord.toLowerCase (nodeName n)) (String.append "#" (id n)).

(** [parts] when the loop ends, outermost first. *)
Fixpoint parts (path : list Node) : list string :=
  match path with
  | [] => []
  | n :: up =>
      if String.eqb (id n) "" then parts up ++ [segment n]
      else [anchor n]
  end.

(** [parts.join(sep)] *)
Fixpoint join (sep : string) (l : list string) : string :=
  match l with
  | [] => ""
  | [a] => a
  | a :: rest => String.append a (String.append sep (join sep rest))
  end.

Definition _generateCssSelector (path : list Node) : string :=
  join " > " (parts path).

End Selector.

(** ** Asking for help: the handlers of [initChat] *)

Module Chat.

Record AiHelpRequest := {
  message : Text.text;
  mode : string;
  content_id : option string
}.

(** [sendMessage]; [value] is [input.value]. *)
Definition sendMessage (mode : string) (contentId : option string) (value : Text.text)
    : list (string * AiHelpRequest) :=
  match ClickRecord.trim value with
  | [] => []                             (* !message.trim() *)
  | _ :: _ =>
      [("ai_help_request",
        {| message := take 2000 value;   (* message.substring(0, 2000) *)
           mode := mode;
           content_id := contentId |})]
  end.

(** The [keydown] listener of the input: whether the default action is
    prevented, and what is logged. *)
Definition onKeydown (mode : string) (contentId : option string) (key : string)
    (shiftKey : bool) (value : Text.text) : bool * list (string * AiHelpRequest) :=
  if String.eqb key "Enter" && negb shiftKey
  then (true, sendMessage mode contentId value)
  else (false, []).

End Chat.

(** ** Picking an element in the preview: the handlers of
       [initDOMSelector]

    [selecting] is the variable of that name; [bound] tells whether the
    click listener is on the document of the frame.  Reaching that
    document raises for a frame of another origin ([accessible] false).
    Adding the same listener twice has no effect. *)

Module DomSelect.

Record State := {
  selecting : bool;
  bound : bool
}.

Definition initial : State := {| selecting := false; bound := false |}.

Record Selection := {
  tagName : string;
  selector : string;
  position : Z * Z
}.

Inductive output :=
| LogEvent (eventType : string) (eventData : Selection)
| ConsoleWarn.

Inductive event :=
| Start (accessible : bool)            (* a click on the start button *)
| Stop (accessible : bool)             (* a click on the stop button *)
| FrameClick (target : list Selector.Node) (x y : Z).

(** The click listener of the frame's document. *)
Definition handler (target : list Selector.Node) (x y : Z) : list output :=
  match target with
  | [] => []                             (* !tgt *)
  | n :: _ =>
      [LogEvent "dom_element_select"
         {| tagName := Selector.nodeName n;
            selector := Selector._generateCssSelector target;
            position := (x, y) |}]
  end.

Definition handle (e : event) (s : State) : State * list output :=
  match e with
  | Start accessible =>
      if selecting s then (s, [])
      else ({| selecting := true; bound := bound s || accessible |},
            if accessible then [] else [ConsoleWarn])
  | Stop accessible =>
      if selecting s
      then ({| selecting := false; bound := bound s && negb accessible |}, [])
      else (s, [])
  | FrameClick target x y =>
      (s, if bound s then handler target x y else [])
  end.

Fixpoint run (events : list event) (s : State) : State * list output :=
  match events with
  | [] => (s, [])
  | e :: rest =>
      let '(s, o1) := handle e s in
      let '(s, o2) := run rest s in
      (s, o1 ++ o2)
  end.


End DomSelect.

(** ** Concrete pages, states and inputs used by the examples *)

Module Fixtures.

(** A page without the beacon whose [fetch] succeeds. *)
Definition page_without_beacon : Delivery.Transport :=
  {| Delivery.navigator_declared := true;
     Delivery.sendBeacon := Delivery.BeaconAbsent;
     Delivery.stringify_ok := true;
     Delivery.fetch := Delivery.CallReturns Delivery.Fulfilled |}.

(** A surface in the middle of a deletion after three counted edits; the
    text was 100 units long when the deletion was noticed. *)
Definition struggling : EditCycle.EditorState :=
  {| EditCycle.lastContent := [];
     EditCycle.lastLength := 100;
     EditCycle.lastMeaningfulEdit := 10500;
     EditCycle.isDeleting := true;
     EditCycle.deleteStartTime := 11000;
     EditCycle.deleteStartLength := 100;
     EditCycle.consecutiveEdits := 3;
     EditCycle.editBuffer := [] |}.

Definition text_of_length (n : nat) : Text.text := repeat 65%N n.

Definition js_signal (now : Z) (n : nat) : EditCycle.Signal :=
  {| EditCycle.at_time := now;
     EditCycle.drawn := EditCycle.template0;
     EditCycle.surface := "js";
     EditCycle.content := text_of_length n |}.

(** Typing 100 units, 5 more, deleting 5, typing 5 again. *)
Definition retype_five : list EditCycle.Signal :=
  [js_signal 10000 100; js_signal 10500 105; js_signal 11000 100; js_signal 11500 105].

Definition addition (now amount length : Z) : EditCycle.Recording :=
  {| EditCycle.rec_now := now;
     EditCycle.rec_editor := "js";
     EditCycle.rec_change := amount;
     EditCycle.rec_length := length |}.

(** Four additions of 10 units, one of 60, one more of 10, four seconds
    apart, and the typing that gives rise to them. *)
Definition six_additions : list EditCycle.Recording :=
  [addition 4000 10 10; addition 8000 10 20; addition 12000 10 30;
   addition 16000 10 40; addition 20000 60 100; addition 24000 10 110].

Definition typing_six : list EditCycle.Signal :=
  [js_signal 4000 10; js_signal 8000 20; js_signal 12000 30;
   js_signal 16000 40; js_signal 20000 100; js_signal 24000 110].

(** A tracker whose [js] surface is in that state. *)
Definition tracker_struggling : EditCycle.Tracker :=
  EditCycle.set_codeMonitorStates
    (<["js" := struggling]> (EditCycle.codeMonitorStates EditCycle.newTracker))
    EditCycle.newTracker.

(** The tracker after the first four of [six_additions]. *)
Definition tracker_four_edits : EditCycle.Tracker :=
  (EditCycle.record_all EditCycle.newTracker (take 4 six_additions)).1.

(** Where a run ends, for runs that return. *)
Definition end_of_run (t : EditCycle.Tracker) (signals : list EditCycle.Signal)
    : EditCycle.Tracker * list EditCycle.output :=
  default (t, []) (EditCycle.run t signals).

(** A password field holding a secret, and a button with a long label. *)
Definition password_field : ClickRecord.Element :=
  {| ClickRecord.tagName := "INPUT";
     ClickRecord.type := "password";
     ClickRecord.value := Some [104; 117; 110; 116; 101; 114; 50]%N;
     ClickRecord.textContent := Some [];
     ClickRecord.contenteditable := false;
     ClickRecord.role := None;
     ClickRecord.href := false;
     ClickRecord.tabindex := None |}.

Definition labelled_button : ClickRecord.Element :=
  {| ClickRecord.tagName := "BUTTON";
     ClickRecord.type := "submit";
     ClickRecord.value := None;
     ClickRecord.textContent :=
       Some [32; 32; 83; 97; 118; 101; 10; 9; 97; 110; 100; 32; 99; 108; 111; 115; 101; 32]%N;
     ClickRecord.contenteditable := false;
     ClickRecord.role := None;
     ClickRecord.href := false;
     ClickRecord.tabindex := None |}.

(** Sixty clicks, ten milliseconds apart, numbered 1 to 60. *)
Definition numbered_clicks (from count : nat) : list (Z * nat) :=
  map (fun i => (1000 + 10 * Z.of_nat i, i)) (seq from count).

(** The hot-batch state after one click outside the frequent areas at
    time 1000, under the default configuration. *)
Definition cold_pending : HotBatch.State nat :=
  (HotBatch._enqueueClick HotBatch.defaults 1000 1%nat false HotBatch.initial).1.

(** Idle tracking started at time 100000 with a threshold of 4 s and the
    default hint configuration, and the same once the hint has been shown. *)
Definition idle_start : Idle.State :=
  Idle.initIdleAndFocus 4000 100000 Idle.defaultHintConfig.

Definition idle_hinted : Idle.State := (Idle.expire 4000 110000 idle_start).1.

(** The tracker once 100 units have been typed into [js], and the state of
    that surface. *)
Definition tracker_typed : EditCycle.Tracker :=
  (end_of_run EditCycle.newTracker [js_signal 10000 100]).1.

Definition typed : EditCycle.EditorState :=
  default EditCycle._createEditorState (EditCycle.codeMonitorStates tracker_typed !! "js").

(** The third [li] of a list with the id [menu], inside [body]. *)
Definition third_item : list Selector.Node :=
  [{| Selector.nodeName := "LI"; Selector.id := "";
      Selector.previousSiblings := ["LI"; "LI"] |};
   {| Selector.nodeName := "UL"; Selector.id := "menu";
      Selector.previousSiblings := ["DIV"] |};
   {| Selector.nodeName := "BODY"; Selector.id := "";
      Selector.previousSiblings := ["HEAD"] |}].

(** A page whose beacon refuses what it is given, and whose [fetch]
    would succeed. *)
Definition page_with_full_beacon : Delivery.Transport :=
  {| Delivery.navigator_declared := true;
     Delivery.sendBeacon := Delivery.BeaconReturns false;
     Delivery.stringify_ok := true;
     Delivery.fetch := Delivery.CallReturns Delivery.Fulfilled |}.

Definition code_edit_envelope : Delivery.Envelope unit :=
  {| Delivery.participant_id := Js.Str "p1";
     Delivery.event_type := "code_edit";
     Delivery.event_data := tt;
     Delivery.timestamp := 7 |}.

End Fixtures.

(** ** Proof steps used throughout *)

(** Comparisons on numbers, turned into facts for [lia]. *)
Ltac compare :=
  repeat match goal with
    | |- context [?a >=? ?b] => rewrite (Z.geb_leb a b)
    | |- context [?a >? ?b] => rewrite (Z.gtb_ltb a b)
    | |- context [?a <=? ?b] => destruct (Z.leb_spec a b)
    | |- context [?a <? ?b] => destruct (Z.ltb_spec a b)
    | |- context [?a =? ?b] => destruct (Z.eqb_spec a b)
    end.

(** Closed arithmetic facts, by evaluation. *)
Ltac evaluate := vm_compute; first [reflexivity | congruence].

(** * Properties *)

Import Fixtures.

(** ** Delivery *)

Section DeliveryFacts.

Import Delivery.

Context {D : Type}.

Implicit Types (w : Transport) (i : Identity) (p : Envelope D).

Lemma resolve_participant_truthy i :
  Js.truthy (resolve_participant i) = negb (no_identity i).
Proof.
  unfold resolve_participant, no_identity, yields.
  destruct (getParticipantId i) as [| |v]; simpl.
  - destruct (Js.truthy (window_participantId i)) eqn:E; simpl; [exact E|reflexivity].
  - destruct (Js.truthy (window_participantId i)) eqn:E; simpl; [exact E|reflexivity].
  - destruct (Js.truthy v) eqn:Ev; simpl; [exact Ev|].
    destruct (Js.truthy (window_participantId i)) eqn:E; simpl; [exact E|exact Ev].
Qed.

Lemma truthy_not_null (v : Js.value) : Js.truthy v = true -> v <> Js.Null.
Proof. intros H ->. discriminate H. Qed.

(** C1. [logEvent] without a resolvable participant id logs one warning
    and returns: the result is the same whatever [_sendPayload] is, so no
    envelope is built and nothing reaches the delivery layer; nothing is
    kept for later, the method having no state to keep it in.  With an
    identity, [_sendPayload] receives exactly one envelope, whose
    [participant_id] is truthy, hence not null. *)
Theorem logEvent_requires_identity
    (send : Envelope D -> M D unit) i (now : Z) (eventType : string) (eventData : D) :
  (no_identity i = true ->
   logEvent send i now eventType eventData
   = ([ConsoleWarn (NoParticipantId eventType)], Normal tt))
  /\ (no_identity i = false ->
      exists p,
        logEvent send i now eventType eventData = send p
        /\ participant_id p <> Js.Null
        /\ Js.truthy (participant_id p) = true
        /\ event_type p = eventType
        /\ event_data p = eventData
        /\ timestamp p = now).
Proof.
  unfold logEvent. rewrite resolve_participant_truthy, negb_involutive.
  split; intros H; rewrite H.
  - reflexivity.
  - eexists. split; [reflexivity|]. simpl.
    assert (T : Js.truthy (resolve_participant i) = true)
      by (rewrite resolve_participant_truthy, H; reflexivity).
    repeat split; auto using truthy_not_null.
Qed.

(** Every run of the beacon-or-fetch sender returns normally. *)
Lemma beacon_or_fetch_returns w target cred p :
  snd (beacon_or_fetch w target cred p) = Normal tt.
Proof.
  unfold beacon_or_fetch, stringify.
  destruct (navigator_declared w), (sendBeacon w), (stringify_ok w),
    (fetch w) as [|[|]]; reflexivity.
Qed.

(** It calls a transport at most once. *)
Lemma beacon_or_fetch_at_most_once w target cred p :
  (length (filter (fun e => is_transport e = true) (fst (beacon_or_fetch w target cred p)))
   <= 1)%nat.
Proof.
  unfold beacon_or_fetch, stringify.
  destruct (navigator_declared w), (sendBeacon w), (stringify_ok w),
    (fetch w) as [|[|]]; vm_compute; lia.
Qed.

(** A failure that shows as an exception or as a rejected promise leaves
    exactly one warning in the trace. *)
Lemma beacon_or_fetch_logs_failure w target cred p :
  length (filter (fun e => is_warning e = true) (fst (beacon_or_fetch w target cred p)))
  = if transport_fails w then 1%nat else 0%nat.
Proof.
  unfold beacon_or_fetch, stringify, transport_fails.
  destruct (navigator_declared w), (sendBeacon w), (stringify_ok w),
    (fetch w) as [|[|]]; reflexivity.
Qed.

(** A beacon that declines the payload ([sendBeacon] returns false) is not
    a failure the caller can see: the return value is dropped. *)
Lemma beacon_refusal_is_silent w target cred p :
  navigator_declared w = true -> sendBeacon w = BeaconReturns false ->
  stringify_ok w = true ->
  beacon_or_fetch w target cred p = ([SendBeacon target "application/json" p], Normal tt).
Proof.
  intros Hn Hb Hs. unfold beacon_or_fetch, stringify. rewrite Hn, Hb, Hs. reflexivity.
Qed.

(** What reaches a transport is the envelope that was handed over. *)
Lemma beacon_or_fetch_carries w target cred p e b :
  In e (fst (beacon_or_fetch w target cred p)) -> carried e = Some b -> b = p.
Proof.
  unfold beacon_or_fetch, stringify.
  destruct (navigator_declared w), (sendBeacon w), (stringify_ok w),
    (fetch w) as [|[|]]; cbn; intros Hin Hc;
    repeat (destruct Hin as [<-|Hin]; [cbn in Hc; congruence|]); destruct Hin.
Qed.

(** On the wire: whatever [logEvent] sends through the beacon-or-fetch
    sender carries a participant id that is not null. *)
Lemma logEvent_wire_identity w target cred i (now : Z) (eventType : string)
    (eventData : D) e b :
  In e (fst (logEvent (beacon_or_fetch w target cred) i now eventType eventData)) ->
  carried e = Some b ->
  participant_id b <> Js.Null.
Proof.
  unfold logEvent. destruct (Js.truthy (resolve_participant i)) eqn:T; cbn [negb].
  - intros Hin Hc. rewrite (beacon_or_fetch_carries _ _ _ _ _ _ Hin Hc). cbn.
    apply truthy_not_null. exact T.
  - intros [<-|[]] Hc. discriminate Hc.
Qed.

(** Without the beacon, the request of the [credentials: 'omit'] revision. *)
Lemma sendPayload_omit_request w endpoint p :
  navigator_declared w = true -> sendBeacon w = BeaconAbsent -> stringify_ok w = true ->
  hd_error (fst (_sendPayload_omit w endpoint p))
  = Some (Fetch {| url := endpoint; method := "POST";
                   headers := [("Content-Type", "application/json")];
                   body := p; keepalive := true; credentials := Some "omit" |}).
Proof.
  intros Hn Hb Hs. unfold _sendPayload_omit, beacon_or_fetch, stringify.
  rewrite Hn, Hb, Hs. destruct (fetch w) as [|[|]]; reflexivity.
Qed.

(** C2. Without the beacon, the revision with the hard-coded endpoint
    posts with keep-alive and the JSON content type, but its options have
    no [credentials] key, so the request is not explicitly without
    credentials; it still returns normally and calls [fetch] once. *)
Theorem sendPayload_fixed_url_credentials_unset w p :
  navigator_declared w = true -> sendBeacon w = BeaconAbsent -> stringify_ok w = true ->
  exists r,
    filter (fun e => is_transport e = true) (fst (_sendPayload_fixed_url w p)) = [Fetch r]
    /\ method r = "POST"
    /\ keepalive r = true
    /\ headers r = [("Content-Type", "application/json")]
    /\ body r = p
    /\ credentials r = None
    /\ snd (_sendPayload_fixed_url w p) = Normal tt.
Proof.
  intros Hn Hb Hs. unfold _sendPayload_fixed_url, beacon_or_fetch, stringify.
  rewrite Hn, Hb, Hs. eexists.
  destruct (fetch w) as [|[|]]; simpl; repeat split; reflexivity.
Qed.

End DeliveryFacts.

Lemma logEvent_requires_identity_witness :
  Delivery.logEvent (Delivery._sendPayload_omit page_without_beacon "/log")
    {| Delivery.getParticipantId := Delivery.Throws;
       Delivery.window_participantId := Js.Str "" |} 7 "code_edit" tt
  = ([Delivery.ConsoleWarn (Delivery.NoParticipantId "code_edit")], Delivery.Normal tt).
Proof.
  apply (proj1 (logEvent_requires_identity
                  (Delivery._sendPayload_omit page_without_beacon "/log")
                  {| Delivery.getParticipantId := Delivery.Throws;
                     Delivery.window_participantId := Js.Str "" |}
                  7 "code_edit" tt)).
  reflexivity.
Defined.

Lemma sendPayload_fixed_url_credentials_unset_witness :
  exists r : Delivery.Request unit,
    filter (fun e => Delivery.is_transport e = true)
      (fst (Delivery._sendPayload_fixed_url page_without_beacon
              {| Delivery.participant_id := Js.Str "p1";
                 Delivery.event_type := "code_edit";
                 Delivery.event_data := tt;
                 Delivery.timestamp := 7 |}))
    = [Delivery.Fetch r]
    /\ Delivery.credentials r = None.
Proof.
  destruct (sendPayload_fixed_url_credentials_unset page_without_beacon
              {| Delivery.participant_id := Js.Str "p1";
                 Delivery.event_type := "code_edit";
                 Delivery.event_data := tt;
                 Delivery.timestamp := 7 |} eq_refl eq_refl eq_refl)
    as (r & Hr & _ & _ & _ & _ & Hc & _).
  exists r. split; [exact Hr|exact Hc].
Defined.

(** ** The edit-cycle analyser *)

Section EditCycleFacts.

Import EditCycle.

Implicit Types (t : Tracker) (state : EditorState) (drawn : Template).

Lemma len_app {A} (a b : list A) : len (a ++ b) = len a + len b.
Proof. unfold len. rewrite length_app. lia. Qed.

Lemma len_nonneg {A} (a : list A) : 0 <= len a.
Proof. unfold len. lia. Qed.

Lemma triggerProblemHint_history t now drawn e c ts :
  significantEdits (_triggerProblemHint t now drawn e c ts).1 = significantEdits t
  /\ problemEvents (_triggerProblemHint t now drawn e c ts).1 = problemEvents t
  /\ codeMonitoringConfig (_triggerProblemHint t now drawn e c ts).1 = codeMonitoringConfig t.
Proof. unfold _triggerProblemHint. compare; auto. Qed.

Lemma triggerProblemHint_outputs t now drawn e c ts :
  (_triggerProblemHint t now drawn e c ts).2 = []
  \/ exists d, (_triggerProblemHint t now drawn e c ts).2 = [DispatchEvent "problemHintNeeded" d].
Proof. unfold _triggerProblemHint. compare; simpl; eauto. Qed.

(** What [_recordProblemEvent] does: one more problem on the list, perhaps
    a hint for the page, and one [coding_problem] event of its own. *)
Lemma recordProblemEvent_spec t now drawn e c ts :
  let pe := {| problem_editor := e; problem_timestamp := ts;
               problem_consecutiveEdits := c;
               severity := _calculateProblemSeverity c |} in
  let r := _recordProblemEvent t now drawn e c ts in
  significantEdits r.1 = significantEdits t
  /\ codeMonitoringConfig r.1 = codeMonitoringConfig t
  /\ problemEvents r.1 = problemEvents t ++ [pe]
  /\ exists hint,
       (hint = [] \/ exists d, hint = [DispatchEvent "problemHintNeeded" d])
       /\ r.2 = hint ++ [LogEvent "coding_problem" (CodingProblemData e c (_calculateProblemSeverity c) ts)].
Proof.
  intros pe r. subst r. unfold _recordProblemEvent. fold pe.
  set (t1 := set_problemEvents (problemEvents t ++ [pe]) t).
  destruct (c >=? hintThreshold (hintConfig t1)).
  - destruct (triggerProblemHint_history t1 now drawn e c ts) as (H1 & H2 & H3).
    destruct (_triggerProblemHint t1 now drawn e c ts) as [t2 hint] eqn:E.
    pose proof (triggerProblemHint_outputs t1 now drawn e c ts) as Ho.
    rewrite E in Ho. simpl in *.
    repeat split; try assumption. exists hint. split; [exact Ho|reflexivity].
  - simpl. repeat split. exists []. split; [now left|reflexivity].
Qed.

Lemma calculateProblemSeverity_table (c : Z) :
  (c < 5 -> _calculateProblemSeverity c = low)
  /\ (5 <= c < 10 -> _calculateProblemSeverity c = medium)
  /\ (10 <= c -> _calculateProblemSeverity c = high).
Proof. unfold _calculateProblemSeverity. compare; repeat split; intros; (reflexivity || lia). Qed.

Lemma problem_step_history t now drawn e c ts :
  significantEdits (problem_step t now drawn e c ts).1 = significantEdits t.
Proof.
  unfold problem_step. destruct (c >=? _); [|reflexivity].
  apply (recordProblemEvent_spec t now drawn e c ts).
Qed.

Lemma problem_step_config t now drawn e c ts :
  codeMonitoringConfig (problem_step t now drawn e c ts).1 = codeMonitoringConfig t.
Proof.
  unfold problem_step. destruct (c >=? _); [|reflexivity].
  apply (recordProblemEvent_spec t now drawn e c ts).
Qed.

Lemma completeEditCycle_unrecorded t now drawn e state ts fl :
  Z.abs (fl - deleteStartLength state) < minChangeThreshold (codeMonitoringConfig t) ->
  _completeEditCycle t now drawn e state ts fl = (t, reset_cycle state, []).
Proof.
  intros H. unfold _completeEditCycle. rewrite Z.geb_leb.
  destruct (Z.leb_spec (minChangeThreshold (codeMonitoringConfig t))
              (Z.abs (fl - deleteStartLength state))); [lia|reflexivity].
Qed.

Lemma set_significantEdits_twice t (a b : list EditRecord) :
  set_significantEdits a (set_significantEdits b t) = set_significantEdits a t.
Proof. reflexivity. Qed.

Lemma completeEditCycle_recorded t now drawn e state ts fl :
  Z.abs (fl - deleteStartLength state) >= minChangeThreshold (codeMonitoringConfig t) ->
  _completeEditCycle t now drawn e state ts fl
  = let t1 := set_significantEdits
                (pushed (codeMonitoringConfig t) (significantEdits t)
                   (cycle_record e state ts fl)) t in
    let r := problem_step t1 now drawn e (consecutiveEdits state) ts in
    (r.1, reset_cycle state, r.2 ++ batch_step r.1 now (consecutiveEdits state)).
Proof.
  intros H. unfold _completeEditCycle. rewrite (Z.geb_leb (Z.abs _)).
  destruct (Z.leb_spec (minChangeThreshold (codeMonitoringConfig t))
              (Z.abs (fl - deleteStartLength state))); [|lia].
  fold (cycle_record e state ts fl).
  set (h := significantEdits t ++ [cycle_record e state ts fl]).
  cbn [significantEdits set_significantEdits].
  assert (Ht : (if len h >? maxHistoryLength (codeMonitoringConfig t)
                then set_significantEdits (shift h) (set_significantEdits h t)
                else set_significantEdits h t)
               = set_significantEdits
                   (pushed (codeMonitoringConfig t) (significantEdits t)
                      (cycle_record e state ts fl)) t).
  { unfold pushed. fold h. destruct (len h >? _); reflexivity. }
  rewrite Ht. clear Ht. cbv zeta.
  set (t1 := set_significantEdits _ t).
  unfold batch_step. rewrite problem_step_config. unfold problem_step.
  change (codeMonitoringConfig t1) with (codeMonitoringConfig t).
  destruct (consecutiveEdits state >=? _).
  - destruct (_recordProblemEvent t1 now drawn e (consecutiveEdits state) ts).
    reflexivity.
  - reflexivity.
Qed.

(** C3. When a cycle completes below the change threshold the history is
    left as it was and nothing is emitted; at or above the threshold
    exactly one record, of type [edit_cycle], is pushed on the history
    (after which the oldest record is evicted if the history overflows). *)
Theorem completeEditCycle_records_by_threshold
    t now drawn (editorType : string) state (timestamp finalLength : Z) :
  let cfg := codeMonitoringConfig t in
  let netChange := finalLength - deleteStartLength state in
  let r := _completeEditCycle t now drawn editorType state timestamp finalLength in
  (Z.abs netChange < minChangeThreshold cfg ->
   significantEdits r.1.1 = significantEdits t /\ r.2 = [])
  /\ (Z.abs netChange >= minChangeThreshold cfg ->
      record_type (cycle_record editorType state timestamp finalLength) = "edit_cycle"
      /\ significantEdits r.1.1
         = pushed cfg (significantEdits t)
             (cycle_record editorType state timestamp finalLength)
      /\ (len (significantEdits t) < maxHistoryLength cfg ->
          significantEdits r.1.1
          = significantEdits t ++ [cycle_record editorType state timestamp finalLength])).
Proof.
  intros cfg netChange r. subst r cfg netChange. split.
  - intros Hlt. rewrite completeEditCycle_unrecorded by exact Hlt. split; reflexivity.
  - intros Hge. rewrite completeEditCycle_recorded by exact Hge. simpl.
    split; [reflexivity|].
    rewrite problem_step_history. split; [reflexivity|].
    intros Hroom. unfold pushed. rewrite len_app, Z.gtb_ltb. change (len [_]) with 1.
    destruct (Z.ltb_spec (maxHistoryLength (codeMonitoringConfig t))
                (len (significantEdits t) + 1)); [lia|reflexivity].
Qed.

Lemma submitSignificantEdits_logged t now :
  List.filter (logged "coding_problem") (_submitSignificantEdits t now) = [].
Proof. unfold _submitSignificantEdits. destruct (len _ =? 0); reflexivity. Qed.

(** C4 (amended). When a cycle completes with a net change of at least
    [minChangeThreshold] and with [consecutiveEdits] at or above
    [problemDetectionThreshold], one problem is added to [problemEvents]
    and handed to [logEvent] at once as a [coding_problem] event of its
    own, ahead of the batch of significant edits; its severity is a
    function of the count alone: low below 5, medium from 5 to 9, high
    from 10. *)
Theorem completeEditCycle_problem_event
    t now drawn (editorType : string) state (timestamp finalLength : Z) :
  let cfg := codeMonitoringConfig t in
  let c := consecutiveEdits state in
  let r := _completeEditCycle t now drawn editorType state timestamp finalLength in
  let event := LogEvent "coding_problem"
                 (CodingProblemData editorType c (_calculateProblemSeverity c) timestamp) in
  Z.abs (finalLength - deleteStartLength state) >= minChangeThreshold cfg ->
  c >= problemDetectionThreshold cfg ->
  problemEvents r.1.1
  = problemEvents t ++ [{| problem_editor := editorType;
                           problem_timestamp := timestamp;
                           problem_consecutiveEdits := c;
                           severity := _calculateProblemSeverity c |}]
  /\ (exists hint,
        (hint = [] \/ exists d, hint = [DispatchEvent "problemHintNeeded" d])
        /\ r.2 = hint ++ event :: _submitSignificantEdits r.1.1 now)
  /\ List.filter (logged "coding_problem") r.2 = [event]
  /\ (c < 5 -> _calculateProblemSeverity c = low)
  /\ (5 <= c < 10 -> _calculateProblemSeverity c = medium)
  /\ (10 <= c -> _calculateProblemSeverity c = high).
Proof.
  intros cfg c r event Hnet Hc. subst r cfg.
  rewrite completeEditCycle_recorded by exact Hnet. cbv zeta.
  set (t1 := set_significantEdits _ t).
  assert (Hp : problem_step t1 now drawn editorType c timestamp
               = _recordProblemEvent t1 now drawn editorType c timestamp).
  { unfold problem_step. change (codeMonitoringConfig t1) with (codeMonitoringConfig t).
    rewrite Z.geb_leb.
    destruct (Z.leb_spec (problemDetectionThreshold (codeMonitoringConfig t)) c);
      [reflexivity|lia]. }
  fold c. rewrite Hp.
  destruct (recordProblemEvent_spec t1 now drawn editorType c timestamp)
    as (Hh & Hcfg & Hpe & hint & Hhint & Hout).
  cbn [fst snd].
  assert (Hb : batch_step (_recordProblemEvent t1 now drawn editorType c timestamp).1 now c
               = _submitSignificantEdits
                   (_recordProblemEvent t1 now drawn editorType c timestamp).1 now).
  { unfold batch_step. rewrite Hcfg. change (codeMonitoringConfig t1) with (codeMonitoringConfig t).
    rewrite (Z.geb_leb c).
    destruct (Z.leb_spec (problemDetectionThreshold (codeMonitoringConfig t)) c); [|lia].
    rewrite orb_true_r. reflexivity. }
  rewrite Hb, Hout. split; [exact Hpe|]. split.
  - exists hint. split; [exact Hhint|]. rewrite <- app_assoc. reflexivity.
  - split; [|apply calculateProblemSeverity_table].
    rewrite !List.filter_app, submitSignificantEdits_logged, app_nil_r.
    destruct Hhint as [->|[d ->]]; reflexivity.
Qed.

(** C4, as stated, fails: the count is at the threshold, the net change is
    below [minChangeThreshold], and no problem is reported. *)
Lemma problem_event_without_record_counterexample :
  ~ (forall t now drawn (editorType : string) state (timestamp finalLength : Z),
       consecutiveEdits state >= problemDetectionThreshold (codeMonitoringConfig t) ->
       exists d,
         In (LogEvent "coding_problem" d)
           (_completeEditCycle t now drawn editorType state timestamp finalLength).2).
Proof.
  intros H.
  destruct (H newTracker 11500 template0 "js" struggling 11500 105) as [d Hd].
  - vm_compute. discriminate.
  - vm_compute in Hd. exact Hd.
Qed.

(** The state of that counterexample arises from typing: the fourth signal
    of [retype_five] completes a cycle begun with a count of 3 and nothing
    is reported. *)
Lemma retype_five_reports_nothing :
  exists t3 o3 state,
    run newTracker (take 3 retype_five) = Some (t3, o3)
    /\ codeMonitorStates t3 !! "js" = Some state
    /\ isDeleting state = true
    /\ consecutiveEdits state = 3
    /\ snd <$> _smartRecordCodeChange t3 11500 template0 "js" (text_of_length 105)
       = Some [].
Proof.
  destruct (run newTracker (take 3 retype_five)) as [[t3 o3]|] eqn:E;
    [|vm_compute in E; discriminate].
  exists t3, o3.
  assert (Some (t3, o3) = run newTracker (take 3 retype_five)) as Ht by (symmetry; exact E).
  vm_compute in Ht. injection Ht as -> ->.
  eexists. split; [reflexivity|]. split; [vm_compute; reflexivity|].
  split; [reflexivity|]. split; [reflexivity|]. vm_compute. reflexivity.
Qed.

(** *** The surface state across signals *)

Lemma recordProblemEvent_states t now drawn e c ts :
  codeMonitorStates (_recordProblemEvent t now drawn e c ts).1 = codeMonitorStates t.
Proof.
  unfold _recordProblemEvent, _triggerProblemHint. cbn [hintConfig set_problemEvents].
  destruct (c >=? _); [destruct (_ <? _)|]; reflexivity.
Qed.

Lemma completeEditCycle_state t now drawn e state ts fl :
  (_completeEditCycle t now drawn e state ts fl).1.2 = reset_cycle state.
Proof.
  destruct (Z.lt_ge_cases (Z.abs (fl - deleteStartLength state))
              (minChangeThreshold (codeMonitoringConfig t))) as [H|H].
  - rewrite completeEditCycle_unrecorded by exact H. reflexivity.
  - rewrite completeEditCycle_recorded by lia. reflexivity.
Qed.

Lemma completeEditCycle_states t now drawn e state ts fl :
  codeMonitorStates (_completeEditCycle t now drawn e state ts fl).1.1
  = codeMonitorStates t.
Proof.
  destruct (Z.lt_ge_cases (Z.abs (fl - deleteStartLength state))
              (minChangeThreshold (codeMonitoringConfig t))) as [H|H].
  - rewrite completeEditCycle_unrecorded by exact H. reflexivity.
  - rewrite completeEditCycle_recorded by lia. cbv zeta. cbn [fst].
    unfold problem_step. destruct (_ >=? _); [|reflexivity].
    rewrite recordProblemEvent_states. reflexivity.
Qed.

Lemma recordMeaningfulEdit_states t now e ty ca cl ts :
  codeMonitorStates (_recordMeaningfulEdit t now e ty ca cl ts).1 = codeMonitorStates t.
Proof.
  unfold _recordMeaningfulEdit. cbv zeta. cbn [fst].
  destruct (_ >? _); reflexivity.
Qed.

Lemma handleAddition_state t now drawn e state lc cl ts tsl :
  (_handleAddition t now drawn e state lc cl ts tsl).1.2
  = count_addition (if isDeleting state then reset_cycle state else state) ts
  /\ codeMonitorStates (_handleAddition t now drawn e state lc cl ts tsl).1.1
     = codeMonitorStates t.
Proof.
  unfold _handleAddition. destruct (isDeleting state).
  - pose proof (completeEditCycle_state t now drawn e state ts cl) as Hs.
    pose proof (completeEditCycle_states t now drawn e state ts cl) as Hm.
    destruct (_completeEditCycle t now drawn e state ts cl) as [[t' st'] o].
    simpl in *. subst st'. split; [reflexivity|exact Hm].
  - destruct (_ && _).
    + pose proof (recordMeaningfulEdit_states t now e "addition" lc cl ts) as Hm.
      destruct (_recordMeaningfulEdit t now e "addition" lc cl ts) as [t' o].
      simpl in *. split; [reflexivity|exact Hm].
    + split; reflexivity.
Qed.

(** One signal for a known surface: the call returns, only that surface's
    state is replaced, and the counter moves as [next_view] says. *)
Lemma smartRecordCodeChange_view t now drawn e (c : Text.text) state :
  codeMonitorStates t !! e = Some state ->
  exists t' o state',
    _smartRecordCodeChange t now drawn e c = Some (t', o)
    /\ codeMonitorStates t' = <[e := state']> (codeMonitorStates t)
    /\ counter_view state' = next_view (counter_view state) (Text.length c).
Proof.
  intros Hl. unfold _smartRecordCodeChange. rewrite Hl.
  unfold counter_view, next_view.
  destruct (Text.length c - lastLength state <? 0) eqn:Hneg.
  - eexists _, _, _. split; [reflexivity|]. split; [reflexivity|].
    unfold _handleDeletion, buffer_edit, set_last. cbn.
    destruct (isDeleting state) eqn:Hd; cbn; rewrite ?Hd; reflexivity.
  - destruct (Text.length c - lastLength state >? 0) eqn:Hpos.
    + set (st1 := set_last state c (Text.length c)).
      destruct (handleAddition_state t now drawn e st1 (Text.length c - lastLength state)
                  (Text.length c) now (now - lastMeaningfulEdit st1)) as [Hs Hm].
      destruct (_handleAddition t now drawn e st1 _ _ now _) as [[t' st'] o].
      simpl in Hs, Hm. subst st'.
      eexists _, _, _. split; [reflexivity|]. split.
      * cbn [codeMonitorStates set_codeMonitorStates]. rewrite Hm. reflexivity.
      * subst st1. unfold buffer_edit, count_addition, reset_cycle, set_last. cbn.
        destruct (isDeleting state) eqn:Hd; cbn; rewrite ?Hd; reflexivity.
    + eexists _, _, _. split; [reflexivity|]. split; reflexivity.
Qed.

(** A signal for another surface leaves this one alone. *)
Lemma smartRecordCodeChange_other t now drawn e e' (c : Text.text) t' o :
  e' <> e ->
  _smartRecordCodeChange t now drawn e' c = Some (t', o) ->
  codeMonitorStates t' !! e = codeMonitorStates t !! e.
Proof.
  intros Hne Hr.
  destruct (codeMonitorStates t !! e') as [state|] eqn:Hl.
  - destruct (smartRecordCodeChange_view t now drawn e' c state Hl)
      as (t1 & o1 & st1 & Hr1 & Hm & _).
    rewrite Hr in Hr1. injection Hr1 as <- <-.
    rewrite Hm. apply lookup_insert_ne. exact Hne.
  - unfold _smartRecordCodeChange in Hr. rewrite Hl in Hr. discriminate Hr.
Qed.

Lemma run_view t e state signals t' o :
  codeMonitorStates t !! e = Some state ->
  run t signals = Some (t', o) ->
  exists state',
    codeMonitorStates t' !! e = Some state'
    /\ counter_view state' = view_after (counter_view state) e signals.
Proof.
  revert t state t' o.
  induction signals as [|s rest IH]; intros t state t' o Hl Hr.
  - injection Hr as <- <-. exists state. split; [exact Hl|reflexivity].
  - cbn [run] in Hr.
    destruct (_smartRecordCodeChange t (at_time s) (drawn s) (surface s) (content s))
      as [[t1 o1]|] eqn:Hs; [|discriminate Hr].
    destruct (run t1 rest) as [[t2 o2]|] eqn:Hrest; [|discriminate Hr].
    injection Hr as <- <-. cbn [view_after].
    destruct (String.eqb_spec (surface s) e) as [He|Hne].
    + destruct (smartRecordCodeChange_view t (at_time s) (drawn s) (surface s)
                  (content s) state) as (t1' & o1' & st1 & Hs' & Hm & Hv).
      { rewrite He. exact Hl. }
      rewrite Hs in Hs'. injection Hs' as <- <-.
      destruct (IH t1 st1 t2 o2) as (st2 & Hl2 & Hv2).
      { rewrite Hm, He. apply lookup_insert_eq. }
      { exact Hrest. }
      exists st2. split; [exact Hl2|]. rewrite Hv2, Hv. reflexivity.
    + destruct (IH t1 state t2 o2) as (st2 & Hl2 & Hv2).
      { rewrite (smartRecordCodeChange_other t _ _ e (surface s) _ t1 o1 Hne Hs).
        exact Hl. }
      { exact Hrest. }
      exists st2. split; [exact Hl2|exact Hv2].
Qed.

(** C10. [_completeEditCycle] always leaves the surface with
    [isDeleting = false], [deleteStartTime = 0], [deleteStartLength = 0]
    and [consecutiveEdits = 0], whether or not the cycle was recorded.
    Hence, after the addition [s] that completes a cycle, the counter of
    the surface is a function of [s] and of the signals that follow it
    alone: it restarts from the state of length [s], not deleting, count
    1 (the completing addition is counted after the reset), whatever
    the count was before. *)
Theorem completeEditCycle_resets_surface
    t now drawn (editorType : string) state (timestamp finalLength : Z) :
  let r := _completeEditCycle t now drawn editorType state timestamp finalLength in
  (isDeleting r.1.2 = false
   /\ deleteStartTime r.1.2 = 0
   /\ deleteStartLength r.1.2 = 0
   /\ consecutiveEdits r.1.2 = 0)
  /\ (forall s rest t' o,
        codeMonitorStates t !! editorType = Some state ->
        isDeleting state = true ->
        surface s = editorType ->
        lastLength state < Text.length (content s) ->
        run t (s :: rest) = Some (t', o) ->
        exists state',
          codeMonitorStates t' !! editorType = Some state'
          /\ counter_view state'
             = view_after (Text.length (content s), false, 1) editorType rest).
Proof.
  intros r. subst r. rewrite completeEditCycle_state. split.
  - repeat split.
  - intros s rest t' o Hl Hd Hs Hlen Hr.
    destruct (run_view t editorType state (s :: rest) t' o Hl Hr) as (st' & Hl' & Hv).
    exists st'. split; [exact Hl'|]. rewrite Hv. cbn [view_after].
    rewrite Hs, String.eqb_refl. f_equal.
    unfold counter_view, next_view. rewrite Hd.
    destruct (Z.ltb_spec (Text.length (content s) - lastLength state) 0); [lia|].
    rewrite Z.gtb_ltb.
    destruct (Z.ltb_spec 0 (Text.length (content s) - lastLength state)); [|lia].
    reflexivity.
Qed.

(** *** Submission of significant edits *)

Lemma slice_last5_length {A} (a : list A) :
  5 <= len a -> len (slice_last5 a) = 5.
Proof. unfold len, slice_last5. rewrite length_drop. lia. Qed.

Lemma submitSignificantEdits_batch t now :
  List.filter (logged "significant_edits") (_submitSignificantEdits t now)
  = _submitSignificantEdits t now.
Proof. unfold _submitSignificantEdits. destruct (len _ =? 0); reflexivity. Qed.

Lemma problem_step_no_batch t now drawn e c ts :
  List.filter (logged "significant_edits") (problem_step t now drawn e c ts).2 = [].
Proof.
  unfold problem_step. destruct (c >=? _); [|reflexivity].
  destruct (recordProblemEvent_spec t now drawn e c ts) as (_ & _ & _ & hint & Hh & ->).
  rewrite List.filter_app. destruct Hh as [->|[d ->]]; reflexivity.
Qed.

(** C7 (amended). The tracker keeps no account of what has been sent.
    [_recordMeaningfulEdit] pushes the addition on the history; an
    addition of at least 50 units is uploaded at once as a
    [large_addition] event of its own and triggers no batch; a smaller one
    submits the last five records of the history exactly when the length
    of the history after the push is a multiple of 5.  A recorded edit
    cycle submits the last (at most five) records whenever the history
    holds at least 5 records or the problem threshold is reached. *)
Theorem recordMeaningfulEdit_submission
    t now (editorType editType : string) (changeAmount currentLength timestamp : Z) :
  let rec := {| addition_type := editType;
                addition_editor := editorType;
                addition_timestamp := timestamp;
                changeAmount := changeAmount;
                currentLength := currentLength |} in
  let h := significantEdits t ++ [Added rec] in
  let r := _recordMeaningfulEdit t now editorType editType changeAmount
             currentLength timestamp in
  significantEdits r.1 = pushed (codeMonitoringConfig t) (significantEdits t) (Added rec)
  /\ (changeAmount >= 50 -> r.2 = [LogEvent "large_addition" (LargeAdditionData rec)])
  /\ (changeAmount < 50 -> len h mod 5 = 0 ->
      r.2 = [LogEvent "significant_edits" (SignificantEditsData 5 (slice_last5 h) now)])
  /\ (changeAmount < 50 -> len h mod 5 <> 0 -> r.2 = [])
  /\ (forall drawn state (finalLength : Z),
        Z.abs (finalLength - deleteStartLength state)
        >= minChangeThreshold (codeMonitoringConfig t) ->
        let r' := _completeEditCycle t now drawn editorType state timestamp finalLength in
        List.filter (logged "significant_edits") r'.2
        = if (len (significantEdits r'.1.1) >=? 5)
             || (consecutiveEdits state
                 >=? problemDetectionThreshold (codeMonitoringConfig t))
          then _submitSignificantEdits r'.1.1 now
          else []).
Proof.
  intros rec h r. subst r. unfold _recordMeaningfulEdit. fold rec. cbv zeta.
  cbn [fst snd significantEdits set_significantEdits codeMonitoringConfig]. fold h.
  split; [|split; [|split; [|split]]].
  - unfold pushed. fold h. destruct (len h >? _); reflexivity.
  - intros Hbig. rewrite Z.geb_leb.
    destruct (Z.leb_spec 50 changeAmount); [reflexivity|lia].
  - intros Hsmall Hmod. rewrite Z.geb_leb.
    destruct (Z.leb_spec 50 changeAmount); [lia|].
    rewrite Hmod. cbn [Z.eqb]. unfold _submitSignificantEdits.
    cbn [significantEdits set_significantEdits].
    assert (Hpos : 1 <= len h) by (subst h; rewrite len_app; pose proof (len_nonneg (significantEdits t)); change (len [Added rec]) with 1; lia).
    assert (H5 : 5 <= len h).
    { apply Z.mod_divide in Hmod; [|lia]. destruct Hmod as [k Hk]. lia. }
    destruct (Z.eqb_spec (len h) 0); [lia|].
    rewrite slice_last5_length by exact H5. reflexivity.
  - intros Hsmall Hmod. rewrite Z.geb_leb.
    destruct (Z.leb_spec 50 changeAmount); [lia|].
    destruct (Z.eqb_spec (len h mod 5) 0); [contradiction|reflexivity].
  - intros drawn state finalLength Hnet.
    rewrite completeEditCycle_recorded by exact Hnet. cbv zeta. cbn [fst snd].
    rewrite List.filter_app, problem_step_no_batch. cbn [app].
    unfold batch_step. rewrite problem_step_config.
    cbn [codeMonitoringConfig set_significantEdits].
    destruct (_ || _); [apply submitSignificantEdits_batch|reflexivity].
Qed.

(** C7, as stated, fails.  [PolicySpec.spec_record_all] counts the unsent
    records as the claim words it; on [six_additions] it submits a batch
    with the sixth record (the fifth not yet sent), while the tracker
    submits none, the history being 5 long only when the large addition
    arrives. *)
Lemma unsent_policy_counterexample :
  ~ (forall l,
       (record_all newTracker l).2
       = (PolicySpec.spec_record_all PolicySpec.initial l).2).
Proof.
  intros H. specialize (H six_additions).
  apply (f_equal (fun o => length (List.filter (logged "significant_edits") o))) in H.
  vm_compute in H. discriminate H.
Qed.

(** The calls compared in that counterexample are those made while
    [typing_six] is typed into a new tracker. *)
Lemma typing_six_records_six_additions :
  snd <$> run newTracker typing_six = Some (record_all newTracker six_additions).2.
Proof. vm_compute. reflexivity. Qed.

End EditCycleFacts.

Lemma completeEditCycle_records_by_threshold_witness :
  (EditCycle.significantEdits
     (EditCycle._completeEditCycle EditCycle.newTracker 11500 EditCycle.template0
        "js" struggling 11500 105).1.1 = []
   /\ (EditCycle._completeEditCycle EditCycle.newTracker 11500 EditCycle.template0
         "js" struggling 11500 105).2 = [])
  /\ EditCycle.significantEdits
       (EditCycle._completeEditCycle EditCycle.newTracker 11500 EditCycle.template0
          "js" struggling 11500 120).1.1
     = [EditCycle.cycle_record "js" struggling 11500 120].
Proof.
  split.
  - apply (proj1 (completeEditCycle_records_by_threshold EditCycle.newTracker 11500
                    EditCycle.template0 "js" struggling 11500 105)).
    evaluate.
  - apply (proj2 (completeEditCycle_records_by_threshold EditCycle.newTracker 11500
                    EditCycle.template0 "js" struggling 11500 120)).
    + evaluate.
    + evaluate.
Defined.

Lemma completeEditCycle_problem_event_witness :
  List.filter (EditCycle.logged "coding_problem")
    (EditCycle._completeEditCycle EditCycle.newTracker 11500 EditCycle.template0
       "js" struggling 11500 120).2
  = [EditCycle.LogEvent "coding_problem"
       (EditCycle.CodingProblemData "js" 3 EditCycle.low 11500)].
Proof.
  apply (completeEditCycle_problem_event EditCycle.newTracker 11500
           EditCycle.template0 "js" struggling 11500 120).
  - evaluate.
  - evaluate.
Defined.

Lemma completeEditCycle_resets_surface_witness :
  exists state',
    EditCycle.codeMonitorStates
      (end_of_run tracker_struggling [js_signal 11500 105; js_signal 12000 110]).1
      !! "js" = Some state'
    /\ EditCycle.counter_view state' = (110, false, 2).
Proof.
  apply (proj2 (completeEditCycle_resets_surface tracker_struggling 11500
                  EditCycle.template0 "js" struggling 11500 105)
           (js_signal 11500 105) [js_signal 12000 110]
           (end_of_run tracker_struggling [js_signal 11500 105; js_signal 12000 110]).1
           (end_of_run tracker_struggling [js_signal 11500 105; js_signal 12000 110]).2).
  - vm_compute. reflexivity.
  - reflexivity.
  - reflexivity.
  - vm_compute. reflexivity.
  - vm_compute. reflexivity.
Defined.

Lemma recordMeaningfulEdit_submission_witness :
  (EditCycle._recordMeaningfulEdit EditCycle.newTracker 20000 "js" "addition" 60 60 20000).2
  = [EditCycle.LogEvent "large_addition"
       (EditCycle.LargeAdditionData
          {| EditCycle.addition_type := "addition";
             EditCycle.addition_editor := "js";
             EditCycle.addition_timestamp := 20000;
             EditCycle.changeAmount := 60;
             EditCycle.currentLength := 60 |})]
  /\ (EditCycle._recordMeaningfulEdit EditCycle.newTracker 4000 "js" "addition" 10 10 4000).2
     = []
  /\ length (EditCycle._recordMeaningfulEdit tracker_four_edits 20000 "js" "addition"
               10 50 20000).2 = 1%nat
  /\ List.filter (EditCycle.logged "significant_edits")
       (EditCycle._completeEditCycle EditCycle.newTracker 11500 EditCycle.template0
          "js" struggling 11500 120).2
     = [EditCycle.LogEvent "significant_edits"
          (EditCycle.SignificantEditsData 1
             [EditCycle.cycle_record "js" struggling 11500 120] 11500)].
Proof.
  split; [|split; [|split]].
  - apply (recordMeaningfulEdit_submission EditCycle.newTracker 20000 "js" "addition"
             60 60 20000).
    evaluate.
  - apply (recordMeaningfulEdit_submission EditCycle.newTracker 4000 "js" "addition"
             10 10 4000).
    + evaluate.
    + evaluate.
  - destruct (recordMeaningfulEdit_submission tracker_four_edits 20000 "js" "addition"
                10 50 20000) as (_ & _ & H & _).
    rewrite H.
    + reflexivity.
    + evaluate.
    + vm_compute. reflexivity.
  - destruct (recordMeaningfulEdit_submission EditCycle.newTracker 11500 "js" "addition"
                10 10 11500) as (_ & _ & _ & _ & H).
    rewrite (H EditCycle.template0 struggling 120).
    + vm_compute. reflexivity.
    + evaluate.
Defined.

(** ** Click records *)

Section ClickRecordFacts.

Import ClickRecord.

Lemma slice0_take (s : Text.text) (n : Z) :
  0 <= n -> Text.length s > n -> slice0 s n = take (Z.to_nat n) s.
Proof.
  intros Hn Hl. unfold slice0.
  destruct (Z.ltb_spec n 0); [lia|]. rewrite Z.min_l by lia. reflexivity.
Qed.

(** Away from password and file inputs the content is the normalised text
    cut to [maxLen] units, or null when that is empty. *)
Lemma getInteractiveContent_spec (el : Element) (maxLen : Z) :
  0 <= maxLen ->
  _getInteractiveContent el maxLen
  = if is_secret_input el then None
    else match take (Z.to_nat maxLen) (normalised el) with
         | [] => None
         | c => Some c
         end.
Proof.
  intros Hn. unfold _getInteractiveContent, is_secret_input.
  destruct (_ && _); [reflexivity|].
  set (n := collapse false _). change (normalised el) with n.
  rewrite Z.gtb_ltb.
  destruct (Z.ltb_spec maxLen (Text.length n)) as [Hlong|Hshort].
  - rewrite slice0_take by lia.
    destruct (take (Z.to_nat maxLen) n); reflexivity.
  - rewrite take_ge by (unfold Text.length in Hshort; lia).
    destruct n; reflexivity.
Qed.

(** C8. In the record built for a click: [content] is not null only if
    the target is interactive; a password or file input gives
    [content = null]; for a non-negative [includeTextMaxLen] a stored
    content is the normalised text of the element cut to at most that many
    units; and [content_len] is the length of the stored content, 0 when
    it is null. *)
Theorem buildClickRecord_content (now : Z) (target : Element) (maxLen : Z) :
  let r := _buildClickRecord now target maxLen in
  (content r <> None -> interactive r = true /\ _isInteractive target = true)
  /\ (toLowerCase (tagName target) = "input" ->
      type target = "password" \/ type target = "file" ->
      content r = None)
  /\ (0 <= maxLen ->
      forall c, content r = Some c ->
        c = take (Z.to_nat maxLen) (normalised target)
        /\ 0 < Text.length c <= maxLen)
  /\ content_len r
     = match content r with Some c => Text.length c | None => 0 end.
Proof.
  intros r. subst r. unfold _buildClickRecord. cbn [content interactive content_len].
  split; [|split; [|split]].
  - destruct (_isInteractive target); [split; reflexivity|congruence].
  - intros Htag Hty. destruct (_isInteractive target); [|reflexivity].
    unfold _getInteractiveContent. rewrite Htag. cbn [String.eqb Ascii.eqb Bool.eqb andb].
    destruct Hty as [-> | ->]; reflexivity.
  - intros Hn c. destruct (_isInteractive target); [|discriminate].
    rewrite getInteractiveContent_spec by exact Hn.
    destruct (is_secret_input target); [discriminate|].
    destruct (take (Z.to_nat maxLen) (normalised target)) as [|u rest] eqn:E;
      [discriminate|].
    intros [= <-]. split; [reflexivity|].
    rewrite <- E. unfold Text.length. rewrite length_take.
    assert (0 < length (take (Z.to_nat maxLen) (normalised target)))%nat
      by (rewrite E; simpl; lia).
    rewrite length_take in H. lia.
  - destruct (_isInteractive target); [|reflexivity].
    unfold _getInteractiveContent.
    destruct (_ && _); [reflexivity|].
    set (x := if _ >? maxLen then _ else _). destruct x; reflexivity.
Qed.

End ClickRecordFacts.

Lemma buildClickRecord_content_witness :
  ClickRecord.content (ClickRecord._buildClickRecord 7 password_field 120) = None
  /\ (ClickRecord.content (ClickRecord._buildClickRecord 7 labelled_button 8)
      = Some [83; 97; 118; 101; 32; 97; 110; 100]%N
      /\ 0 < Text.length [83; 97; 118; 101; 32; 97; 110; 100]%N <= 8)
  /\ ClickRecord.interactive (ClickRecord._buildClickRecord 7 labelled_button 8) = true.
Proof.
  split; [|split].
  - apply (buildClickRecord_content 7 password_field 120).
    + reflexivity.
    + left. reflexivity.
  - split; [reflexivity|].
    apply (proj1 (proj2 (proj2 (buildClickRecord_content 7 labelled_button 8)))).
    + lia.
    + reflexivity.
  - apply (buildClickRecord_content 7 labelled_button 8).
    vm_compute. discriminate.
Defined.

(** ** The click batch *)

Section ClickBatchFacts.

Import Timers ClickBatch.

Context {R : Type}.

Variable cfg : ClickCfg.
Hypothesis batching : batch cfg = true.

Implicit Types (s : State R) (l : list (Z * R)) (b : list R) (h : timer).

(** A flush detaches the buffer: the state it leaves is empty with no
    timer, and what it sends is the buffer it found. *)
Lemma flushClickBatch_detaches (now : Z) (isFinal : bool) s :
  _clickBatch s <> [] ->
  _flushClickBatch now isFinal s = (initial, _sendClickBatch now (_clickBatch s) isFinal).
Proof.
  intros Hne. unfold _flushClickBatch. destruct (_clickBatch s); [contradiction|reflexivity].
Qed.

Lemma expire_before (now : Z) b h :
  now < due h -> expire now {| _clickBatch := b; _clickBatchTimer := Some h |}
                 = ({| _clickBatch := b; _clickBatchTimer := Some h |}, []).
Proof.
  intros Hlt. unfold expire. cbn [_clickBatchTimer].
  destruct (Z.leb_spec (due h) now); [lia|]. rewrite andb_false_r. reflexivity.
Qed.

Lemma expire_due (now : Z) b h :
  live h = true -> due h <= now -> b <> [] ->
  expire now {| _clickBatch := b; _clickBatchTimer := Some h |}
  = (initial, _sendClickBatch (due h) b false).
Proof.
  intros Hlive Hdue Hne. unfold expire. cbn [_clickBatchTimer _clickBatch].
  rewrite Hlive. destruct (Z.leb_spec (due h) now); [|lia]. cbn [andb].
  apply flushClickBatch_detaches. exact Hne.
Qed.

(** Clicks that come before the timer is due and leave the buffer below
    [maxBatchSize] only grow the buffer. *)
Lemma run_fills l : forall b h,
  Forall (fun c => c.1 < due h) l ->
  Z.of_nat (length b + length l) < maxBatchSize cfg ->
  run cfg (clicks l) {| _clickBatch := b; _clickBatchTimer := Some h |}
  = ({| _clickBatch := b ++ map snd l; _clickBatchTimer := Some h |}, []).
Proof.
  induction l as [|[t r] l IH]; intros b h Hbefore Hroom.
  - cbn. rewrite app_nil_r. reflexivity.
  - inversion Hbefore as [|c l' Ht Hrest]; subst. cbn [fst] in Ht.
    cbn [clicks map run fst snd]. rewrite expire_before by exact Ht.
    cbn [handle]. rewrite batching. unfold _enqueueClick. cbn [_clickBatch _clickBatchTimer].
    rewrite Z.geb_leb.
    destruct (Z.leb_spec (maxBatchSize cfg) (Z.of_nat (length (b ++ [r])))) as [Hfull|_].
    { rewrite length_app in Hfull. cbn [length] in Hfull, Hroom. lia. }
    fold (clicks l). rewrite IH.
    + rewrite <- app_assoc. reflexivity.
    + exact Hrest.
    + rewrite length_app. cbn [length] in *. lia.
Qed.

(** The click that brings the buffer to [maxBatchSize] flushes at once. *)
Lemma enqueueClick_full (now : Z) (r : R) s :
  maxBatchSize cfg <= Z.of_nat (length (_clickBatch s) + 1) ->
  _enqueueClick cfg now r s = (initial, _sendClickBatch now (_clickBatch s ++ [r]) false).
Proof.
  intros Hfull. unfold _enqueueClick. cbn [_clickBatch]. rewrite Z.geb_leb.
  destruct (Z.leb_spec (maxBatchSize cfg) (Z.of_nat (length (_clickBatch s ++ [r]))))
    as [_|Hlt]; [|rewrite length_app in Hlt; cbn [length] in Hlt; lia].
  apply flushClickBatch_detaches. destruct (_clickBatch s); discriminate.
Qed.

(** The first click into an empty buffer starts the timer. *)
Lemma enqueueClick_first (now : Z) (r : R) :
  1 < maxBatchSize cfg ->
  _enqueueClick cfg now r initial
  = ({| _clickBatch := [r]; _clickBatchTimer := setTimeout now (flushInterval cfg) |}, []).
Proof.
  intros Hroom. unfold _enqueueClick. cbn [_clickBatch _clickBatchTimer initial app length].
  rewrite Z.geb_leb. destruct (Z.leb_spec (maxBatchSize cfg) (Z.of_nat 1)); [lia|].
  reflexivity.
Qed.

Lemma expire_initial (now : Z) : expire now (@initial R) = (initial, []).
Proof. reflexivity. Qed.

(** Fewer clicks than [maxBatchSize], all inside the window of the first:
    the buffer holds them all and the timer of the first click is pending. *)
Lemma run_window (t1 : Z) (r1 : R) l :
  Z.of_nat (1 + length l) < maxBatchSize cfg ->
  Forall (fun c => c.1 < window cfg t1) l ->
  run cfg (clicks ((t1, r1) :: l)) initial
  = ({| _clickBatch := r1 :: map snd l;
        _clickBatchTimer := setTimeout t1 (flushInterval cfg) |}, []).
Proof.
  intros Hroom Hin. cbn [clicks map run fst snd]. rewrite expire_initial.
  cbn [handle]. rewrite batching, enqueueClick_first by lia.
  fold (clicks l). unfold setTimeout. rewrite run_fills.
  - reflexivity.
  - exact Hin.
  - cbn [length] in *. lia.
Qed.

(** Running one series of events after another. *)
Lemma run_app (e1 e2 : list (Z * event R)) s :
  run cfg (e1 ++ e2) s
  = let '(s1, o1) := run cfg e1 s in
    let '(s2, o2) := run cfg e2 s1 in (s2, o1 ++ o2).
Proof.
  revert s. induction e1 as [|[t e] e1 IH]; intros s.
  - cbn. destruct (run cfg e2 s). reflexivity.
  - cbn [app run]. destruct (expire t s) as [sa oa].
    destruct (handle cfg t e sa) as [sb ob]. rewrite IH.
    destruct (run cfg e1 sb) as [sc oc]. destruct (run cfg e2 sc) as [sd od].
    rewrite !app_assoc. reflexivity.
Qed.

(** Exactly [maxBatchSize] clicks inside the window of the first: one
    flush, made by the last click, and the state is the initial one. *)
Lemma run_full (t1 : Z) (r1 : R) l :
  Z.of_nat (1 + length l) = maxBatchSize cfg ->
  Forall (fun c => c.1 < window cfg t1) l ->
  run cfg (clicks ((t1, r1) :: l)) initial
  = (initial, _sendClickBatch (List.last (map fst l) t1) (r1 :: map snd l) false).
Proof.
  intros Hfull Hin.
  destruct l as [|c l'] using rev_ind.
  - cbn [clicks map run fst snd]. rewrite expire_initial. cbn [handle].
    rewrite batching, enqueueClick_full by (cbn in *; lia). reflexivity.
  - clear IHl'. destruct c as [tn rn].
    change ((t1, r1) :: l' ++ [(tn, rn)]) with (((t1, r1) :: l') ++ [(tn, rn)]).
    apply Forall_app in Hin as [Hin Hlast].
    inversion Hlast as [|? ? Htn _]; subst. cbn [fst] in Htn.
    rewrite length_app in Hfull. cbn [length] in Hfull.
    unfold clicks. rewrite map_app. fold (clicks ((t1, r1) :: l')).
    rewrite run_app, run_window by (try exact Hin; lia).
    cbn [map run fst snd]. unfold setTimeout.
    rewrite expire_before by (cbn [due]; exact Htn).
    cbn [handle]. rewrite batching, enqueueClick_full
      by (cbn [_clickBatch length]; rewrite length_map; lia).
    cbn [_clickBatch app]. rewrite !map_app. cbn [map fst snd].
    rewrite last_last. reflexivity.
Qed.

(** Nothing is lost and nothing is sent twice: what has been flushed,
    followed by what is still in the buffer, is what was in the buffer
    followed by what was clicked, whatever the events and their times. *)
Lemma flushClickBatch_conserves (now : Z) (isFinal : bool) s :
  flushed (_flushClickBatch now isFinal s).2 ++ _clickBatch (_flushClickBatch now isFinal s).1
  = _clickBatch s.
Proof.
  unfold _flushClickBatch. destruct (_clickBatch s) eqn:E; cbn.
  - exact E.
  - rewrite !app_nil_r. reflexivity.
Qed.

Lemma expire_conserves (now : Z) s :
  flushed (expire now s).2 ++ _clickBatch (expire now s).1 = _clickBatch s.
Proof.
  unfold expire. destruct (_clickBatchTimer s) as [h|]; [|reflexivity].
  destruct (live h && (due h <=? now)); [|reflexivity].
  apply (flushClickBatch_conserves (due h) false
           {| _clickBatch := _clickBatch s; _clickBatchTimer := Some (spent h) |}).
Qed.

Lemma handle_conserves (now : Z) (e : event R) s :
  flushed (handle cfg now e s).2 ++ _clickBatch (handle cfg now e s).1
  = _clickBatch s ++ clicked [(now, e)].
Proof.
  destruct e as [rec| | |hidden]; cbn [handle clicked flat_map snd app];
    rewrite ?app_nil_r.
  - rewrite batching. unfold _enqueueClick. cbn [_clickBatch _clickBatchTimer].
    destruct (_ >=? _).
    + apply (flushClickBatch_conserves now false
               {| _clickBatch := _clickBatch s ++ [rec];
                  _clickBatchTimer := _clickBatchTimer s |}).
    + destruct (_clickBatchTimer s); reflexivity.
  - apply flushClickBatch_conserves.
  - apply flushClickBatch_conserves.
  - destruct hidden; [apply flushClickBatch_conserves|reflexivity].
Qed.

Lemma run_conserves (events : list (Z * event R)) : forall s,
  flushed (run cfg events s).2 ++ _clickBatch (run cfg events s).1
  = _clickBatch s ++ clicked events.
Proof.
  induction events as [|[now e] rest IH]; intros s.
  - cbn. rewrite app_nil_r. reflexivity.
  - cbn [run]. pose proof (expire_conserves now s) as H1.
    destruct (expire now s) as [s1 o1]. cbn [fst snd] in H1.
    pose proof (handle_conserves now e s1) as H2.
    destruct (handle cfg now e s1) as [s2 o2]. cbn [fst snd] in H2.
    specialize (IH s2). destruct (run cfg rest s2) as [s3 o3]. cbn [fst snd] in *.
    unfold flushed, clicked in *. cbn [flat_map] in *. rewrite app_nil_r in H2.
    rewrite !flat_map_app, <- !app_assoc, IH.
    rewrite (app_assoc _ (_clickBatch s2)), H2, <- H1.
    rewrite <- !app_assoc. reflexivity.
Qed.

(** Fewer clicks than [maxBatchSize] inside one window, then time passes:
    one flush, when the window of the first click ends. *)
Lemma run_until_window (t1 : Z) (r1 : R) l (T : Z) :
  Z.of_nat (1 + length l) < maxBatchSize cfg ->
  Forall (fun c => c.1 < window cfg t1) l ->
  window cfg t1 <= T ->
  run_until cfg (clicks ((t1, r1) :: l)) T initial
  = (initial, _sendClickBatch (window cfg t1) (r1 :: map snd l) false).
Proof.
  intros Hroom Hin HT. unfold run_until. rewrite run_window by assumption.
  unfold setTimeout. rewrite expire_due; [reflexivity|reflexivity|exact HT|discriminate].
Qed.

(** A full batch and then a partial one. *)
Lemma run_until_two_batches (t1 : Z) (r1 : R) l1 (t2 : Z) (r2 : R) l2 (T : Z) :
  Z.of_nat (1 + length l1) = maxBatchSize cfg ->
  Forall (fun c => c.1 < window cfg t1) l1 ->
  Z.of_nat (1 + length l2) < maxBatchSize cfg ->
  Forall (fun c => c.1 < window cfg t2) l2 ->
  window cfg t2 <= T ->
  run_until cfg (clicks (((t1, r1) :: l1) ++ (t2, r2) :: l2)) T initial
  = (initial,
     _sendClickBatch (List.last (map fst l1) t1) (r1 :: map snd l1) false
     ++ _sendClickBatch (window cfg t2) (r2 :: map snd l2) false).
Proof.
  intros Hfull Hin1 Hroom Hin2 HT. unfold run_until, clicks. rewrite map_app.
  fold (clicks ((t1, r1) :: l1)). fold (clicks ((t2, r2) :: l2)).
  rewrite run_app, run_full, run_window by assumption.
  unfold setTimeout. rewrite expire_due; [|reflexivity|exact HT|discriminate].
  rewrite app_nil_r. reflexivity.
Qed.

(** C5. With batching on and only clicks arriving: (1) fewer than
    [maxBatchSize] clicks within the window of the first are flushed
    together exactly once, [flushInterval] after the first; (2) the click
    that brings the buffer to [maxBatchSize] flushes at once and leaves the
    initial state, so that the next click opens a new window; (3) every
    flush leaves an empty buffer and no timer, and sends the buffer it
    found; (4) with [maxBatchSize = 50], 60 clicks inside the window of the
    first give two flushes, of the first 50 at the 50th click and of the
    other 10 when the window of the 51st ends. *)
Theorem click_batch_flush_policy :
  (forall (t1 : Z) (r1 : R) l (T : Z),
     Z.of_nat (1 + length l) < maxBatchSize cfg ->
     Forall (fun c => c.1 < window cfg t1) l ->
     window cfg t1 <= T ->
     run_until cfg (clicks ((t1, r1) :: l)) T initial
     = (initial, _sendClickBatch (window cfg t1) (r1 :: map snd l) false))
  /\ (forall (t1 : Z) (r1 : R) l,
        Z.of_nat (1 + length l) = maxBatchSize cfg ->
        Forall (fun c => c.1 < window cfg t1) l ->
        run cfg (clicks ((t1, r1) :: l)) initial
        = (initial, _sendClickBatch (List.last (map fst l) t1) (r1 :: map snd l) false))
  /\ (forall (now : Z) (isFinal : bool) s,
        _clickBatch s <> [] ->
        _flushClickBatch now isFinal s
        = (initial, _sendClickBatch now (_clickBatch s) isFinal))
  /\ (maxBatchSize cfg = 50 ->
      forall (t1 : Z) (r1 : R) l1 (t51 : Z) (r51 : R) l2 (T : Z),
        length l1 = 49%nat -> length l2 = 9%nat ->
        Forall (fun c => t1 <= c.1 < window cfg t1) (l1 ++ (t51, r51) :: l2) ->
        window cfg t51 <= T ->
        (run_until cfg (clicks (((t1, r1) :: l1) ++ (t51, r51) :: l2)) T initial).2
        = [{| at_time := List.last (map fst l1) t1;
              eventType := "page_click";
              eventData := {| count := 50; items := r1 :: map snd l1; final := false |} |};
           {| at_time := window cfg t51;
              eventType := "page_click";
              eventData := {| count := 10; items := r51 :: map snd l2; final := false |} |}]).
Proof.
  split; [exact run_until_window|]. split; [exact run_full|].
  split; [exact flushClickBatch_detaches|].
  intros Hmax t1 r1 l1 t51 r51 l2 T Hl1 Hl2 Hin HT.
  apply Forall_app in Hin as [Hin1 Hin2].
  inversion Hin2 as [|? ? H51 Hin2']; subst. cbn [fst] in H51.
  rewrite run_until_two_batches.
  - unfold _sendClickBatch. cbn [snd app length]. rewrite !length_map, Hl1, Hl2.
    reflexivity.
  - rewrite Hl1, Hmax. reflexivity.
  - eapply Forall_impl; [exact Hin1|]. cbn. intros c Hc. lia.
  - rewrite Hl2, Hmax. reflexivity.
  - eapply Forall_impl; [exact Hin2'|]. cbn. intros c Hc. unfold window in *. lia.
  - exact HT.
Qed.

End ClickBatchFacts.

Lemma click_batch_flush_policy_witness :
  (ClickBatch.run_until ClickBatch.defaults
     (ClickBatch.clicks (numbered_clicks 1 60)) 5000 ClickBatch.initial).2
  = [{| ClickBatch.at_time := 1500;
        ClickBatch.eventType := "page_click";
        ClickBatch.eventData :=
          {| ClickBatch.count := 50; ClickBatch.items := seq 1 50;
             ClickBatch.final := false |} |};
     {| ClickBatch.at_time := 2710;
        ClickBatch.eventType := "page_click";
        ClickBatch.eventData :=
          {| ClickBatch.count := 10; ClickBatch.items := seq 51 10;
             ClickBatch.final := false |} |}].
Proof.
  apply (proj2 (proj2 (proj2 (click_batch_flush_policy ClickBatch.defaults eq_refl)))
           eq_refl 1010 1%nat (numbered_clicks 2 49) 1510 51%nat (numbered_clicks 52 9) 5000).
  - reflexivity.
  - reflexivity.
  - apply Forall_forall. intros [t r] Hin.
    apply list_elem_of_In in Hin. vm_compute in Hin.
    repeat (destruct Hin as [[= <- <-]|Hin]; [vm_compute; split; congruence|]).
    destruct Hin.
  - vm_compute. congruence.
Defined.

(** ** The click batch with frequent areas *)

Section HotBatchFacts.

Import Timers HotBatch.

Context {R : Type}.

Implicit Types (s : State R) (h : timer).

(** C6. In the revision with frequent areas, a click enqueued while a
    timer handle is in place and the clock has not gone back behind the
    last flush leaves the timer as it is, whether or not the click is in a
    frequent area: the test [now + interval < _lastFlushAt + interval]
    fails, so the pending flush is not moved to the shorter interval. *)
Theorem enqueueClick_keeps_pending_timer
    (cfg : ClickCfg) (now : Z) (rec : R) (isFrequent : bool) s h :
  _clickBatchTimer s = Some h ->
  _lastFlushAt s <= now ->
  Z.of_nat (length (_clickBatch s) + 1) < maxBatchSize cfg ->
  _enqueueClick cfg now rec isFrequent s
  = ({| _clickBatch := _clickBatch s ++ [rec];
        _clickBatchTimer := Some h;
        _lastFlushAt := _lastFlushAt s |}, []).
Proof.
  intros Ht Hclock Hroom. unfold _enqueueClick.
  cbn [_clickBatch _clickBatchTimer _lastFlushAt]. rewrite Ht, Z.geb_leb.
  destruct (Z.leb_spec (maxBatchSize cfg) (Z.of_nat (length (_clickBatch s ++ [rec]))))
    as [Hfull|_]; [rewrite length_app in Hfull; cbn [length] in Hfull; lia|].
  set (interval := if isFrequent then _ else _).
  destruct (Z.ltb_spec (now + interval) (_lastFlushAt s + interval)); [lia|reflexivity].
Qed.

(** The premise on the clock holds along every run whose click times
    ascend from a non-negative start. *)
Lemma expire_lastFlushAt (now : Z) s :
  _lastFlushAt s <= now -> _lastFlushAt (expire now s).1 <= now.
Proof.
  intros H. unfold expire. destruct (_clickBatchTimer s) as [h|]; [|exact H].
  destruct (live h && (due h <=? now)) eqn:E; [|exact H].
  apply andb_true_iff in E as [_ E]. apply Z.leb_le in E.
  unfold _flushClickBatch. cbn [_clickBatch].
  destruct (_clickBatch s); cbn; [exact H|exact E].
Qed.

Lemma enqueueClick_lastFlushAt (cfg : ClickCfg) (now : Z) (rec : R) (f : bool) s :
  _lastFlushAt s <= now -> _lastFlushAt (_enqueueClick cfg now rec f s).1 <= now.
Proof.
  intros H. unfold _enqueueClick. cbn [_clickBatch _clickBatchTimer _lastFlushAt].
  destruct (_ >=? _).
  - unfold _flushClickBatch. cbn [_clickBatch].
    destruct (_clickBatch s ++ [rec]); cbn; [exact H|lia].
  - destruct (_clickBatchTimer s); [destruct (_ <? _)|]; exact H.
Qed.

Lemma enqueueClick_without_reschedule (cfg : ClickCfg) (now : Z) (rec : R) (f : bool) s :
  _lastFlushAt s <= now ->
  _enqueueClick cfg now rec f s = enqueue_without_reschedule cfg now rec f s.
Proof.
  intros H. unfold _enqueueClick, enqueue_without_reschedule.
  cbn [_clickBatch _clickBatchTimer _lastFlushAt].
  destruct (_ >=? _); [reflexivity|].
  destruct (_clickBatchTimer s); [|reflexivity].
  set (interval := if f then _ else _).
  destruct (Z.ltb_spec (now + interval) (_lastFlushAt s + interval)); [lia|reflexivity].
Qed.

(** On such runs the rescheduling branch is never taken. *)
Lemma run_never_reschedules (cfg : ClickCfg) (l : list (Z * R * bool)) :
  forall (from : Z) s,
    ascending from l -> _lastFlushAt s <= from ->
    run cfg l s = run_without_reschedule cfg l s.
Proof.
  induction l as [|[[now rec] f] l IH]; intros from s Hasc H.
  - reflexivity.
  - destruct Hasc as [Hle Hasc]. cbn [run run_without_reschedule].
    pose proof (expire_lastFlushAt now s ltac:(lia)) as H1.
    destruct (expire now s) as [s1 o1]. cbn [fst] in H1.
    rewrite <- enqueueClick_without_reschedule by exact H1.
    pose proof (enqueueClick_lastFlushAt cfg now rec f s1 H1) as H2.
    destruct (_enqueueClick cfg now rec f s1) as [s2 o2]. cbn [fst] in H2.
    rewrite (IH now s2 Hasc H2). reflexivity.
Qed.

End HotBatchFacts.

Lemma enqueueClick_keeps_pending_timer_witness :
  Timers.due <$> HotBatch._clickBatchTimer cold_pending = Some 2500
  /\ HotBatch._enqueueClick HotBatch.defaults 1100 2%nat true cold_pending
     = ({| HotBatch._clickBatch := [1%nat; 2%nat];
           HotBatch._clickBatchTimer := Some {| Timers.due := 2500; Timers.live := true |};
           HotBatch._lastFlushAt := 0 |}, []).
Proof.
  split; [reflexivity|].
  apply (enqueueClick_keeps_pending_timer HotBatch.defaults 1100 2%nat true cold_pending
           {| Timers.due := 2500; Timers.live := true |}).
  - reflexivity.
  - vm_compute. congruence.
  - vm_compute. reflexivity.
Defined.

(** ** Idle sessions and the idle hint *)

Section IdleFacts.

Import Timers Idle.

Variable idleMs : Z.

Implicit Types (s : State) (c : IdleHintConfig).

Lemma onActivity_rested (now : Z) (hidden : bool) (src : string) s :
  rested idleMs now (onActivity idleMs now hidden src s).1.
Proof.
  unfold onActivity, close_idle, rested.
  destruct (_idleStartTs s) eqn:E; cbn; rewrite ?E;
    (repeat split; destruct (_idleHintTimer s); reflexivity).
Qed.

Lemma initIdleAndFocus_rested (now : Z) c : rested idleMs now (initIdleAndFocus idleMs now c).
Proof. repeat split. Qed.

(** Nothing fires before the idle threshold has elapsed. *)
Lemma expire_before_onset (at_ now : Z) s :
  rested idleMs at_ s -> now < idle_onset idleMs at_ -> expire idleMs now s = (s, []).
Proof.
  intros (Hi & Hh & _ & _) Hlt. unfold expire, expire_idle, expire_hint, idle_onset in *.
  rewrite Hi. unfold setTimeout. cbn [live due].
  destruct (Z.leb_spec (at_ + Z.max 0 idleMs) now); [lia|]. cbn [andb].
  destruct (_idleHintTimer s) as [h|]; [|reflexivity].
  cbn in Hh. rewrite Hh. reflexivity.
Qed.

(** With no timer pending, the passage of time does nothing. *)
Lemma expire_quiet (now : Z) s :
  pending (idleTimer s) = false -> pending (_idleHintTimer s) = false ->
  expire idleMs now s = (s, []).
Proof.
  intros Hi Hh. unfold expire, expire_idle, expire_hint.
  destruct (idleTimer s) as [hi|]; cbn in Hi; rewrite ?Hi; cbn [andb];
    (destruct (_idleHintTimer s) as [hh|]; cbn in Hh; rewrite ?Hh; reflexivity).
Qed.

(** Once the threshold has elapsed the idle callback has run, at the
    onset. *)
Lemma expire_idle_due (at_ T : Z) s :
  rested idleMs at_ s -> idle_onset idleMs at_ <= T ->
  expire_idle idleMs T s = onIdleTimer idleMs (idle_onset idleMs at_) s.
Proof.
  intros (Hi & _) HT. unfold expire_idle, idle_onset in *. rewrite Hi.
  unfold setTimeout. cbn [live due].
  destruct (Z.leb_spec (at_ + Z.max 0 idleMs) T); [reflexivity|lia].
Qed.

(** The hint when it is allowed: cool-down over, a message to show. *)
Lemma maybeShowIdleHint_shows (now : Z) s :
  messages (idleHintConfig s) <> [] ->
  cooldownMs (idleHintConfig s) <= now - lastHintTs (idleHintConfig s) ->
  exists s' idle_ms,
    _maybeShowIdleHint now s
    = (s',
       [(now, DispatchEvent "problemHintNeeded"
                {| editor := "idle"; editCount := 0; timestamp := now;
                   message := next_message s |});
        (now, LogEvent "idle_hint_displayed"
                (IdleHintDisplayed (next_message s) idle_ms now))])
    /\ _idleStartTs s' = _idleStartTs s
    /\ idleTimer s' = idleTimer s
    /\ _idleHintTimer s' = _idleHintTimer s.
Proof.
  intros Hmsg Hcool. unfold _maybeShowIdleHint, next_message.
  destruct (Z.ltb_spec (now - lastHintTs (idleHintConfig s))
              (cooldownMs (idleHintConfig s))); [lia|].
  destruct (messages (idleHintConfig s)) as [|m ms]; [contradiction|].
  rewrite (nth_indep (m :: ms) m "")
    by (apply Nat.mod_upper_bound; discriminate).
  eexists _, _. split; [reflexivity|]. repeat split.
Qed.

(** A rest that lasts until the hint is due: the idle session opens with
    the time of the last activity as its start, and the hint is shown. *)
Lemma expire_shows_hint (at_ T : Z) s :
  rested idleMs at_ s ->
  messages (idleHintConfig s) <> [] ->
  cooldownMs (idleHintConfig s)
  <= hint_due idleMs at_ (idleHintConfig s) - lastHintTs (idleHintConfig s) ->
  hint_due idleMs at_ (idleHintConfig s) <= T ->
  exists s' idle_ms,
    expire idleMs T s
    = (s',
       [(hint_due idleMs at_ (idleHintConfig s),
         DispatchEvent "problemHintNeeded"
           {| editor := "idle"; editCount := 0;
              timestamp := hint_due idleMs at_ (idleHintConfig s);
              message := next_message s |});
        (hint_due idleMs at_ (idleHintConfig s),
         LogEvent "idle_hint_displayed"
           (IdleHintDisplayed (next_message s) idle_ms
              (hint_due idleMs at_ (idleHintConfig s))))])
    /\ _idleStartTs s' = Some at_
    /\ pending (idleTimer s') = false
    /\ pending (_idleHintTimer s') = false.
Proof.
  intros Hr Hmsg Hcool HT. pose proof Hr as (Hi & Hh & Hl & Hs).
  unfold hint_due in *.
  assert (Hon : idle_onset idleMs at_ <= T) by lia.
  unfold expire. rewrite (expire_idle_due at_ T s Hr Hon).
  unfold expire_hint, onIdleTimer at 1. cbn [_idleHintTimer]. unfold setTimeout at 1.
  cbn [live due].
  destruct (Z.leb_spec (idle_onset idleMs at_
                        + Z.max 0 (computeHintDelay idleMs (idleHintConfig s))) T)
    as [_|Hlt]; [|lia].
  cbn [andb]. unfold onHintTimer, onIdleTimer.
  cbn [_idleStartTs idleTimer _idleHintTimer _lastActivityTs _idleMsgIdx idleHintConfig].
  rewrite Hs, Hl.
  match goal with |- context [_maybeShowIdleHint ?n ?st] =>
    destruct (maybeShowIdleHint_shows n st Hmsg Hcool)
      as (s' & idle_ms & -> & Hs' & Hi' & Hh')
  end.
  exists s', idle_ms. split; [reflexivity|].
  rewrite Hs', Hi', Hh', Hi. repeat split.
Qed.

(** The hint never closes or opens an idle session and emits no
    [user_idle] event. *)
Lemma maybeShowIdleHint_session (now : Z) s :
  _idleStartTs (_maybeShowIdleHint now s).1 = _idleStartTs s
  /\ List.filter (is_event "user_idle") (_maybeShowIdleHint now s).2 = [].
Proof.
  unfold _maybeShowIdleHint.
  destruct (_ <? _); [split; reflexivity|].
  destruct (messages (idleHintConfig s)); split; reflexivity.
Qed.

Lemma expire_hint_session (now : Z) s :
  _idleStartTs (expire_hint now s).1 = _idleStartTs s
  /\ List.filter (is_event "user_idle") (expire_hint now s).2 = [].
Proof.
  unfold expire_hint. destruct (_idleHintTimer s) as [h|]; [|split; reflexivity].
  destruct (live h && (due h <=? now)); [|split; reflexivity].
  unfold onHintTimer. cbn [_idleStartTs].
  destruct (_idleStartTs s) eqn:E; [|split; reflexivity].
  match goal with |- context [_maybeShowIdleHint ?n ?st] =>
    destruct (maybeShowIdleHint_session n st) as [H1 H2]
  end.
  split; [rewrite H1; reflexivity|exact H2].
Qed.

(** Once the threshold has elapsed the idle session is open, and it
    started at the last activity. *)
Lemma expire_opens_session (at_ T : Z) s :
  rested idleMs at_ s -> idle_onset idleMs at_ <= T ->
  _idleStartTs (expire idleMs T s).1 = Some at_
  /\ List.filter (is_event "user_idle") (expire idleMs T s).2 = [].
Proof.
  intros Hr HT. pose proof Hr as (_ & _ & Hl & Hs).
  unfold expire. rewrite (expire_idle_due at_ T s Hr HT).
  destruct (expire_hint_session T (onIdleTimer idleMs (idle_onset idleMs at_) s))
    as [H1 H2].
  split; [|exact H2]. rewrite H1. unfold onIdleTimer. cbn [_idleStartTs].
  rewrite Hs, Hl. reflexivity.
Qed.

(** Closing an open session: one [user_idle] event with the start, the
    end and their difference. *)
Lemma close_idle_open (now : Z) (hidden : bool) (src : string) s (start : Z) :
  _idleStartTs s = Some start ->
  (close_idle now hidden src s).2
  = [(now, LogEvent "user_idle" (UserIdle (now - start) start now (negb hidden) src))]
  /\ _idleStartTs (close_idle now hidden src s).1 = None.
Proof. intros H. unfold close_idle. rewrite H. split; reflexivity. Qed.

Lemma close_idle_closed (now : Z) (hidden : bool) (src : string) s :
  _idleStartTs s = None -> close_idle now hidden src s = (s, []).
Proof. intros H. unfold close_idle. rewrite H. reflexivity. Qed.

Lemma onActivity_outputs (now : Z) (hidden : bool) (src : string) s :
  (onActivity idleMs now hidden src s).2 = (close_idle now hidden src s).2
  /\ _idleStartTs (onActivity idleMs now hidden src s).1
     = _idleStartTs (close_idle now hidden src s).1.
Proof.
  unfold onActivity. destruct (close_idle now hidden src s). split; reflexivity.
Qed.

(** With no idle session open (say, closed by a page-hide during the hint
    delay) the hint callback shows nothing. *)
Lemma expire_hint_closed (now : Z) s :
  _idleStartTs s = None -> (expire_hint now s).2 = [].
Proof.
  intros H. unfold expire_hint. destruct (_idleHintTimer s) as [h|]; [|reflexivity].
  destruct (live h && (due h <=? now)); [|reflexivity].
  unfold onHintTimer. cbn [_idleStartTs]. rewrite H. reflexivity.
Qed.

Lemma idle_run_app (e1 e2 : list (Z * event)) s :
  run idleMs (e1 ++ e2) s
  = let '(s1, o1) := run idleMs e1 s in
    let '(s2, o2) := run idleMs e2 s1 in (s2, o1 ++ o2).
Proof.
  revert s. induction e1 as [|[t e] e1 IH]; intros s.
  - cbn. destruct (run idleMs e2 s). reflexivity.
  - cbn [app run]. destruct (expire idleMs t s) as [sa oa].
    destruct (handle idleMs t e sa) as [sb ob]. rewrite IH.
    destruct (run idleMs e1 sb) as [sc oc]. destruct (run idleMs e2 sc) as [sd od].
    rewrite !app_assoc. reflexivity.
Qed.

(** An event that comes before the threshold has elapsed emits nothing,
    and leaves the tracker rested from the event itself if it restarts
    the timers, from where it was otherwise. *)
Lemma handle_brisk (at_ now : Z) (e : event) s :
  rested idleMs at_ s ->
  now < idle_onset idleMs at_ ->
  (run idleMs [(now, e)] s).2 = []
  /\ rested idleMs (if restarts e then now else at_) (run idleMs [(now, e)] s).1.
Proof.
  intros Hr Hlt. pose proof Hr as (_ & _ & _ & Hs).
  cbn [run]. rewrite (expire_before_onset at_ now s Hr Hlt).
  assert (Ha : forall hidden src,
            (onActivity idleMs now hidden src s).2 = []
            /\ rested idleMs now (onActivity idleMs now hidden src s).1).
  { intros hidden src. split; [|apply onActivity_rested].
    unfold onActivity. rewrite (close_idle_closed _ _ _ _ Hs). reflexivity. }
  destruct e as [evt hidden|hidden|hidden]; cbn [handle restarts].
  - destruct (Ha hidden evt) as [Ho Hn].
    destruct (onActivity idleMs now hidden evt s) as [s1 o1]. cbn [fst snd] in *.
    rewrite Ho. split; [reflexivity|exact Hn].
  - destruct hidden; cbn [negb]; [split; [reflexivity|exact Hr]|].
    destruct (Ha false "visibility") as [Ho Hn].
    destruct (onActivity idleMs now false "visibility" s) as [s1 o1]. cbn [fst snd] in *.
    rewrite Ho. split; [reflexivity|exact Hn].
  - rewrite (close_idle_closed _ _ _ _ Hs). split; [reflexivity|exact Hr].
Qed.

Lemma run_brisk (events : list (Z * event)) : forall (at_ : Z) s,
  rested idleMs at_ s ->
  brisk idleMs at_ events ->
  (run idleMs events s).2 = []
  /\ rested idleMs (last_activity at_ events) (run idleMs events s).1.
Proof.
  induction events as [|[now e] rest IH]; intros at_ s Hr Hb; [split; [reflexivity|exact Hr]|].
  destruct Hb as [Hlt Hb]. destruct (handle_brisk at_ now e s Hr Hlt) as [Ho Hn].
  change ((now, e) :: rest) with ([(now, e)] ++ rest). rewrite idle_run_app.
  destruct (run idleMs [(now, e)] s) as [s1 o1]. cbn [fst snd] in *. subst o1.
  destruct (IH _ s1 Hn Hb) as [Ho2 Hn2].
  destruct (run idleMs rest s1) as [s2 o2]. cbn [fst snd] in *. subst o2.
  split; [reflexivity|exact Hn2].
Qed.

(** C9. (1) After an activity at [at_], if nothing happens until the hint
    is due ([idleMs] to the onset of idleness, then the hint delay), the
    cool-down since the last hint being over and the message list not
    empty, then exactly one hint notification and one
    [idle_hint_displayed] event are emitted, at the time the hint is due,
    and nothing more however long the idleness lasts.  (2) Every activity
    restarts the wait: whatever the state, it leaves the tracker rested
    from its own time; so in a run of events each of which comes before
    [idleMs] has elapsed since the last activity, nothing is emitted, no
    [user_idle] event in particular, and the run ends rested from the
    last activity.  (3) An activity, or a page-hide, that finds an idle
    session open closes it and emits exactly one [user_idle] event, whose
    duration is the time from the start of the session to now; (4) after
    such a run, an activity or a page-hide that comes once [idleMs] has
    elapsed since the last activity emits the one [user_idle] event of
    the run, and its start is the time of that last activity. *)
Theorem idle_lifecycle :
  (forall (at_ T : Z) s,
     rested idleMs at_ s ->
     messages (idleHintConfig s) <> [] ->
     cooldownMs (idleHintConfig s)
     <= hint_due idleMs at_ (idleHintConfig s) - lastHintTs (idleHintConfig s) ->
     hint_due idleMs at_ (idleHintConfig s) <= T ->
     exists s' idle_ms,
       expire idleMs T s
       = (s',
          [(hint_due idleMs at_ (idleHintConfig s),
            DispatchEvent "problemHintNeeded"
              {| editor := "idle"; editCount := 0;
                 timestamp := hint_due idleMs at_ (idleHintConfig s);
                 message := next_message s |});
           (hint_due idleMs at_ (idleHintConfig s),
            LogEvent "idle_hint_displayed"
              (IdleHintDisplayed (next_message s) idle_ms
                 (hint_due idleMs at_ (idleHintConfig s))))])
       /\ forall T', expire idleMs T' s' = (s', []))
  /\ ((forall (now : Z) (hidden : bool) (evt : string) s,
         rested idleMs now (onActivity idleMs now hidden evt s).1)
      /\ (forall (at_ : Z) (events : list (Z * event)) s,
            rested idleMs at_ s ->
            brisk idleMs at_ events ->
            (run idleMs events s).2 = []
            /\ List.filter (is_event "user_idle") (run idleMs events s).2 = []
            /\ rested idleMs (last_activity at_ events) (run idleMs events s).1))
  /\ (forall (now start : Z) (hidden : bool) (evt : string) s,
        _idleStartTs s = Some start ->
        (onActivity idleMs now hidden evt s).2
        = [(now, LogEvent "user_idle"
                   (UserIdle (now - start) start now (negb hidden) evt))]
        /\ _idleStartTs (onActivity idleMs now hidden evt s).1 = None
        /\ (handle idleMs now (PageHide hidden) s).2
           = [(now, LogEvent "user_idle"
                      (UserIdle (now - start) start now (negb hidden) "pagehide"))]
        /\ _idleStartTs (handle idleMs now (PageHide hidden) s).1 = None)
  /\ (forall (at_ now : Z) (events : list (Z * event)) (hidden : bool) (evt : string) s,
        rested idleMs at_ s ->
        brisk idleMs at_ events ->
        idle_onset idleMs (last_activity at_ events) <= now ->
        List.filter (is_event "user_idle")
          (run idleMs (events ++ [(now, Activity evt hidden)]) s).2
        = [(now, LogEvent "user_idle"
                   (UserIdle (now - last_activity at_ events) (last_activity at_ events)
                      now (negb hidden) evt))]
        /\ List.filter (is_event "user_idle")
             (run idleMs (events ++ [(now, PageHide hidden)]) s).2
           = [(now, LogEvent "user_idle"
                      (UserIdle (now - last_activity at_ events) (last_activity at_ events)
                         now (negb hidden) "pagehide"))]).
Proof.
  split; [|split; [|split]].
  - intros at_ T s Hr Hmsg Hcool HT.
    destruct (expire_shows_hint at_ T s Hr Hmsg Hcool HT)
      as (s' & idle_ms & He & _ & Hi & Hh).
    exists s', idle_ms. split; [exact He|].
    intros T'. apply expire_quiet; assumption.
  - split; [intros now hidden evt s; apply onActivity_rested|].
    intros at_ events s Hr Hb. destruct (run_brisk events at_ s Hr Hb) as [Ho Hn].
    split; [exact Ho|]. split; [rewrite Ho; reflexivity|exact Hn].
  - intros now start hidden evt s Hs.
    destruct (onActivity_outputs now hidden evt s) as [-> ->].
    destruct (close_idle_open now hidden evt s start Hs) as [-> ->].
    cbn [handle].
    destruct (close_idle_open now hidden "pagehide" s start Hs) as [-> ->].
    repeat split.
  - intros at_ now events hidden evt s Hr0 Hb Hon.
    destruct (run_brisk events at_ s Hr0 Hb) as [Ho0 Hr].
    rewrite !idle_run_app. destruct (run idleMs events s) as [s0 o0].
    cbn [fst snd] in Ho0, Hr. subst o0. cbn [app].
    destruct (expire_opens_session (last_activity at_ events) now s0 Hr Hon) as [Hs He].
    cbn [run handle]. destruct (expire idleMs now s0) as [s1 o1]. cbn [fst snd] in *.
    split.
    + destruct (onActivity_outputs now hidden evt s1) as [Ho _].
      destruct (onActivity idleMs now hidden evt s1) as [s2 o2]. cbn [snd] in *.
      rewrite !List.filter_app, He, Ho.
      destruct (close_idle_open now hidden evt s1 _ Hs) as [-> _]. reflexivity.
    + destruct (close_idle_open now hidden "pagehide" s1 _ Hs) as [Ho _].
      destruct (close_idle now hidden "pagehide" s1) as [s2 o2]. cbn [snd] in *.
      rewrite !List.filter_app, He, Ho. reflexivity.
Qed.

(** The two timers are never pending together, which is what [expire]
    relies on when it runs the idle callback before the hint callback. *)
Lemma maybeShowIdleHint_timers (now : Z) s :
  idleTimer (_maybeShowIdleHint now s).1 = idleTimer s
  /\ _idleHintTimer (_maybeShowIdleHint now s).1 = _idleHintTimer s.
Proof.
  unfold _maybeShowIdleHint. destruct (_ <? _); [split; reflexivity|].
  destruct (messages (idleHintConfig s)); split; reflexivity.
Qed.

Lemma pending_spent (field : option timer) : pending (spent <$> field) = false.
Proof. destruct field; reflexivity. Qed.

Lemma expire_exclusive (now : Z) s : exclusive s -> exclusive (expire idleMs now s).1.
Proof.
  unfold exclusive, expire. intros H.
  assert (H1 : pending (idleTimer (expire_idle idleMs now s))
               && pending (_idleHintTimer (expire_idle idleMs now s)) = false).
  { unfold expire_idle. destruct (idleTimer s) as [h|] eqn:E; [|rewrite E; exact H].
    destruct (live h && (due h <=? now)); [|rewrite E; exact H].
    unfold onIdleTimer. cbn [idleTimer]. rewrite E. reflexivity. }
  revert H1. generalize (expire_idle idleMs now s). clear s H. intros s H.
  unfold expire_hint. destruct (_idleHintTimer s) as [h|] eqn:E;
    [|cbn [fst]; rewrite E; exact H].
  destruct (live h && (due h <=? now)); [|cbn [fst]; rewrite E; exact H].
  unfold onHintTimer. cbn [_idleStartTs].
  destruct (_idleStartTs s).
  - match goal with |- context [_maybeShowIdleHint ?n ?st] =>
      destruct (maybeShowIdleHint_timers n st) as [-> ->]
    end.
    cbn [idleTimer _idleHintTimer]. rewrite pending_spent. apply andb_false_r.
  - cbn [fst idleTimer _idleHintTimer]. rewrite pending_spent. apply andb_false_r.
Qed.

Lemma handle_exclusive (now : Z) (e : event) s :
  exclusive s -> exclusive (handle idleMs now e s).1.
Proof.
  assert (Ha : forall hidden src, exclusive (onActivity idleMs now hidden src s).1).
  { intros hidden src. unfold exclusive, onActivity.
    destruct (close_idle now hidden src s) as [s1 o1]. cbn [fst].
    unfold scheduleIdleAndHint, clearTimeout. cbn [idleTimer _idleHintTimer].
    rewrite pending_spent. apply andb_false_r. }
  intros H. destruct e as [evt hidden|hidden|hidden]; cbn [handle].
  - apply Ha.
  - destruct hidden; [exact H|apply Ha].
  - unfold close_idle. destruct (_idleStartTs s); exact H.
Qed.

Lemma initIdleAndFocus_exclusive (now : Z) c : exclusive (initIdleAndFocus idleMs now c).
Proof. reflexivity. Qed.

Lemma run_exclusive (events : list (Z * event)) :
  forall s, exclusive s -> exclusive (run idleMs events s).1.
Proof.
  induction events as [|[now e] rest IH]; intros s H; [exact H|].
  cbn [run]. pose proof (expire_exclusive now s H) as H1.
  destruct (expire idleMs now s) as [s1 o1]. cbn [fst] in H1.
  pose proof (handle_exclusive now e s1 H1) as H2.
  destruct (handle idleMs now e s1) as [s2 o2]. cbn [fst] in H2.
  specialize (IH s2 H2). destruct (run idleMs rest s2). exact IH.
Qed.

End IdleFacts.

Lemma idle_lifecycle_witness :
  (exists s' idle_ms,
     Idle.expire 4000 110000 idle_start
     = (s',
        [(104000,
          Idle.DispatchEvent "problemHintNeeded"
            {| Idle.editor := "idle"; Idle.editCount := 0;
               Idle.timestamp := 104000; Idle.message := "hint-1" |});
         (104000,
          Idle.LogEvent "idle_hint_displayed"
            (Idle.IdleHintDisplayed "hint-1" idle_ms 104000))])
     /\ forall T', Idle.expire 4000 T' s' = (s', []))
  /\ List.filter (Idle.is_event "user_idle")
       (Idle.run 4000
          [(103999, Idle.Activity "keydown" false); (104001, Idle.Activity "keydown" false)]
          idle_start).2 = []
  /\ (Idle.onActivity 4000 120000 false "keydown" idle_hinted).2
     = [(120000, Idle.LogEvent "user_idle"
                   (Idle.UserIdle 20000 100000 120000 true "keydown"))]
  /\ List.filter (Idle.is_event "user_idle")
       (Idle.run 4000
          [(103999, Idle.Activity "keydown" false); (120000, Idle.PageHide true)]
          idle_start).2
     = [(120000, Idle.LogEvent "user_idle"
                   (Idle.UserIdle 16001 103999 120000 false "pagehide"))].
Proof.
  split; [|split; [|split]].
  - apply (proj1 (idle_lifecycle 4000) 100000 110000 idle_start).
    + repeat split.
    + discriminate.
    + evaluate.
    + evaluate.
  - apply (proj2 (proj1 (proj2 (idle_lifecycle 4000))) 100000
             [(103999, Idle.Activity "keydown" false);
              (104001, Idle.Activity "keydown" false)] idle_start).
    + repeat split.
    + cbn. repeat split; evaluate.
  - apply (proj1 (proj2 (proj2 (idle_lifecycle 4000))) 120000 100000 false "keydown"
             idle_hinted).
    reflexivity.
  - apply (proj2 (proj2 (proj2 (idle_lifecycle 4000))) 100000 120000
             [(103999, Idle.Activity "keydown" false)] true "mousemove" idle_start).
    + repeat split.
    + cbn. repeat split; evaluate.
    + evaluate.
Defined.

(** * Further properties of the edit-cycle analyser *)

Section EditCycleRuns.

Import EditCycle.

Implicit Types (t : Tracker) (state : EditorState) (drawn : Template).

(** What one signal does to the tracker apart from the surface states:
    nothing, the completion of a cycle, or the recording of an addition. *)
Lemma smartRecordCodeChange_cases t now drawn e (c : Text.text) t' o :
  _smartRecordCodeChange t now drawn e c = Some (t', o) ->
  exists state t1 m,
    codeMonitorStates t !! e = Some state
    /\ t' = set_codeMonitorStates m t1
    /\ ((t1 = t /\ o = [])
        \/ (exists st fl,
              isDeleting st = true
              /\ t1 = (_completeEditCycle t now drawn e st now fl).1.1
              /\ o = (_completeEditCycle t now drawn e st now fl).2)
        \/ (exists ca cl,
              t1 = (_recordMeaningfulEdit t now e "addition" ca cl now).1
              /\ o = (_recordMeaningfulEdit t now e "addition" ca cl now).2)).
Proof.
  unfold _smartRecordCodeChange. destruct (codeMonitorStates t !! e) as [state|]; [|discriminate].
  set (st0 := set_last state c (Text.length c)).
  destruct (Text.length c - lastLength state <? 0).
  - intros [= <- <-]. eexists state, t, _. split; [reflexivity|]. split; [reflexivity|].
    left. split; reflexivity.
  - destruct (Text.length c - lastLength state >? 0).
    + unfold _handleAddition. destruct (isDeleting st0) eqn:Hd.
      * destruct (_completeEditCycle t now drawn e st0 now (Text.length c))
          as [[t1 st1] o1] eqn:E.
        intros [= <- <-]. eexists state, t1, _. split; [reflexivity|].
        split; [reflexivity|]. right. left. exists st0, (Text.length c).
        rewrite E. repeat split. exact Hd.
      * destruct (_ && _).
        -- destruct (_recordMeaningfulEdit t now e "addition" _ (Text.length c) now)
             as [t1 o1] eqn:E.
           intros [= <- <-]. eexists state, t1, _. split; [reflexivity|].
           split; [reflexivity|]. right. right. eexists _, _. rewrite E. split; reflexivity.
        -- intros [= <- <-]. eexists state, t, _. split; [reflexivity|].
           split; [reflexivity|]. left. split; reflexivity.
    + intros [= <- <-]. eexists state, t, _. split; [reflexivity|]. split; [reflexivity|].
      left. split; reflexivity.
Qed.

(** The same for a run: a relation between the tracker before, the
    trace, and the tracker after holds of every run once it holds of the
    two operations, is closed under sequencing and ignores the surfaces. *)
Lemma run_relates (R : Tracker -> list output -> Tracker -> Prop) :
  (forall t, R t [] t) ->
  (forall t o1 t1 o2 t2, R t o1 t1 -> R t1 o2 t2 -> R t (o1 ++ o2) t2) ->
  (forall t m, R t [] (set_codeMonitorStates m t)) ->
  (forall t now drawn e st fl,
     isDeleting st = true ->
     R t (_completeEditCycle t now drawn e st now fl).2
       (_completeEditCycle t now drawn e st now fl).1.1) ->
  (forall t now e ca cl,
     R t (_recordMeaningfulEdit t now e "addition" ca cl now).2
       (_recordMeaningfulEdit t now e "addition" ca cl now).1) ->
  forall signals t t' o, run t signals = Some (t', o) -> R t o t'.
Proof.
  intros Hrefl Htrans Hset Hcycle Hadd.
  induction signals as [|s rest IH]; intros t t' o Hr.
  - injection Hr as <- <-. apply Hrefl.
  - cbn [run] in Hr.
    destruct (_smartRecordCodeChange t (at_time s) (drawn s) (surface s) (content s))
      as [[t1 o1]|] eqn:Hs; [|discriminate].
    destruct (run t1 rest) as [[t2 o2]|] eqn:Hrest; [|discriminate].
    injection Hr as <- <-.
    apply (Htrans t o1 t1 o2 t2); [|apply IH; exact Hrest].
    destruct (smartRecordCodeChange_cases _ _ _ _ _ _ _ Hs)
      as (state & ta & m & _ & -> & [[-> ->]|[(st & fl & Hd & -> & ->)|(ca & cl & -> & ->)]]).
    + apply Hset.
    + rewrite <- (app_nil_r (_completeEditCycle _ _ _ _ _ _ _).2).
      eapply Htrans; [apply Hcycle; exact Hd|apply Hset].
    + rewrite <- (app_nil_r (_recordMeaningfulEdit _ _ _ _ _ _ _).2).
      eapply Htrans; [apply Hadd|apply Hset].
Qed.

Lemma recordMeaningfulEdit_frame t now e ty ca cl ts :
  codeMonitoringConfig (_recordMeaningfulEdit t now e ty ca cl ts).1 = codeMonitoringConfig t
  /\ hintConfig (_recordMeaningfulEdit t now e ty ca cl ts).1 = hintConfig t
  /\ problemEvents (_recordMeaningfulEdit t now e ty ca cl ts).1 = problemEvents t
  /\ reported (_recordMeaningfulEdit t now e ty ca cl ts).2 = []
  /\ hint_times (_recordMeaningfulEdit t now e ty ca cl ts).2 = [].
Proof.
  unfold _recordMeaningfulEdit, _submitSignificantEdits. cbv zeta. cbn [fst snd].
  repeat split; try (destruct (_ >? _); reflexivity).
  all: destruct (ca >=? 50); [reflexivity|];
       destruct (_ mod 5 =? 0); [|reflexivity];
       destruct (len _ =? 0); reflexivity.
Qed.

Lemma len_shift {A} (a : list A) : len a <> 0 -> len (shift a) = len a - 1.
Proof. destruct a; unfold len, shift; cbn; lia. Qed.

Lemma pushed_bound (cfg : CodeMonitoringConfig) (h : list EditRecord) (r : EditRecord) :
  len h <= maxHistoryLength cfg -> len (pushed cfg h r) <= maxHistoryLength cfg.
Proof.
  intros H. unfold pushed. rewrite Z.gtb_ltb.
  destruct (Z.ltb_spec (maxHistoryLength cfg) (len (h ++ [r]))) as [Hover|Hfit]; [|exact Hfit].
  pose proof (len_nonneg h) as Hn. rewrite len_app in Hover. change (len [r]) with 1 in Hover.
  rewrite len_shift; rewrite len_app; change (len [r]) with 1; lia.
Qed.

Lemma recordMeaningfulEdit_history t now e ty ca cl ts :
  significantEdits (_recordMeaningfulEdit t now e ty ca cl ts).1
  = pushed (codeMonitoringConfig t) (significantEdits t)
      (Added {| addition_type := ty; addition_editor := e; addition_timestamp := ts;
                changeAmount := ca; currentLength := cl |}).
Proof.
  unfold _recordMeaningfulEdit, pushed. cbv zeta. cbn [fst significantEdits set_significantEdits codeMonitoringConfig].
  destruct (_ >? _); reflexivity.
Qed.

(** X1. The history of significant edits never outgrows
    [maxHistoryLength]: if it fits before a run, it fits after it, the
    configuration being left as it was. *)
Theorem run_history_bounded (signals : list Signal) t t' (o : list output) :
  run t signals = Some (t', o) ->
  len (significantEdits t) <= maxHistoryLength (codeMonitoringConfig t) ->
  codeMonitoringConfig t' = codeMonitoringConfig t
  /\ len (significantEdits t') <= maxHistoryLength (codeMonitoringConfig t).
Proof.
  intros Hr.
  assert (H : codeMonitoringConfig t' = codeMonitoringConfig t
              /\ (len (significantEdits t) <= maxHistoryLength (codeMonitoringConfig t) ->
                  len (significantEdits t') <= maxHistoryLength (codeMonitoringConfig t))).
  { revert signals t t' o Hr.
    apply (run_relates (fun t _ t' =>
             codeMonitoringConfig t' = codeMonitoringConfig t
             /\ (len (significantEdits t) <= maxHistoryLength (codeMonitoringConfig t) ->
                 len (significantEdits t') <= maxHistoryLength (codeMonitoringConfig t)))).
    - intros t. split; auto.
    - intros t o1 t1 o2 t2 [Hc1 Hb1] [Hc2 Hb2]. rewrite Hc1 in *.
      split; [exact Hc2|]. intros H. apply Hb2, Hb1, H.
    - intros t m. split; auto.
    - intros t now drawn e st fl _.
      destruct (Z.lt_ge_cases (Z.abs (fl - deleteStartLength st))
                  (minChangeThreshold (codeMonitoringConfig t))) as [Hlt|Hge].
      + rewrite completeEditCycle_unrecorded by exact Hlt. split; auto.
      + rewrite completeEditCycle_recorded by lia. cbv zeta. cbn [fst snd].
        rewrite problem_step_config, problem_step_history. cbn.
        split; [reflexivity|]. apply pushed_bound.
    - intros t now e ca cl.
      destruct (recordMeaningfulEdit_frame t now e "addition" ca cl now) as (Hc & _).
      split; [exact Hc|].
      rewrite recordMeaningfulEdit_history. apply pushed_bound. }
  intros Hb. destruct H as [Hc H]. split; [exact Hc|apply H, Hb].
Qed.

Lemma reported_app (a b : list output) : reported (a ++ b) = reported a ++ reported b.
Proof. apply flat_map_app. Qed.

Lemma hint_times_app (a b : list output) : hint_times (a ++ b) = hint_times a ++ hint_times b.
Proof. apply flat_map_app. Qed.

Lemma submitSignificantEdits_quiet t now :
  reported (_submitSignificantEdits t now) = []
  /\ hint_times (_submitSignificantEdits t now) = [].
Proof. unfold _submitSignificantEdits. destruct (len _ =? 0); split; reflexivity. Qed.

Lemma batch_step_quiet t now c :
  reported (batch_step t now c) = [] /\ hint_times (batch_step t now c) = [].
Proof.
  unfold batch_step. destruct (_ || _); [apply submitSignificantEdits_quiet|split; reflexivity].
Qed.

(** [_recordProblemEvent] in full: the problem joins [problemEvents] and is
    reported; a hint is notified only once the cool-down since the last
    one is over, and then restarts the cool-down. *)
Lemma recordProblemEvent_effects t now drawn e c ts :
  let r := _recordProblemEvent t now drawn e c ts in
  let p := {| problem_editor := e; problem_timestamp := ts;
              problem_consecutiveEdits := c;
              severity := _calculateProblemSeverity c |} in
  problemEvents r.1 = problemEvents t ++ [p]
  /\ reported r.2 = [p]
  /\ hintThreshold (hintConfig r.1) = hintThreshold (hintConfig t)
  /\ cooldownPeriod (hintConfig r.1) = cooldownPeriod (hintConfig t)
  /\ ((hint_times r.2 = [] /\ lastHintTime (hintConfig r.1) = lastHintTime (hintConfig t))
      \/ (hint_times r.2 = [ts]
          /\ lastHintTime (hintConfig r.1) = now
          /\ lastHintTime (hintConfig t) + cooldownPeriod (hintConfig t) <= now)).
Proof.
  cbv zeta. unfold _recordProblemEvent, _triggerProblemHint, _submitProblemEvent.
  cbn [hintConfig set_problemEvents problemEvents].
  destruct (c >=? hintThreshold (hintConfig t)).
  - destruct (Z.ltb_spec (now - lastHintTime (hintConfig t)) (cooldownPeriod (hintConfig t))).
    + cbn. repeat split. left. split; reflexivity.
    + cbn. repeat split. right. repeat split. lia.
  - cbn. repeat split. left. split; reflexivity.
Qed.

Lemma problem_step_effects t now drawn e c ts :
  let r := problem_step t now drawn e c ts in
  hintThreshold (hintConfig r.1) = hintThreshold (hintConfig t)
  /\ cooldownPeriod (hintConfig r.1) = cooldownPeriod (hintConfig t)
  /\ problemEvents r.1 = problemEvents t ++ reported r.2
  /\ Forall (fun p =>
       problemDetectionThreshold (codeMonitoringConfig t) <= problem_consecutiveEdits p
       /\ severity p = _calculateProblemSeverity (problem_consecutiveEdits p)
       /\ problem_timestamp p = ts) (reported r.2)
  /\ ((hint_times r.2 = [] /\ lastHintTime (hintConfig r.1) = lastHintTime (hintConfig t))
      \/ (hint_times r.2 = [ts]
          /\ lastHintTime (hintConfig r.1) = now
          /\ lastHintTime (hintConfig t) + cooldownPeriod (hintConfig t) <= now)).
Proof.
  cbv zeta. unfold problem_step. rewrite Z.geb_leb.
  destruct (Z.leb_spec (problemDetectionThreshold (codeMonitoringConfig t)) c) as [Hc|_].
  - destruct (recordProblemEvent_effects t now drawn e c ts) as (Hp & Hr & Hh & Hcd & Hhint).
    rewrite Hr. repeat split; try assumption.
    constructor; [|constructor]. cbn. repeat split. exact Hc.
  - cbn. rewrite app_nil_r. repeat split; [constructor|]. left. split; reflexivity.
Qed.

(** [_completeEditCycle] seen from the tracker: the same, whether or not
    the cycle is recorded. *)
Lemma completeEditCycle_effects t now drawn e state fl :
  let r := _completeEditCycle t now drawn e state now fl in
  codeMonitoringConfig r.1.1 = codeMonitoringConfig t
  /\ hintThreshold (hintConfig r.1.1) = hintThreshold (hintConfig t)
  /\ cooldownPeriod (hintConfig r.1.1) = cooldownPeriod (hintConfig t)
  /\ problemEvents r.1.1 = problemEvents t ++ reported r.2
  /\ Forall (fun p =>
       problemDetectionThreshold (codeMonitoringConfig t) <= problem_consecutiveEdits p
       /\ severity p = _calculateProblemSeverity (problem_consecutiveEdits p)
       /\ problem_timestamp p = now) (reported r.2)
  /\ ((hint_times r.2 = [] /\ lastHintTime (hintConfig r.1.1) = lastHintTime (hintConfig t))
      \/ (hint_times r.2 = [now]
          /\ lastHintTime (hintConfig r.1.1) = now
          /\ lastHintTime (hintConfig t) + cooldownPeriod (hintConfig t) <= now)).
Proof.
  cbv zeta.
  destruct (Z.lt_ge_cases (Z.abs (fl - deleteStartLength state))
              (minChangeThreshold (codeMonitoringConfig t))) as [Hlt|Hge].
  - rewrite completeEditCycle_unrecorded by exact Hlt. cbn. rewrite app_nil_r.
    repeat split; [constructor|]. left. split; reflexivity.
  - rewrite completeEditCycle_recorded by lia. cbv zeta. cbn [fst snd].
    set (t1 := set_significantEdits _ t).
    destruct (problem_step_effects t1 now drawn e (consecutiveEdits state) now)
      as (Hh & Hcd & Hp & Hok & Hhint).
    destruct (batch_step_quiet (problem_step t1 now drawn e (consecutiveEdits state) now).1
                now (consecutiveEdits state)) as [Hb1 Hb2].
    rewrite reported_app, hint_times_app, Hb1, Hb2, !app_nil_r, problem_step_config.
    repeat split; assumption.
Qed.

Lemma last_cons_default (l : list Z) (x d : Z) : List.last (x :: l) d = List.last l x.
Proof.
  revert x d. induction l as [|y l IH]; intros x d; [reflexivity|].
  change (List.last (x :: y :: l) d) with (List.last (y :: l) d).
  rewrite !IH. reflexivity.
Qed.

Lemma spaced_app (gap from : Z) (a b : list Z) :
  spaced gap from a -> spaced gap (List.last a from) b -> spaced gap from (a ++ b).
Proof.
  revert from. induction a as [|x a IH]; intros from Ha Hb; [exact Hb|].
  destruct Ha as [Hx Ha]. split; [exact Hx|]. apply IH; [exact Ha|].
  rewrite last_cons_default in Hb. exact Hb.
Qed.

Lemma last_app_default (a b : list Z) (d : Z) :
  List.last (a ++ b) d = List.last b (List.last a d).
Proof.
  revert d. induction a as [|x a IH]; intros d; [reflexivity|].
  change ((x :: a) ++ b) with (x :: (a ++ b)).
  rewrite !last_cons_default. apply IH.
Qed.

(** X2. Every problem the tracker detects is both kept and reported, once:
    after a run, [problemEvents] is what it was followed by the problems
    of the [coding_problem] events of the trace, in order; each of them
    has a count at or above [problemDetectionThreshold] and the severity
    that [_calculateProblemSeverity] gives to its count.  Nothing ever
    removes an entry. *)
Theorem run_reports_every_problem (signals : list Signal) t t' (o : list output) :
  run t signals = Some (t', o) ->
  problemEvents t' = problemEvents t ++ reported o
  /\ Forall (fun p =>
       problemDetectionThreshold (codeMonitoringConfig t) <= problem_consecutiveEdits p
       /\ severity p = _calculateProblemSeverity (problem_consecutiveEdits p))
       (reported o).
Proof.
  intros Hr.
  assert (H : codeMonitoringConfig t' = codeMonitoringConfig t
              /\ problemEvents t' = problemEvents t ++ reported o
              /\ Forall (fun p =>
                   problemDetectionThreshold (codeMonitoringConfig t)
                   <= problem_consecutiveEdits p
                   /\ severity p = _calculateProblemSeverity (problem_consecutiveEdits p))
                   (reported o)).
  { revert signals t t' o Hr.
    apply (run_relates (fun t o t' =>
             codeMonitoringConfig t' = codeMonitoringConfig t
             /\ problemEvents t' = problemEvents t ++ reported o
             /\ Forall (fun p =>
                  problemDetectionThreshold (codeMonitoringConfig t)
                  <= problem_consecutiveEdits p
                  /\ severity p = _calculateProblemSeverity (problem_consecutiveEdits p))
                  (reported o))).
    - intros t. cbn. rewrite app_nil_r. repeat split. constructor.
    - intros t o1 t1 o2 t2 (Hc1 & Hp1 & Hf1) (Hc2 & Hp2 & Hf2).
      rewrite Hc1 in *. rewrite reported_app, Hp2, Hp1, app_assoc.
      repeat split; [exact Hc2|]. apply Forall_app. split; assumption.
    - intros t m. cbn. rewrite app_nil_r. repeat split. constructor.
    - intros t now drawn e st fl _.
      destruct (completeEditCycle_effects t now drawn e st fl) as (Hc & _ & _ & Hp & Hf & _).
      repeat split; [exact Hc|exact Hp|].
      eapply Forall_impl; [exact Hf|]. cbn. intros p (H1 & H2 & _). split; assumption.
    - intros t now e ca cl.
      destruct (recordMeaningfulEdit_frame t now e "addition" ca cl now)
        as (Hc & _ & Hp & Hr & _).
      rewrite Hr, app_nil_r. repeat split; [exact Hc|exact Hp|constructor]. }
  destruct H as (_ & Hp & Hf). split; assumption.
Qed.

(** X3. Hints for coding problems keep their distance: in any run, each
    [problemHintNeeded] notification comes at least [cooldownPeriod]
    after the one before it (and after the last hint time the tracker
    started with), and the tracker ends up remembering the time of the
    last one. *)
Theorem run_spaces_problem_hints (signals : list Signal) t t' (o : list output) :
  run t signals = Some (t', o) ->
  spaced (cooldownPeriod (hintConfig t)) (lastHintTime (hintConfig t)) (hint_times o)
  /\ lastHintTime (hintConfig t') = List.last (hint_times o) (lastHintTime (hintConfig t))
  /\ cooldownPeriod (hintConfig t') = cooldownPeriod (hintConfig t).
Proof.
  revert signals t t' o.
  apply (run_relates (fun t o t' =>
           spaced (cooldownPeriod (hintConfig t)) (lastHintTime (hintConfig t)) (hint_times o)
           /\ lastHintTime (hintConfig t')
              = List.last (hint_times o) (lastHintTime (hintConfig t))
           /\ cooldownPeriod (hintConfig t') = cooldownPeriod (hintConfig t))).
  - intros t. cbn. repeat split.
  - intros t o1 t1 o2 t2 (Hs1 & Hl1 & Hc1) (Hs2 & Hl2 & Hc2).
    rewrite hint_times_app, last_app_default. rewrite Hc1, Hl1 in *.
    split; [apply spaced_app; assumption|]. split; assumption.
  - intros t m. cbn. repeat split.
  - intros t now drawn e st fl _.
    destruct (completeEditCycle_effects t now drawn e st fl)
      as (_ & _ & Hcd & _ & _ & [[-> Hl]|(-> & Hl & Hgap)]).
    + cbn. repeat split; assumption.
    + cbn. repeat split; first [assumption | lia].
  - intros t now e ca cl.
    destruct (recordMeaningfulEdit_frame t now e "addition" ca cl now)
      as (_ & Hh & _ & _ & ->).
    rewrite Hh. cbn. repeat split.
Qed.

(** One signal for a known surface: what becomes of the edit buffer. *)
Lemma smartRecordCodeChange_buffer t now drawn e (c : Text.text) state :
  codeMonitorStates t !! e = Some state ->
  exists t' o state',
    _smartRecordCodeChange t now drawn e c = Some (t', o)
    /\ codeMonitorStates t' = <[e := state']> (codeMonitorStates t)
    /\ editBuffer state'
       = let b := editBuffer state
                  ++ [{| entry_timestamp := now;
                         entry_length := Text.length c;
                         entry_change := Text.length c - lastLength state;
                         entry_content := c |}] in
         if len b >? 20 then shift b else b.
Proof.
  intros Hl. unfold _smartRecordCodeChange. rewrite Hl.
  destruct (Text.length c - lastLength state <? 0).
  - eexists _, _, _. split; [reflexivity|]. split; [reflexivity|].
    unfold _handleDeletion, buffer_edit, set_last. cbn.
    destruct (isDeleting state); reflexivity.
  - destruct (Text.length c - lastLength state >? 0).
    + set (st1 := set_last state c (Text.length c)).
      destruct (handleAddition_state t now drawn e st1 (Text.length c - lastLength state)
                  (Text.length c) now (now - lastMeaningfulEdit st1)) as [Hs Hm].
      destruct (_handleAddition t now drawn e st1 _ _ now _) as [[t' st'] o].
      simpl in Hs, Hm. subst st'.
      eexists _, _, _. split; [reflexivity|]. split.
      * cbn [codeMonitorStates set_codeMonitorStates]. rewrite Hm. reflexivity.
      * subst st1. unfold buffer_edit, count_addition, reset_cycle, set_last. cbn.
        destruct (isDeleting state); reflexivity.
    + eexists _, _, _. split; [reflexivity|]. split; reflexivity.
Qed.

(** X4. The analyser only fails on a surface it has no state for: a run
    returns exactly when every signal is for a surface of
    [codeMonitorStates], whatever the contents and times; and a run that
    returns leaves the tracker with the same surfaces. *)
Theorem run_returns_iff_surfaces_known (signals : list Signal) t :
  (is_Some (run t signals)
   <-> Forall (fun s => is_Some (codeMonitorStates t !! surface s)) signals)
  /\ (forall t' o, run t signals = Some (t', o) ->
      dom (codeMonitorStates t') = dom (codeMonitorStates t)).
Proof.
  revert t. induction signals as [|s rest IH]; intros t.
  - split; [split; [constructor|intros _; eexists; reflexivity]|].
    intros t' o [= <- <-]. reflexivity.
  - cbn [run].
    destruct (codeMonitorStates t !! surface s) as [state|] eqn:Hl.
    + destruct (smartRecordCodeChange_buffer t (at_time s) (drawn s) (surface s)
                  (content s) state Hl) as (t1 & o1 & st1 & -> & Hm & _).
      assert (Hdom : dom (codeMonitorStates t1) = dom (codeMonitorStates t)).
      { rewrite Hm, dom_insert_L. apply (elem_of_dom_2 (D := gset string)) in Hl.
        apply subseteq_union_1_L, singleton_subseteq_l, Hl. }
      assert (Hsame : forall k, is_Some (codeMonitorStates t1 !! k)
                                <-> is_Some (codeMonitorStates t !! k)).
      { intros k. rewrite <- !(elem_of_dom (D := gset string)), Hdom. reflexivity. }
      destruct (IH t1) as [Hiff Hd]. split.
      * split.
        -- intros Hsome. constructor; [rewrite Hl; eexists; reflexivity|].
           destruct (run t1 rest) as [[t2 o2]|] eqn:E; [|destruct Hsome; discriminate].
           eapply Forall_impl; [apply Hiff; eexists; reflexivity|].
           intros x Hx. apply Hsame, Hx.
        -- intros Hall. inversion Hall as [|? ? _ Hrest]; subst.
           destruct (proj2 Hiff) as [[t2 o2] E].
           { eapply Forall_impl; [exact Hrest|]. intros x Hx. apply Hsame, Hx. }
           rewrite E. eexists. reflexivity.
      * intros t' o Hr. destruct (run t1 rest) as [[t2 o2]|] eqn:E; [|discriminate].
        injection Hr as <- <-. rewrite (Hd t2 o2 eq_refl). exact Hdom.
    + assert (Hn : _smartRecordCodeChange t (at_time s) (drawn s) (surface s) (content s)
                   = None) by (unfold _smartRecordCodeChange; rewrite Hl; reflexivity).
      rewrite Hn. split; [|discriminate]. split.
      * intros [x Hx]. discriminate Hx.
      * intros Hall. inversion Hall as [|? ? [x Hx] _]; subst. rewrite Hl in Hx. discriminate.
Qed.

Lemma buffer_trim_bound (b : list BufferEntry) (e : BufferEntry) :
  len b <= 20 ->
  len (let x := b ++ [e] in if len x >? 20 then shift x else x) <= 20.
Proof.
  intros H. cbv zeta. rewrite Z.gtb_ltb.
  destruct (Z.ltb_spec 20 (len (b ++ [e]))) as [Hover|Hfit]; [|exact Hfit].
  pose proof (len_nonneg b). rewrite len_app in Hover. change (len [e]) with 1 in Hover.
  rewrite len_shift; rewrite len_app; change (len [e]) with 1; lia.
Qed.

Lemma run_snoc (prefix : list Signal) (s : Signal) t t' (o : list output) :
  run t (prefix ++ [s]) = Some (t', o) ->
  exists t1 o1 o2,
    run t prefix = Some (t1, o1)
    /\ _smartRecordCodeChange t1 (at_time s) (drawn s) (surface s) (content s)
       = Some (t', o2)
    /\ o = o1 ++ o2.
Proof.
  revert t t' o. induction prefix as [|x prefix IH]; intros t t' o Hr.
  - cbn in Hr. destruct (_smartRecordCodeChange t _ _ _ _) as [[t1 o1]|] eqn:Hs; [|discriminate].
    injection Hr as <- <-. exists t, [], o1. rewrite app_nil_r. repeat split. exact Hs.
  - cbn [app run] in *.
    destruct (_smartRecordCodeChange t (at_time x) _ _ _) as [[ta oa]|]; [|discriminate].
    destruct (run ta (prefix ++ [s])) as [[tb ob]|] eqn:E; [|discriminate].
    injection Hr as <- <-.
    destruct (IH ta tb ob E) as (t1 & o1 & o2 & -> & Hs & ->).
    exists t1, (oa ++ o1), o2. rewrite app_assoc. repeat split. exact Hs.
Qed.

(** X5. The edit buffer of a surface never holds more than 20 entries: if
    all buffers do at the start of a run, all do at its end.  After a
    signal, the newest entry of its surface is the last one and records
    the time, the new length and the content. *)
Theorem run_edit_buffers_bounded (signals : list Signal) t t' (o : list output) :
  run t signals = Some (t', o) ->
  map_Forall (fun _ state => len (editBuffer state) <= 20) (codeMonitorStates t) ->
  map_Forall (fun _ state => len (editBuffer state) <= 20) (codeMonitorStates t')
  /\ forall prefix s, signals = prefix ++ [s] ->
       exists state change,
         codeMonitorStates t' !! surface s = Some state
         /\ last (editBuffer state)
            = Some {| entry_timestamp := at_time s;
                      entry_length := Text.length (content s);
                      entry_change := change;
                      entry_content := content s |}.
Proof.
  intros Hr Hb. split.
  - revert t t' o Hr Hb. induction signals as [|s rest IH]; intros t t' o Hr Hb.
    + injection Hr as <- <-. exact Hb.
    + cbn [run] in Hr.
      destruct (_smartRecordCodeChange t (at_time s) (drawn s) (surface s) (content s))
        as [[t1 o1]|] eqn:Hs; [|discriminate].
      destruct (run t1 rest) as [[t2 o2]|] eqn:Hrest; [|discriminate].
      injection Hr as <- <-. apply (IH t1 t2 o2 Hrest).
      destruct (codeMonitorStates t !! surface s) as [state|] eqn:Hl;
        [|unfold _smartRecordCodeChange in Hs; rewrite Hl in Hs; discriminate].
      destruct (smartRecordCodeChange_buffer t (at_time s) (drawn s) (surface s)
                  (content s) state Hl) as (t1' & o1' & st1 & Hs' & Hm & Hbuf).
      rewrite Hs in Hs'. injection Hs' as <- <-.
      rewrite Hm. apply map_Forall_insert_2; [|exact Hb].
      rewrite Hbuf. apply buffer_trim_bound. exact (Hb _ _ Hl).
  - intros prefix s ->.
    destruct (run_snoc prefix s t t' o Hr) as (t1 & o1 & o2 & _ & Hs & _).
    destruct (codeMonitorStates t1 !! surface s) as [state|] eqn:Hl;
      [|unfold _smartRecordCodeChange in Hs; rewrite Hl in Hs; discriminate].
    destruct (smartRecordCodeChange_buffer t1 (at_time s) (drawn s) (surface s)
                (content s) state Hl) as (t1' & o1' & st1 & Hs' & Hm & Hbuf).
    rewrite Hs in Hs'. injection Hs' as <- <-.
    exists st1, (Text.length (content s) - lastLength state).
    split; [rewrite Hm; apply lookup_insert_eq|].
    rewrite Hbuf. cbv zeta. destruct (len _ >? 20) eqn:E20.
    + unfold shift. destruct (editBuffer state) as [|b0 bs] eqn:Eb; cbn [app tail].
      * exfalso. revert E20. cbn. discriminate.
      * apply last_snoc.
    + apply last_snoc.
Qed.

Lemma last_pushed (cfg : CodeMonitoringConfig) (h : list EditRecord) (r : EditRecord) :
  1 <= maxHistoryLength cfg -> last (pushed cfg h r) = Some r.
Proof.
  intros Hmax. unfold pushed. rewrite Z.gtb_ltb.
  destruct (Z.ltb_spec (maxHistoryLength cfg) (len (h ++ [r]))) as [Hover|_];
    [|apply last_snoc].
  destruct h as [|x h]; [change (len ([] ++ [r])) with 1 in Hover; lia|].
  cbn [app shift tail]. apply last_snoc.
Qed.

(** X6. The start of a deletion is measured after the first deleting
    change has been taken into [lastLength]: when a surface that is not
    deleting shrinks to [l1] units and then grows to [l3], the cycle
    recorded (the change [l3 - l1] reaching [minChangeThreshold]) has
    [startLength = l1] and [netChange = l3 - l1]; the length the text had
    before the deletion plays no part.  Its duration is the time between
    the two signals and its count is the previous count plus one. *)
Theorem cycle_measured_from_first_deletion
    t (e : string) state (c1 c3 : Text.text) (t1 t3 : Z) (d1 d3 : Template) :
  codeMonitorStates t !! e = Some state ->
  isDeleting state = false ->
  Text.length c1 < lastLength state ->
  Text.length c1 < Text.length c3 ->
  minChangeThreshold (codeMonitoringConfig t) <= Text.length c3 - Text.length c1 ->
  1 <= maxHistoryLength (codeMonitoringConfig t) ->
  exists t' o r,
    run t [{| at_time := t1; drawn := d1; surface := e; content := c1 |};
           {| at_time := t3; drawn := d3; surface := e; content := c3 |}]
    = Some (t', o)
    /\ last (significantEdits t') = Some (Cycle r)
    /\ startLength r = Text.length c1
    /\ endLength r = Text.length c3
    /\ netChange r = Text.length c3 - Text.length c1
    /\ duration r = t3 - t1
    /\ cycle_consecutiveEdits r = consecutiveEdits state + 1.
Proof.
  intros Hl Hd H1 H3 Hmin Hmax. cbn [run at_time drawn surface content].
  (* the deleting change *)
  unfold _smartRecordCodeChange at 1. rewrite Hl.
  destruct (Z.ltb_spec (Text.length c1 - lastLength state) 0) as [_|]; [|lia].
  unfold _handleDeletion, set_last. cbn [isDeleting lastLength lastContent
    lastMeaningfulEdit deleteStartTime deleteStartLength consecutiveEdits editBuffer].
  rewrite Hd. cbn [negb].
  (* the addition that completes the cycle *)
  unfold _smartRecordCodeChange. cbn [codeMonitorStates set_codeMonitorStates].
  rewrite lookup_insert_eq. unfold buffer_edit.
  cbn [isDeleting lastLength lastContent lastMeaningfulEdit deleteStartTime
    deleteStartLength consecutiveEdits editBuffer].
  destruct (Z.ltb_spec (Text.length c3 - Text.length c1) 0) as [|_]; [lia|].
  rewrite Z.gtb_ltb.
  destruct (Z.ltb_spec 0 (Text.length c3 - Text.length c1)) as [_|]; [|lia].
  unfold _handleAddition, set_last. cbn [isDeleting].
  match goal with |- context [_completeEditCycle ?a ?b ?c ?d ?st ?f ?g] =>
    pose proof (completeEditCycle_recorded a b c d st f g) as Hrec;
    destruct (_completeEditCycle a b c d st f g) as [[ta sta] oa] eqn:E
  end.
  cbn [deleteStartLength codeMonitoringConfig set_codeMonitorStates] in Hrec.
  assert (Hge : Z.abs (Text.length c3 - Text.length c1)
                >= minChangeThreshold (codeMonitoringConfig t)) by lia.
  specialize (Hrec Hge). cbv zeta in Hrec.
  eexists _, _, _. split; [reflexivity|].
  cbn [significantEdits set_codeMonitorStates].
  injection Hrec as -> _ _. rewrite problem_step_history.
  cbn [significantEdits set_significantEdits codeMonitoringConfig set_codeMonitorStates].
  unfold cycle_record. split; [apply last_pushed; exact Hmax|].
  cbn. repeat split.
Qed.

Lemma smartRecordCodeChange_config t now drawn e (c : Text.text) t' o :
  _smartRecordCodeChange t now drawn e c = Some (t', o) ->
  codeMonitoringConfig t' = codeMonitoringConfig t.
Proof.
  intros Hs.
  destruct (smartRecordCodeChange_cases _ _ _ _ _ _ _ Hs)
    as (state & ta & m & _ & -> & [[-> _]|[(st & fl & _ & -> & _)|(ca & cl & -> & _)]]).
  - reflexivity.
  - apply (completeEditCycle_effects t now drawn e st fl).
  - apply (recordMeaningfulEdit_frame t now e "addition" ca cl now).
Qed.

(** After an addition the surface is not deleting and remembers the time
    of the addition as that of its last meaningful edit, recorded or not. *)
Lemma smartRecordCodeChange_addition t now drawn e (c : Text.text) state :
  codeMonitorStates t !! e = Some state ->
  lastLength state < Text.length c ->
  exists t' o state',
    _smartRecordCodeChange t now drawn e c = Some (t', o)
    /\ codeMonitorStates t' !! e = Some state'
    /\ isDeleting state' = false
    /\ lastMeaningfulEdit state' = now
    /\ lastLength state' = Text.length c.
Proof.
  intros Hl Hlen. unfold _smartRecordCodeChange. rewrite Hl.
  destruct (Z.ltb_spec (Text.length c - lastLength state) 0); [lia|].
  rewrite Z.gtb_ltb.
  destruct (Z.ltb_spec 0 (Text.length c - lastLength state)); [|lia].
  set (st1 := set_last state c (Text.length c)).
  destruct (handleAddition_state t now drawn e st1 (Text.length c - lastLength state)
              (Text.length c) now (now - lastMeaningfulEdit st1)) as [Hs Hm].
  destruct (_handleAddition t now drawn e st1 _ _ now _) as [[t' st'] o].
  simpl in Hs, Hm. subst st'.
  eexists _, _, _. split; [reflexivity|].
  cbn [codeMonitorStates set_codeMonitorStates]. rewrite lookup_insert_eq.
  split; [reflexivity|]. subst st1.
  unfold buffer_edit, count_addition, reset_cycle, set_last. cbn.
  destruct (isDeleting state); repeat split.
Qed.

(** X7. Typing in quick succession is recorded at most once: an addition
    that follows another addition on the same surface by no more than
    [meaningfulEditTimeout] is never recorded, however large it is, and
    nothing is sent for it; every addition, recorded or not, restarts
    that wait. *)
Theorem rapid_addition_never_recorded
    t (e : string) state (c1 c2 : Text.text) (t1 t2 : Z) (d1 d2 : Template) :
  codeMonitorStates t !! e = Some state ->
  lastLength state < Text.length c1 ->
  Text.length c1 < Text.length c2 ->
  t2 - t1 <= meaningfulEditTimeout (codeMonitoringConfig t) ->
  exists ta oa tb,
    _smartRecordCodeChange t t1 d1 e c1 = Some (ta, oa)
    /\ _smartRecordCodeChange ta t2 d2 e c2 = Some (tb, [])
    /\ significantEdits tb = significantEdits ta
    /\ problemEvents tb = problemEvents ta.
Proof.
  intros Hl H1 H2 Hquick.
  destruct (smartRecordCodeChange_addition t t1 d1 e c1 state Hl H1)
    as (ta & oa & sta & Hs1 & Hla & Hda & Hma & Hlena).
  pose proof (smartRecordCodeChange_config _ _ _ _ _ _ _ Hs1) as Hcfg.
  exists ta, oa. unfold _smartRecordCodeChange at 2. rewrite Hla, Hlena.
  destruct (Z.ltb_spec (Text.length c2 - Text.length c1) 0); [lia|].
  rewrite Z.gtb_ltb.
  destruct (Z.ltb_spec 0 (Text.length c2 - Text.length c1)); [|lia].
  unfold _handleAddition, set_last. cbn [isDeleting lastMeaningfulEdit]. rewrite Hda, Hma, Hcfg.
  rewrite (Z.gtb_ltb (t2 - t1)).
  destruct (Z.ltb_spec (meaningfulEditTimeout (codeMonitoringConfig t)) (t2 - t1)); [lia|].
  rewrite andb_false_r. eexists. split; [exact Hs1|]. split; [reflexivity|].
  split; reflexivity.
Qed.

(** The counting reduction [acc[k] = (acc[k] || 0) + 1] in closed form. *)
Lemma count_step_fold (key : EditRecord -> string) (edits : list EditRecord)
    (acc : gmap string Z) (k : string) :
  foldl (count_step key) acc edits !! k
  = let n := Z.of_nat (length (List.filter (fun r => String.eqb (key r) k) edits)) in
    if n =? 0 then acc !! k else Some (default 0 (acc !! k) + n).
Proof.
  revert acc. induction edits as [|r rest IH]; intros acc; [reflexivity|].
  cbn [foldl List.filter]. rewrite IH. cbv zeta. unfold count_step.
  destruct (String.eqb_spec (key r) k) as [->|Hne].
  - rewrite lookup_insert_eq. cbn [length default].
    generalize (length (List.filter (fun r0 => String.eqb (key r0) k) rest)).
    intros n. unfold id.
    destruct (Z.eqb_spec (Z.of_nat n) 0) as [Hz|Hz];
      destruct (Z.eqb_spec (Z.of_nat (S n)) 0); try lia; apply (f_equal Some); lia.
  - rewrite lookup_insert_ne by exact Hne. reflexivity.
Qed.

(** Every record a run adds is an ['edit_cycle'] or an ['addition'] of a
    surface that has a state. *)
Lemma run_records_known (signals : list Signal) t t' (o : list output) :
  run t signals = Some (t', o) ->
  Forall (fun r => (record_type r = "edit_cycle" \/ record_type r = "addition")
                   /\ is_Some (codeMonitorStates t !! record_editor r)) (significantEdits t) ->
  Forall (fun r => (record_type r = "edit_cycle" \/ record_type r = "addition")
                   /\ is_Some (codeMonitorStates t' !! record_editor r)) (significantEdits t').
Proof.
  revert t t' o. induction signals as [|s rest IH]; intros t t' o Hr Hall.
  - injection Hr as <- <-. exact Hall.
  - cbn [run] in Hr.
    destruct (_smartRecordCodeChange t (at_time s) (drawn s) (surface s) (content s))
      as [[t1 o1]|] eqn:Hs; [|discriminate].
    destruct (run t1 rest) as [[t2 o2]|] eqn:Hrest; [|discriminate].
    injection Hr as <- <-. apply (IH t1 t2 o2 Hrest). clear IH Hrest.
    destruct (smartRecordCodeChange_cases _ _ _ _ _ _ _ Hs)
      as (state & ta & m & Hl & Ht1 & Hcase).
    destruct (smartRecordCodeChange_buffer t (at_time s) (drawn s) (surface s) (content s)
                state Hl) as (tb & ob & stb & Hsb & Hm & _).
    rewrite Hs in Hsb. injection Hsb as <- <-.
    assert (Hkeep : forall k, is_Some (codeMonitorStates t !! k) ->
                              is_Some (codeMonitorStates t1 !! k)).
    { intros k Hk. rewrite Hm. destruct (decide (surface s = k)) as [->|Hne].
      - rewrite lookup_insert_eq. eexists; reflexivity.
      - rewrite lookup_insert_ne by exact Hne. exact Hk. }
    assert (Hold : Forall (fun r => (record_type r = "edit_cycle" \/ record_type r = "addition")
                     /\ is_Some (codeMonitorStates t1 !! record_editor r)) (significantEdits t)).
    { eapply Forall_impl; [exact Hall|]. intros r [Ht Hk]. split; [exact Ht|apply Hkeep, Hk]. }
    assert (Hnew : forall r,
              (record_type r = "edit_cycle" \/ record_type r = "addition") ->
              record_editor r = surface s ->
              Forall (fun r => (record_type r = "edit_cycle" \/ record_type r = "addition")
                     /\ is_Some (codeMonitorStates t1 !! record_editor r))
                (pushed (codeMonitoringConfig t) (significantEdits t) r)).
    { intros r Ht He.
      assert (Hfull : Forall (fun r => (record_type r = "edit_cycle" \/ record_type r = "addition")
                     /\ is_Some (codeMonitorStates t1 !! record_editor r))
                (significantEdits t ++ [r])).
      { apply Forall_app. split; [exact Hold|]. constructor; [|constructor].
        split; [exact Ht|]. rewrite He. apply Hkeep. rewrite Hl. eexists; reflexivity. }
      unfold pushed. destruct (_ >? _); [|exact Hfull].
      unfold shift. destruct (significantEdits t ++ [r]); [constructor|].
      inversion Hfull; assumption. }
    assert (Hh : significantEdits t1 = significantEdits ta) by (rewrite Ht1; reflexivity).
    rewrite Hh.
    destruct Hcase as [[-> _]|[(st & fl & _ & -> & _)|(ca & cl & -> & _)]].
    + exact Hold.
    + destruct (Z.lt_ge_cases (Z.abs (fl - deleteStartLength st))
                  (minChangeThreshold (codeMonitoringConfig t))) as [Hlt|Hge].
      * rewrite completeEditCycle_unrecorded by exact Hlt. exact Hold.
      * rewrite completeEditCycle_recorded by lia. cbv zeta. cbn [fst snd].
        rewrite problem_step_history. cbn [significantEdits set_significantEdits].
        apply Hnew; [left; reflexivity|reflexivity].
    + rewrite recordMeaningfulEdit_history. apply Hnew; [right; reflexivity|reflexivity].
Qed.

Lemma run_surfaces (signals : list Signal) t t' (o : list output) (k : string) :
  run t signals = Some (t', o) ->
  is_Some (codeMonitorStates t' !! k) -> is_Some (codeMonitorStates t !! k).
Proof.
  revert t t' o. induction signals as [|s rest IH]; intros t t' o Hr.
  - injection Hr as <- <-. auto.
  - cbn [run] in Hr.
    destruct (_smartRecordCodeChange t (at_time s) (drawn s) (surface s) (content s))
      as [[t1 o1]|] eqn:Hs; [|discriminate].
    destruct (run t1 rest) as [[t2 o2]|] eqn:Hrest; [|discriminate].
    injection Hr as <- <-. intros Hk. apply (IH t1 t2 o2 Hrest) in Hk.
    destruct (smartRecordCodeChange_cases _ _ _ _ _ _ _ Hs) as (state & _ & _ & Hl & _).
    destruct (smartRecordCodeChange_buffer t (at_time s) (drawn s) (surface s) (content s)
                state Hl) as (tb & ob & stb & Hsb & Hm & _).
    rewrite Hs in Hsb. injection Hsb as <- <-. rewrite Hm in Hk.
    destruct (decide (surface s = k)) as [<-|Hne].
    + rewrite Hl. eexists; reflexivity.
    + rewrite lookup_insert_ne in Hk by exact Hne. exact Hk.
Qed.

Lemma filter_split (key : EditRecord -> string) (a b : string) (edits : list EditRecord) :
  a <> b ->
  Forall (fun r => key r = a \/ key r = b) edits ->
  Z.of_nat (length (List.filter (fun r => String.eqb (key r) a) edits))
  + Z.of_nat (length (List.filter (fun r => String.eqb (key r) b) edits))
  = len edits.
Proof.
  intros Hab. unfold len. induction 1 as [|r rest Hr _ IH]; [reflexivity|].
  cbn [List.filter length].
  destruct Hr as [-> | ->].
  - rewrite String.eqb_refl. destruct (String.eqb_spec a b); [contradiction|].
    cbn [length]. lia.
  - rewrite String.eqb_refl. destruct (String.eqb_spec b a); [congruence|].
    cbn [length]. lia.
Qed.

(** X8. What [getCodingBehaviorAnalysis] counts after a reset: in a
    history built by a run that starts from [resetCodeMonitoring],
    [editsByType] and [editsByEditor] hold under each key the number of
    records with that type or editor, and no key without a record; the
    only types are ['edit_cycle'] and ['addition'], whose counts add up
    to the length of the history (the [totalSignificantEdits]), and the
    only editors are the three surfaces of the reset. *)
Theorem analysis_counts_after_reset (signals : list Signal) t t' (o : list output) :
  run (resetCodeMonitoring t) signals = Some (t', o) ->
  let h := significantEdits t' in
  (forall k,
     let n := Z.of_nat (length (List.filter (fun r => String.eqb (record_type r) k) h)) in
     editsByType h !! k = if n =? 0 then None else Some n)
  /\ (forall k,
     let n := Z.of_nat (length (List.filter (fun r => String.eqb (record_editor r) k) h)) in
     editsByEditor h !! k = if n =? 0 then None else Some n)
  /\ (forall k, is_Some (editsByType h !! k) -> k = "edit_cycle" \/ k = "addition")
  /\ (forall k, is_Some (editsByEditor h !! k) -> k = "html" \/ k = "css" \/ k = "js")
  /\ default 0 (editsByType h !! "edit_cycle") + default 0 (editsByType h !! "addition")
     = len h.
Proof.
  intros Hr h.
  assert (Hknown : Forall (fun r =>
            (record_type r = "edit_cycle" \/ record_type r = "addition")
            /\ is_Some (codeMonitorStates t' !! record_editor r)) h).
  { apply (run_records_known signals _ _ _ Hr). constructor. }
  assert (Hty : forall k,
     editsByType h !! k
     = if Z.of_nat (length (List.filter (fun r => String.eqb (record_type r) k) h)) =? 0
       then None else Some (Z.of_nat (length (List.filter (fun r => String.eqb (record_type r) k) h)))).
  { intros k. unfold editsByType. rewrite count_step_fold. cbv zeta.
    rewrite lookup_empty. reflexivity. }
  assert (Hed : forall k,
     editsByEditor h !! k
     = if Z.of_nat (length (List.filter (fun r => String.eqb (record_editor r) k) h)) =? 0
       then None else Some (Z.of_nat (length (List.filter (fun r => String.eqb (record_editor r) k) h)))).
  { intros k. unfold editsByEditor. rewrite count_step_fold. cbv zeta.
    rewrite lookup_empty. reflexivity. }
  assert (Hsome : forall (key : EditRecord -> string) k,
            List.filter (fun r => String.eqb (key r) k) h <> [] ->
            exists r, In r h /\ key r = k).
  { intros key k Hne.
    destruct (List.filter (fun r => String.eqb (key r) k) h) as [|r l] eqn:E; [contradiction|].
    assert (Hin : In r (List.filter (fun r => String.eqb (key r) k) h))
      by (rewrite E; left; reflexivity).
    apply List.filter_In in Hin. destruct Hin as [Hin Hk]. exists r. split; [exact Hin|].
    apply String.eqb_eq, Hk. }
  split; [exact Hty|]. split; [exact Hed|]. split; [|split].
  - intros k [n Hn]. rewrite Hty in Hn.
    destruct (List.filter (fun r => String.eqb (record_type r) k) h) as [|r l] eqn:E;
      [discriminate|].
    destruct (Hsome record_type k) as (r' & Hin & <-); [rewrite E; discriminate|].
    rewrite List.Forall_forall in Hknown.
    apply (Hknown r' Hin).
  - intros k [n Hn]. rewrite Hed in Hn.
    destruct (List.filter (fun r => String.eqb (record_editor r) k) h) as [|r l] eqn:E;
      [discriminate|].
    destruct (Hsome record_editor k) as (r' & Hin & <-); [rewrite E; discriminate|].
    rewrite List.Forall_forall in Hknown.
    destruct (Hknown r' Hin) as [_ Hk].
    apply (run_surfaces signals _ _ _ _ Hr) in Hk.
    unfold resetCodeMonitoring in Hk. cbn [codeMonitorStates] in Hk.
    destruct (decide (record_editor r' = "html")) as [->|H1]; [auto|].
    destruct (decide (record_editor r' = "css")) as [->|H2]; [auto|].
    destruct (decide (record_editor r' = "js")) as [->|H3]; [auto|].
    rewrite !lookup_insert_ne, lookup_empty in Hk by congruence.
    destruct Hk as [x Hx]. discriminate.
  - rewrite !Hty.
    rewrite <- (filter_split record_type "edit_cycle" "addition" h); [|discriminate|].
    + destruct (Z.eqb_spec (Z.of_nat (length (List.filter
                 (fun r => String.eqb (record_type r) "edit_cycle") h))) 0) as [->|_];
      destruct (Z.eqb_spec (Z.of_nat (length (List.filter
                 (fun r => String.eqb (record_type r) "addition") h))) 0) as [->|_];
      reflexivity.
    + eapply Forall_impl; [exact Hknown|]. intros r [Ht _]. exact Ht.
Qed.

End EditCycleRuns.

(** * Further properties of the click batch *)

Section ClickBatchRuns.

Import Timers ClickBatch.

Context {R : Type}.

Variable cfg : ClickCfg.

Implicit Types (s : State R) (events : list (Z * event R)).

Lemma armed_initial (bound : Z) : armed cfg bound (@initial R).
Proof. reflexivity. Qed.

Lemma armed_empty (bound : Z) s : armed cfg bound s -> _clickBatch s = [] -> s = initial.
Proof.
  unfold armed. destruct s as [b t]. cbn. intros H ->. cbn in H. rewrite H. reflexivity.
Qed.

Lemma expire_armed (bound now : Z) s :
  armed cfg bound s -> armed cfg bound (expire now s).1.
Proof.
  intros Ha. unfold expire. destruct (_clickBatchTimer s) as [h|] eqn:Ht; [|exact Ha].
  destruct (live h && (due h <=? now)); [|exact Ha].
  unfold armed in Ha. unfold _flushClickBatch. cbn [_clickBatch].
  destruct (_clickBatch s) eqn:Hb; [rewrite Ht in Ha; discriminate|].
  apply armed_initial.
Qed.

Lemma handle_armed (bound now : Z) (e : event R) s :
  now + Z.max 0 (flushInterval cfg) <= bound ->
  armed cfg bound s -> armed cfg bound (handle cfg now e s).1.
Proof.
  intros Hb Ha.
  assert (Hflush : forall f, armed cfg bound (_flushClickBatch now f s).1).
  { intros f. unfold _flushClickBatch. destruct (_clickBatch s) eqn:E; [exact Ha|].
    apply armed_initial. }
  destruct e as [rec| | |[|]]; cbn [handle]; try apply Hflush; try exact Ha.
  destruct (batch cfg); [|exact Ha].
  unfold _enqueueClick. cbn [_clickBatch _clickBatchTimer].
  destruct (Z.geb_spec (Z.of_nat (length (_clickBatch s ++ [rec]))) (maxBatchSize cfg))
    as [Hfull|Hroom].
  - unfold _flushClickBatch. cbn [_clickBatch].
    destruct (_clickBatch s ++ [rec]) eqn:E; [destruct (_clickBatch s); discriminate|].
    apply armed_initial.
  - unfold armed in Ha |- *.
    destruct (_clickBatchTimer s) as [h|] eqn:Ht.
    + cbn [_clickBatch _clickBatchTimer].
      destruct (_clickBatch s) as [|r0 b] eqn:Eb; [discriminate|].
      destruct Ha as (_ & h' & Hh & Hl & Hd). injection Hh as <-.
      cbn [app]. split; [exact Hroom|]. exists h. repeat split; assumption.
    + cbn [_clickBatch _clickBatchTimer].
      destruct (_clickBatch s ++ [rec]) eqn:E; [destruct (_clickBatch s); discriminate|].
      split; [exact Hroom|]. eexists. split; [reflexivity|]. split; [reflexivity|].
      cbn [due]. exact Hb.
Qed.

Lemma run_armed events : forall (bound : Z) s,
  Forall (fun e => e.1 + Z.max 0 (flushInterval cfg) <= bound) events ->
  armed cfg bound s -> armed cfg bound (run cfg events s).1.
Proof.
  induction events as [|[now e] rest IH]; intros bound s Hall Ha; [exact Ha|].
  inversion Hall as [|? ? Hnow Hrest]; subst. cbn [run].
  pose proof (expire_armed bound now s Ha) as H1.
  destruct (expire now s) as [s1 o1]. cbn [fst] in H1.
  pose proof (handle_armed bound now e s1 Hnow H1) as H2.
  destruct (handle cfg now e s1) as [s2 o2]. cbn [fst] in H2.
  specialize (IH bound s2 Hrest H2).
  destruct (run cfg rest s2) as [s3 o3]. exact IH.
Qed.

Lemma bound_exists events :
  exists bound : Z, Forall (fun e => e.1 + Z.max 0 (flushInterval cfg) <= bound) events.
Proof.
  induction events as [|e rest [b Hb]]; [exists 0; constructor|].
  exists (Z.max b (e.1 + Z.max 0 (flushInterval cfg))). constructor; [lia|].
  eapply Forall_impl; [exact Hb|]. cbn. intros; lia.
Qed.

(** X9. The buffer and its timer go together.  Whatever the page does and
    whenever, and whatever the configuration, after the handlers have run
    the buffer of clicks is empty exactly when no live timer is pending;
    an empty buffer leaves the state as it was at the start, and a buffer
    with clicks in it is shorter than [maxBatchSize]. *)
Theorem run_keeps_timer_with_buffer events :
  let s := (run cfg events initial).1 in
  (_clickBatch s = [] <-> pending (_clickBatchTimer s) = false)
  /\ (_clickBatch s = [] -> s = initial)
  /\ (_clickBatch s <> [] -> Z.of_nat (length (_clickBatch s)) < maxBatchSize cfg).
Proof.
  cbv zeta. destruct (bound_exists events) as [bound Hb].
  pose proof (run_armed events bound initial Hb (armed_initial bound)) as Ha.
  destruct (run cfg events initial) as [s o]. cbn [fst] in *.
  split; [|split].
  - split.
    + intros He. rewrite (armed_empty bound s Ha He). reflexivity.
    + unfold armed in Ha. destruct (_clickBatch s); [reflexivity|].
      destruct Ha as (_ & h & -> & Hl & _). cbn. rewrite Hl. discriminate.
  - apply (armed_empty bound s Ha).
  - unfold armed in Ha. destruct (_clickBatch s); [contradiction|]. intros _. apply Ha.
Qed.

Lemma armed_room (bound : Z) s :
  armed cfg bound s ->
  _clickBatch s <> [] -> Z.of_nat (length (_clickBatch s)) < maxBatchSize cfg.
Proof.
  unfold armed. destruct (_clickBatch s); [contradiction|]. intros [H _] _. exact H.
Qed.

(** The shape of the [page_click] events of a flush when the buffer is
    shorter than [maxBatchSize]. *)
Lemma flushClickBatch_batches (now : Z) (isFinal : bool) s :
  (_clickBatch s <> [] -> Z.of_nat (length (_clickBatch s)) < maxBatchSize cfg) ->
  Forall (fun o =>
    eventType o = "page_click"
    /\ 1 <= count (eventData o)
    /\ count (eventData o) = Z.of_nat (length (items (eventData o)))
    /\ count (eventData o) <= Z.max 1 (maxBatchSize cfg)
    /\ at_time o = now
    /\ final (eventData o) = isFinal) (_flushClickBatch now isFinal s).2.
Proof.
  unfold _flushClickBatch. destruct (_clickBatch s) as [|r b]; [constructor|].
  intros Hlen. specialize (Hlen ltac:(discriminate)).
  constructor; [|constructor]. cbn [length] in *. cbn.
  repeat split; lia.
Qed.

Lemma expire_batches (bound now : Z) s :
  armed cfg bound s ->
  Forall (fun o =>
    eventType o = "page_click"
    /\ 1 <= count (eventData o)
    /\ count (eventData o) = Z.of_nat (length (items (eventData o)))
    /\ count (eventData o) <= Z.max 1 (maxBatchSize cfg)
    /\ final (eventData o) = false) (expire now s).2.
Proof.
  intros Ha. unfold expire. destruct (_clickBatchTimer s) as [h|] eqn:Ht; [|constructor].
  destruct (live h && (due h <=? now)); [|constructor].
  eapply Forall_impl.
  - apply (flushClickBatch_batches (due h) false). cbn [_clickBatch].
    apply (armed_room bound s Ha).
  - cbn. intros o (H1 & H2 & H3 & H4 & _ & H6). auto.
Qed.

Lemma handle_batches (bound now : Z) (e : event R) s :
  armed cfg bound s ->
  Forall (fun o =>
    eventType o = "page_click"
    /\ 1 <= count (eventData o)
    /\ count (eventData o) = Z.of_nat (length (items (eventData o)))
    /\ count (eventData o) <= Z.max 1 (maxBatchSize cfg)
    /\ at_time o = now
    /\ final (eventData o) = leaves e) (handle cfg now e s).2.
Proof.
  intros Ha.
  destruct e as [rec| | |[|]]; cbn [handle leaves];
    try apply (flushClickBatch_batches now true s (armed_room bound s Ha)); try constructor.
  destruct (batch cfg).
  - unfold _enqueueClick. cbn [_clickBatch _clickBatchTimer].
    destruct (Z.geb_spec (Z.of_nat (length (_clickBatch s ++ [rec]))) (maxBatchSize cfg))
      as [Hfull|Hroom].
    + unfold _flushClickBatch. cbn [_clickBatch].
      destruct (_clickBatch s ++ [rec]) eqn:E; [constructor|]. rewrite <- E.
      constructor; [|constructor]. cbn. rewrite length_app. cbn [length].
      unfold armed in Ha. destruct (_clickBatch s) as [|r0 b0].
      * cbn. repeat split; lia.
      * destruct Ha as [Hlen _]. cbn [length] in *. repeat split; lia.
    + destruct (_clickBatchTimer s); constructor.
  - constructor; [|constructor]. cbn. repeat split; lia.
Qed.

(** X10. Every [page_click] event the batch sends carries at least one
    click, [count] is the number of its [items], and no batch holds more
    than [maxBatchSize] clicks (one click, if [maxBatchSize] is below 1);
    an event marked [final] is sent at the time of a [pagehide], a
    [beforeunload] or a [visibilitychange] to hidden, and by nothing else. *)
Theorem page_click_batches events :
  Forall (fun o =>
    eventType o = "page_click"
    /\ 1 <= count (eventData o)
    /\ count (eventData o) = Z.of_nat (length (items (eventData o)))
    /\ count (eventData o) <= Z.max 1 (maxBatchSize cfg)
    /\ (final (eventData o) = true ->
        exists e, In (at_time o, e) events /\ leaves e = true))
    (run cfg events initial).2.
Proof.
  destruct (bound_exists events) as [bound Hb].
  generalize (armed_initial bound). generalize (@initial R).
  induction events as [|[now e] rest IH]; intros s Ha; [constructor|].
  inversion Hb as [|? ? Hnow Hrest]; subst. cbn [run].
  pose proof (expire_armed bound now s Ha) as Ha1.
  pose proof (expire_batches bound now s Ha) as Ho1.
  destruct (expire now s) as [s1 o1]. cbn [fst snd] in *.
  pose proof (handle_armed bound now e s1 Hnow Ha1) as Ha2.
  pose proof (handle_batches bound now e s1 Ha1) as Ho2.
  destruct (handle cfg now e s1) as [s2 o2]. cbn [fst snd] in *.
  specialize (IH Hrest s2 Ha2). destruct (run cfg rest s2) as [s3 o3]. cbn [snd] in *.
  rewrite !Forall_app. split; [|split].
  - eapply Forall_impl; [exact Ho1|]. cbn. intros o (H1 & H2 & H3 & H4 & H5).
    repeat split; auto. rewrite H5. discriminate.
  - eapply Forall_impl; [exact Ho2|]. cbn. intros o (H1 & H2 & H3 & H4 & H5 & H6).
    repeat split; auto. intros Hf. exists e. rewrite H5, <- H6. split; [left; reflexivity|exact Hf].
  - eapply Forall_impl; [exact IH|]. cbn. intros o (H1 & H2 & H3 & H4 & H5).
    repeat split; auto. intros Hf. destruct (H5 Hf) as (e' & Hin & Hl).
    exists e'. split; [right; exact Hin|exact Hl].
Qed.

Lemma run_unbatched events :
  batch cfg = false ->
  (run cfg events initial).1 = initial
  /\ flushed (run cfg events initial).2 = clicked events.
Proof.
  intros Hb. induction events as [|[now e] rest [IHs IHo]]; [split; reflexivity|].
  cbn [run]. rewrite expire_initial.
  assert (Hh : (handle cfg now e initial).1 = initial
               /\ flushed (handle cfg now e initial).2 = clicked [(now, e)]).
  { destruct e as [rec| | |[|]]; cbn [handle]; rewrite ?Hb; split; reflexivity. }
  destruct (handle cfg now e initial) as [s2 o2]. cbn [fst snd] in Hh.
  destruct Hh as [-> Ho2].
  destruct (run cfg rest initial) as [s3 o3]. cbn [fst snd] in *.
  split; [exact IHs|]. unfold flushed, clicked in *. cbn [app flat_map] in *.
  rewrite app_nil_r in Ho2. rewrite flat_map_app, Ho2, IHo. reflexivity.
Qed.

(** Nothing is lost or repeated from the start of the page on, batching
    or not. *)
Lemma run_conserves_initial events :
  flushed (run cfg events initial).2 ++ _clickBatch (run cfg events initial).1
  = clicked events.
Proof.
  destruct (batch cfg) eqn:Hb.
  - apply (run_conserves cfg Hb events initial).
  - destruct (run_unbatched events Hb) as [-> ->]. apply app_nil_r.
Qed.

(** X11. Every click is delivered, once and in order.  Once the flush
    interval has passed since the last event, the buffer is empty, no
    timer is left, and the [items] of the [page_click] events sent, put
    end to end, are the clicks in the order they were made, whatever the
    configuration and whatever else happened on the page. *)
Theorem run_until_delivers_every_click events (horizon : Z) :
  Forall (fun e => e.1 + Z.max 0 (flushInterval cfg) <= horizon) events ->
  (run_until cfg events horizon initial).1 = initial
  /\ flushed (run_until cfg events horizon initial).2 = clicked events.
Proof.
  intros Hb. unfold run_until.
  pose proof (run_armed events horizon initial Hb (armed_initial horizon)) as Ha.
  pose proof (run_conserves_initial events) as Hc.
  destruct (run cfg events initial) as [s o]. cbn [fst snd] in *.
  pose proof (expire_conserves horizon s) as He.
  assert (Hs : (expire horizon s).1 = initial).
  { destruct (_clickBatch s) as [|r b] eqn:Eb.
    - rewrite (armed_empty horizon s Ha Eb). reflexivity.
    - unfold expire. unfold armed in Ha. rewrite Eb in Ha.
      destruct Ha as (_ & h & -> & -> & Hd). cbn [andb].
      destruct (Z.leb_spec (due h) horizon); [|lia].
      unfold _flushClickBatch. cbn [_clickBatch]. rewrite Eb. reflexivity. }
  destruct (expire horizon s) as [s' o']. cbn [fst snd] in *. subst s'.
  split; [reflexivity|]. cbn [_clickBatch initial] in He. rewrite app_nil_r in He.
  unfold flushed in *. rewrite flat_map_app. fold (@flushed R o). rewrite He. exact Hc.
Qed.

(** X12. Leaving the page delivers at once.  When the last thing to happen
    is a [pagehide], a [beforeunload] or a [visibilitychange] to hidden,
    every click made before it has been sent by then, with no wait for the
    flush interval: the buffer is empty, no timer is left, and no later
    moment adds an event. *)
Theorem page_leave_delivers_every_click events (now horizon : Z) (e : event R) :
  leaves e = true ->
  run_until cfg (events ++ [(now, e)]) horizon initial
  = run cfg (events ++ [(now, e)]) initial
  /\ (run cfg (events ++ [(now, e)]) initial).1 = initial
  /\ flushed (run cfg (events ++ [(now, e)]) initial).2 = clicked events.
Proof.
  intros Hl.
  assert (Hs : (run cfg (events ++ [(now, e)]) initial).1 = initial).
  { rewrite run_app. destruct (bound_exists events) as [bound Hb].
    pose proof (run_armed events bound initial Hb (armed_initial bound)) as Ha.
    destruct (run cfg events initial) as [s o]. cbn [fst] in Ha. cbn [run].
    pose proof (expire_armed bound now s Ha) as Ha1.
    destruct (expire now s) as [s1 o1]. cbn [fst] in Ha1.
    assert (Hf : (_flushClickBatch now true s1).1 = initial).
    { unfold _flushClickBatch. destruct (_clickBatch s1) eqn:Eb; [|reflexivity].
      apply (armed_empty bound s1 Ha1 Eb). }
    assert (Hh : handle cfg now e s1 = _flushClickBatch now true s1).
    { destruct e as [rec| | |[|]]; try discriminate; reflexivity. }
    rewrite Hh. destruct (_flushClickBatch now true s1) as [s2 o2]. exact Hf. }
  pose proof (run_conserves_initial (events ++ [(now, e)])) as Hc.
  unfold run_until. destruct (run cfg (events ++ [(now, e)]) initial) as [s o].
  cbn [fst snd] in *. subst s. rewrite expire_initial.
  split; [rewrite app_nil_r; reflexivity|]. split; [reflexivity|].
  cbn [_clickBatch initial] in Hc. rewrite app_nil_r in Hc. rewrite Hc.
  unfold clicked. rewrite flat_map_app. cbn [flat_map snd].
  destruct e as [rec| | |[|]]; try discriminate; rewrite !app_nil_r; reflexivity.
Qed.

End ClickBatchRuns.

(** * Further properties of the click batch with frequent areas *)

Section HotBatchRuns.

Import Timers HotBatch.

Context {R : Type}.

Variable cfg : ClickCfg.

Implicit Types (s : State R) (l : list (Z * R * bool)) (b : list R) (h : timer).

(** Clicks that arrive before the pending timer is due, without filling
    the batch, on a clock that does not run backwards: they join the
    buffer, the timer stays. *)
Lemma hot_run_fills l : forall (from : Z) b h (lf : Z),
  live h = true ->
  Forall (fun c => c.1.1 < due h) l ->
  ascending from l ->
  lf <= from ->
  Z.of_nat (length b + length l) < maxBatchSize cfg ->
  run cfg l {| _clickBatch := b; _clickBatchTimer := Some h; _lastFlushAt := lf |}
  = ({| _clickBatch := b ++ clicked l; _clickBatchTimer := Some h; _lastFlushAt := lf |}, []).
Proof.
  induction l as [|[[now rec] f] l IH]; intros from b h lf Hl Hin Hasc Hlf Hroom.
  - cbn. rewrite app_nil_r. reflexivity.
  - inversion Hin as [|? ? Hnow Hrest]; subst. destruct Hasc as [Hfrom Hasc].
    cbn [fst snd] in Hnow. cbn [length] in Hroom. cbn [run].
    unfold expire. cbn [_clickBatchTimer]. rewrite Hl. cbn [andb].
    destruct (Z.leb_spec (due h) now); [lia|].
    rewrite enqueueClick_without_reschedule by (cbn; lia).
    unfold enqueue_without_reschedule. cbn [_clickBatch _clickBatchTimer _lastFlushAt].
    destruct (Z.geb_spec (Z.of_nat (length (b ++ [rec]))) (maxBatchSize cfg)) as [Hfull|_];
      [rewrite length_app in Hfull; cbn [length] in Hfull; lia|].
    rewrite (IH now (b ++ [rec]) h lf Hl Hrest Hasc ltac:(lia));
      [|rewrite length_app; cbn [length]; lia].
    unfold clicked. cbn [map fst snd]. rewrite <- app_assoc. reflexivity.
Qed.

(** X13. The area of the first click of a batch decides when the batch is
    sent.  On a clock that does not run backwards, a first click in a
    frequent area opens a window of [frequentFlushInterval], any other
    first click one of [flushInterval]; the clicks that follow inside the
    window, frequent or not, join the batch without moving its end, and
    the batch is sent whole when the window ends, which is then the
    [_lastFlushAt]. *)
Theorem first_click_area_sets_window (t1 : Z) (r1 : R) (f1 : bool) l (T : Z) :
  0 <= t1 ->
  ascending t1 l ->
  Forall (fun c => c.1.1 < t1 + Z.max 0 (interval_of cfg f1)) l ->
  Z.of_nat (1 + length l) < maxBatchSize cfg ->
  t1 + Z.max 0 (interval_of cfg f1) <= T ->
  (run cfg ((t1, r1, f1) :: l) initial).2 = []
  /\ expire T (run cfg ((t1, r1, f1) :: l) initial).1
     = ({| _clickBatch := []; _clickBatchTimer := None;
           _lastFlushAt := t1 + Z.max 0 (interval_of cfg f1) |},
        _sendClickBatch (t1 + Z.max 0 (interval_of cfg f1)) (r1 :: clicked l)).
Proof.
  intros Ht1 Hasc Hin Hroom HT. cbn [run].
  change (expire t1 (@initial R)) with (@initial R, @nil (emitted R)).
  unfold _enqueueClick. cbn [_clickBatch _clickBatchTimer _lastFlushAt initial app length].
  destruct (Z.geb_spec (Z.of_nat 1) (maxBatchSize cfg)) as [Hfull|_]; [lia|].
  fold (interval_of cfg f1). unfold setTimeout.
  rewrite (hot_run_fills l t1 [r1] {| due := t1 + Z.max 0 (interval_of cfg f1); live := true |} 0);
    [|reflexivity|exact Hin|exact Hasc|exact Ht1|cbn [length]; lia].
  cbn [fst snd app]. split; [reflexivity|].
  unfold expire. cbn [_clickBatchTimer live due andb].
  destruct (Z.leb_spec (t1 + Z.max 0 (interval_of cfg f1)) T); [|lia].
  reflexivity.
Qed.

Lemma hot_flush_conserves (now : Z) s :
  flushed (_flushClickBatch now s).2 ++ _clickBatch (_flushClickBatch now s).1
  = _clickBatch s.
Proof.
  unfold _flushClickBatch. destruct (_clickBatch s) eqn:E; cbn.
  - exact E.
  - rewrite !app_nil_r. reflexivity.
Qed.

Lemma hot_expire_conserves (now : Z) s :
  flushed (expire now s).2 ++ _clickBatch (expire now s).1 = _clickBatch s.
Proof.
  unfold expire. destruct (_clickBatchTimer s) as [h|]; [|reflexivity].
  destruct (live h && (due h <=? now)); [|reflexivity].
  apply (hot_flush_conserves (due h)
           {| _clickBatch := _clickBatch s; _clickBatchTimer := Some (spent h);
              _lastFlushAt := _lastFlushAt s |}).
Qed.

Lemma hot_enqueue_conserves (now : Z) (rec : R) (f : bool) s :
  flushed (_enqueueClick cfg now rec f s).2 ++ _clickBatch (_enqueueClick cfg now rec f s).1
  = _clickBatch s ++ [rec].
Proof.
  unfold _enqueueClick. cbn [_clickBatch _clickBatchTimer _lastFlushAt].
  destruct (_ >=? _).
  - apply (hot_flush_conserves now
             {| _clickBatch := _clickBatch s ++ [rec];
                _clickBatchTimer := _clickBatchTimer s;
                _lastFlushAt := _lastFlushAt s |}).
  - destruct (_clickBatchTimer s); [destruct (_ <? _)|]; reflexivity.
Qed.

(** X14. In the revision with frequent areas no click is lost, repeated
    or reordered, whatever the clock does and whether or not a pending
    timer is rescheduled: the [items] of the [dom_click_stats] events sent
    so far, followed by the buffer, are the clicks made so far; and no
    event is empty, [count] being the number of its [items]. *)
Theorem hot_run_conserves l s :
  flushed (run cfg l s).2 ++ _clickBatch (run cfg l s).1 = _clickBatch s ++ clicked l
  /\ Forall (fun o =>
       eventType o = "dom_click_stats"
       /\ items (eventData o) <> []
       /\ count (eventData o) = Z.of_nat (length (items (eventData o))))
     (run cfg l s).2.
Proof.
  assert (Hflush : forall now s0,
            Forall (fun o =>
              eventType o = "dom_click_stats"
              /\ items (eventData o) <> []
              /\ count (eventData o) = Z.of_nat (length (items (eventData o))))
            (_flushClickBatch now s0).2).
  { intros now s0. unfold _flushClickBatch. destruct (_clickBatch s0); [constructor|].
    constructor; [|constructor]. cbn. repeat split. discriminate. }
  revert s. induction l as [|[[now rec] f] l IH]; intros s.
  - cbn. rewrite app_nil_r. split; [reflexivity|constructor].
  - cbn [run].
    pose proof (hot_expire_conserves now s) as H1.
    assert (Ho1 : Forall (fun o =>
              eventType o = "dom_click_stats"
              /\ items (eventData o) <> []
              /\ count (eventData o) = Z.of_nat (length (items (eventData o))))
            (expire now s).2).
    { unfold expire. destruct (_clickBatchTimer s) as [h|]; [|constructor].
      destruct (live h && (due h <=? now)); [apply Hflush|constructor]. }
    destruct (expire now s) as [s1 o1]. cbn [fst snd] in H1, Ho1.
    pose proof (hot_enqueue_conserves now rec f s1) as H2.
    assert (Ho2 : Forall (fun o =>
              eventType o = "dom_click_stats"
              /\ items (eventData o) <> []
              /\ count (eventData o) = Z.of_nat (length (items (eventData o))))
            (_enqueueClick cfg now rec f s1).2).
    { unfold _enqueueClick. cbn [_clickBatch _clickBatchTimer _lastFlushAt].
      destruct (_ >=? _); [apply Hflush|].
      destruct (_clickBatchTimer s1); [destruct (_ <? _)|]; constructor. }
    destruct (_enqueueClick cfg now rec f s1) as [s2 o2]. cbn [fst snd] in H2, Ho2.
    destruct (IH s2) as [H3 Ho3]. destruct (run cfg l s2) as [s3 o3]. cbn [fst snd] in *.
    split.
    + unfold flushed, clicked in *. cbn [map fst snd].
      rewrite !flat_map_app, <- !app_assoc, H3.
      rewrite (app_assoc _ (_clickBatch s2)), H2, <- H1.
      rewrite <- !app_assoc. reflexivity.
    + rewrite !Forall_app. auto.
Qed.

End HotBatchRuns.

(** * Further properties of the click record *)

Section ClickRecordTexts.

Import ClickRecord.

Implicit Types (s : Text.text).

Lemma drop_space_suffix s : exists k, s = k ++ drop_space s.
Proof.
  induction s as [|c rest [k Hk]]; [exists []; reflexivity|]. cbn [drop_space].
  destruct (is_space c).
  - exists (c :: k). cbn. rewrite <- Hk. reflexivity.
  - exists []. reflexivity.
Qed.

Lemma drop_space_head s c rest : drop_space s = c :: rest -> is_space c = false.
Proof.
  induction s as [|d s IH]; [discriminate|]. cbn [drop_space].
  destruct (is_space d) eqn:E; [exact IH|]. intros [= <- _]. exact E.
Qed.

(** A trimmed text does not start with white space. *)
Lemma trim_head s c rest : trim s = c :: rest -> is_space c = false.
Proof.
  unfold trim. intros H.
  destruct (drop_space_suffix (rev (drop_space s))) as [k Hk].
  apply (f_equal (@rev N)) in Hk. rewrite rev_involutive, rev_app_distr, H in Hk.
  cbn [app] in Hk. apply (drop_space_head s c _ Hk).
Qed.

Lemma collapse_single_spaced (b : bool) s : single_spaced b (collapse b s).
Proof.
  revert b. induction s as [|c rest IH]; intros b; [exact I|]. cbn [collapse].
  destruct (is_space c) eqn:E.
  - destruct b; [apply IH|]. cbn [single_spaced]. split; [auto|apply IH].
  - cbn [single_spaced]. rewrite E. split; [discriminate|apply IH].
Qed.

Lemma single_spaced_take (b : bool) (n : nat) s :
  single_spaced b s -> single_spaced b (take n s).
Proof.
  revert b s. induction n as [|n IH]; intros b [|c rest]; cbn; auto.
  intros [Hc Hrest]. split; [exact Hc|apply IH, Hrest].
Qed.

(** X15. The content collected from a clicked element is tidy, whatever
    the element and the limit: it is not empty, its only white space is
    U+0020, no two of these are adjacent and none comes first (the cut at
    [maxLen] may leave one at the end). *)
Theorem getInteractiveContent_single_spaced (el : Element) (maxLen : Z) (c : Text.text) :
  _getInteractiveContent el maxLen = Some c ->
  c <> [] /\ single_spaced true c.
Proof.
  unfold _getInteractiveContent. destruct (_ && _); [discriminate|].
  set (raw := if _ || _ then _ else _).
  assert (Hn : single_spaced true (collapse false (trim raw))).
  { destruct (trim raw) as [|u rest] eqn:E; [exact I|].
    pose proof (trim_head raw u rest E) as Hu.
    pose proof (collapse_single_spaced false (u :: rest)) as H.
    cbn [collapse single_spaced] in H |- *. rewrite Hu in H |- *.
    cbn [single_spaced] in H |- *. rewrite Hu in H |- *.
    split; [discriminate|apply H]. }
  set (n := collapse false (trim raw)) in *.
  assert (Hcut : single_spaced true (if Text.length n >? maxLen then slice0 n maxLen else n)).
  { destruct (_ >? _); [|exact Hn]. unfold slice0. apply single_spaced_take, Hn. }
  destruct (if Text.length n >? maxLen then slice0 n maxLen else n) as [|u rest];
    [discriminate|].
  intros [= <-]. split; [discriminate|exact Hcut].
Qed.

End ClickRecordTexts.

(** * Properties of the selector *)

Section SelectorFacts.

Import Selector.

Lemma parts_without_id (path : list Node) :
  Forall (fun m => id m = "") path -> parts path = rev (map segment path).
Proof.
  induction 1 as [|m path Hm _ IH]; [reflexivity|].
  cbn [parts map rev]. rewrite Hm, IH. reflexivity.
Qed.

(** X16. The selector starts at the nearest node with an [id], the
    element itself or an ancestor: that node gives the first part,
    [name#id], each node below it gives one part, in order from the top
    down to the element, and nothing above it is looked at; without any
    [id] on the way every node of the chain gives one part. *)
Theorem selector_rooted_at_nearest_id (below above : list Node) (n : Node) :
  Forall (fun m => id m = "") below ->
  parts below = rev (map segment below)
  /\ (id n <> "" ->
      parts (below ++ n :: above) = anchor n :: rev (map segment below)
      /\ _generateCssSelector (below ++ n :: above) = _generateCssSelector (below ++ [n])).
Proof.
  intros Hb. split; [apply parts_without_id, Hb|]. intros Hn.
  assert (Hp : forall rest, parts (below ++ n :: rest) = anchor n :: rev (map segment below)).
  { intros rest. induction Hb as [|m below Hm _ IH].
    - cbn [app parts map rev]. destruct (String.eqb_spec (id n) ""); [contradiction|reflexivity].
    - cbn [app parts map rev]. rewrite Hm, IH. reflexivity. }
  split; [apply Hp|]. unfold _generateCssSelector. rewrite (Hp above), (Hp []). reflexivity.
Qed.

End SelectorFacts.

(** * Further properties of idle tracking *)

Section IdleRuns.

Import Timers Idle.

Variable idleMs : Z.

Implicit Types (s : State) (events : list (Z * event)).

Lemma hints_app (a b : list emitted) : hints (a ++ b) = hints a ++ hints b.
Proof. apply flat_map_app. Qed.

Lemma idles_app (a b : list emitted) : idles (a ++ b) = idles a ++ idles b.
Proof. apply flat_map_app. Qed.

Lemma close_idle_frame (now : Z) (hidden : bool) (src : string) s :
  idleHintConfig (close_idle now hidden src s).1 = idleHintConfig s
  /\ _idleMsgIdx (close_idle now hidden src s).1 = _idleMsgIdx s
  /\ hints (close_idle now hidden src s).2 = [].
Proof. unfold close_idle. destruct (_idleStartTs s); repeat split. Qed.

Lemma handle_frame (now : Z) (e : event) s :
  idleHintConfig (handle idleMs now e s).1 = idleHintConfig s
  /\ _idleMsgIdx (handle idleMs now e s).1 = _idleMsgIdx s
  /\ hints (handle idleMs now e s).2 = [].
Proof.
  assert (Ha : forall hidden src,
            idleHintConfig (onActivity idleMs now hidden src s).1 = idleHintConfig s
            /\ _idleMsgIdx (onActivity idleMs now hidden src s).1 = _idleMsgIdx s
            /\ hints (onActivity idleMs now hidden src s).2 = []).
  { intros hidden src. unfold onActivity.
    pose proof (close_idle_frame now hidden src s) as H.
    destruct (close_idle now hidden src s) as [s1 o1]. exact H. }
  destruct e as [evt hidden|[|]|hidden]; cbn [handle].
  - apply Ha.
  - repeat split.
  - apply Ha.
  - apply close_idle_frame.
Qed.

(** A property of traces that holds of every step of idle tracking holds
    of every run: steps that leave the hint configuration and the message
    index alone and notify no hint, and [_maybeShowIdleHint]. *)
Lemma idle_run_relates (P : State -> list emitted -> State -> Prop) :
  (forall s o s',
     idleHintConfig s' = idleHintConfig s -> _idleMsgIdx s' = _idleMsgIdx s ->
     hints o = [] -> P s o s') ->
  (forall s o1 s1 o2 s2, P s o1 s1 -> P s1 o2 s2 -> P s (o1 ++ o2) s2) ->
  (forall now s, P s (_maybeShowIdleHint now s).2 (_maybeShowIdleHint now s).1) ->
  forall events s, P s (run idleMs events s).2 (run idleMs events s).1.
Proof.
  intros Hframe Htrans Hshow.
  assert (Hexp : forall now s, P s (expire idleMs now s).2 (expire idleMs now s).1).
  { intros now s. unfold expire.
    assert (H1 : P s [] (expire_idle idleMs now s)).
    { apply Hframe; unfold expire_idle; try reflexivity;
        (destruct (idleTimer s) as [h|]; [|reflexivity]);
        destruct (live h && (due h <=? now)); reflexivity. }
    set (s1 := expire_idle idleMs now s) in *.
    change (expire_hint now s1).2 with ([] ++ (expire_hint now s1).2).
    apply (Htrans s [] s1); [exact H1|].
    unfold expire_hint. destruct (_idleHintTimer s1) as [h|]; [|apply Hframe; reflexivity].
    destruct (live h && (due h <=? now)); [|apply Hframe; reflexivity].
    unfold onHintTimer. cbn [_idleStartTs].
    destruct (_idleStartTs s1); [|apply Hframe; reflexivity].
    match goal with
    | |- P _ (_maybeShowIdleHint ?n ?x).2 _ =>
        change (_maybeShowIdleHint n x).2 with ([] ++ (_maybeShowIdleHint n x).2);
        apply (Htrans s1 [] x); [apply Hframe; reflexivity|apply Hshow]
    end. }
  induction events as [|[now e] rest IH]; intros s; [apply Hframe; reflexivity|].
  cbn [run]. specialize (Hexp now s). destruct (expire idleMs now s) as [s1 o1].
  destruct (handle_frame now e s1) as (Hc & Hi & Hh).
  destruct (handle idleMs now e s1) as [s2 o2]. specialize (IH s2).
  destruct (run idleMs rest s2) as [s3 o3]. cbn [fst snd] in *.
  apply (Htrans s o1 s1); [exact Hexp|].
  apply (Htrans s1 o2 s2); [apply Hframe; assumption|exact IH].
Qed.

(** What [_maybeShowIdleHint] does, in full: nothing, or one notification
    with the message whose turn it is, the cool-down since the last one
    being over. *)
Lemma maybeShowIdleHint_effects (now : Z) s :
  let r := _maybeShowIdleHint now s in
  cooldownMs (idleHintConfig r.1) = cooldownMs (idleHintConfig s)
  /\ messages (idleHintConfig r.1) = messages (idleHintConfig s)
  /\ ((hints r.2 = []
       /\ lastHintTs (idleHintConfig r.1) = lastHintTs (idleHintConfig s)
       /\ _idleMsgIdx r.1 = _idleMsgIdx s)
      \/ (hints r.2 = [(now, next_message s)]
          /\ messages (idleHintConfig s) <> []
          /\ lastHintTs (idleHintConfig s) + cooldownMs (idleHintConfig s) <= now
          /\ lastHintTs (idleHintConfig r.1) = now
          /\ _idleMsgIdx r.1
             = S (_idleMsgIdx s mod length (messages (idleHintConfig s))))).
Proof.
  cbv zeta. unfold _maybeShowIdleHint, next_message.
  destruct (Z.ltb_spec (now - lastHintTs (idleHintConfig s)) (cooldownMs (idleHintConfig s))).
  - split; [reflexivity|]. split; [reflexivity|]. left. repeat split.
  - destruct (messages (idleHintConfig s)) as [|m ms] eqn:Em.
    + cbn [fst snd]. split; [reflexivity|]. split; [exact Em|]. left. repeat split.
    + cbn [fst snd idleHintConfig cooldownMs messages lastHintTs _idleMsgIdx].
      split; [reflexivity|]. split; [first [exact Em|reflexivity]|]. right.
      rewrite (nth_indep (m :: ms) m "") by (apply Nat.mod_upper_bound; discriminate).
      split; [reflexivity|]. split; [discriminate|]. split; [lia|]. split; [reflexivity|].
      rewrite Nat.add_1_r. reflexivity.
Qed.

(** X17. Idle hints keep their distance: in any run of idle tracking,
    whatever the events and their times, each hint notification comes at
    least [cooldownMs] after the one before (the first after the
    [lastHintTs] the run started with), [lastHintTs] ends as the time of
    the last notification, and the cool-down and the messages are never
    changed. *)
Theorem idle_hints_spaced events s :
  let r := run idleMs events s in
  EditCycle.spaced (cooldownMs (idleHintConfig s)) (lastHintTs (idleHintConfig s))
    (map fst (hints r.2))
  /\ lastHintTs (idleHintConfig r.1)
     = List.last (map fst (hints r.2)) (lastHintTs (idleHintConfig s))
  /\ cooldownMs (idleHintConfig r.1) = cooldownMs (idleHintConfig s)
  /\ messages (idleHintConfig r.1) = messages (idleHintConfig s).
Proof.
  cbv zeta. revert events s.
  apply (idle_run_relates (fun s o s' =>
    EditCycle.spaced (cooldownMs (idleHintConfig s)) (lastHintTs (idleHintConfig s))
      (map fst (hints o))
    /\ lastHintTs (idleHintConfig s')
       = List.last (map fst (hints o)) (lastHintTs (idleHintConfig s))
    /\ cooldownMs (idleHintConfig s') = cooldownMs (idleHintConfig s)
    /\ messages (idleHintConfig s') = messages (idleHintConfig s))).
  - intros s o s' Hc _ Hh. rewrite Hh, Hc. cbn. repeat split.
  - intros s o1 s1 o2 s2 (Hs1 & Hl1 & Hc1 & Hm1) (Hs2 & Hl2 & Hc2 & Hm2).
    rewrite hints_app, map_app. rewrite Hc1, Hl1 in Hs2. rewrite Hl1 in Hl2.
    split; [apply spaced_app; assumption|].
    split; [rewrite last_app_default; exact Hl2|]. split; congruence.
  - intros now s. destruct (maybeShowIdleHint_effects now s) as (Hc & Hm & Hcase).
    destruct Hcase as [(-> & Hl & _)|(-> & _ & Hcool & Hl & _)]; cbn [map fst List.last].
    + repeat split; assumption.
    + cbn [EditCycle.spaced]. repeat split; assumption.
Qed.

Lemma rotation_app (msgs : list string) (start a b : nat) :
  rotation msgs start (a + b) = rotation msgs start a ++ rotation msgs (start + a) b.
Proof.
  unfold rotation. rewrite seq_app, map_app. f_equal. cbn [Nat.add].
  assert (Hs : seq a b = map (fun x => (a + x)%nat) (seq 0 b)).
  { pose proof (fmap_add_seq a 0 b) as H. rewrite Nat.add_0_r in H. symmetry. exact H. }
  rewrite Hs, map_map. apply map_ext. intros i. rewrite Nat.add_assoc. reflexivity.
Qed.

Lemma rotation_mod (msgs : list string) (i j count : nat) :
  (i mod length msgs = j mod length msgs)%nat ->
  rotation msgs i count = rotation msgs j count.
Proof.
  intros H. unfold rotation. apply map_ext. intros k.
  rewrite (Nat.Div0.add_mod i k), (Nat.Div0.add_mod j k), H. reflexivity.
Qed.

(** X18. The messages take turns.  The hints notified in a run show the
    messages of the configuration one after the other, starting with the
    one at [_idleMsgIdx] and beginning again after the last; a hint that
    is held back by the cool-down does not use up a message. *)
Theorem idle_hints_rotate events s :
  let r := run idleMs events s in
  map snd (hints r.2)
  = rotation (messages (idleHintConfig s)) (_idleMsgIdx s) (length (hints r.2)).
Proof.
  cbv zeta.
  enough (H : messages (idleHintConfig (run idleMs events s).1) = messages (idleHintConfig s)
              /\ map snd (hints (run idleMs events s).2)
                 = rotation (messages (idleHintConfig s)) (_idleMsgIdx s)
                     (length (hints (run idleMs events s).2))
              /\ (_idleMsgIdx (run idleMs events s).1 mod length (messages (idleHintConfig s))
                  = (_idleMsgIdx s + length (hints (run idleMs events s).2))
                    mod length (messages (idleHintConfig s)))%nat) by apply H.
  revert events s.
  apply (idle_run_relates (fun s o s' =>
    messages (idleHintConfig s') = messages (idleHintConfig s)
    /\ map snd (hints o)
       = rotation (messages (idleHintConfig s)) (_idleMsgIdx s) (length (hints o))
    /\ (_idleMsgIdx s' mod length (messages (idleHintConfig s))
        = (_idleMsgIdx s + length (hints o)) mod length (messages (idleHintConfig s)))%nat)).
  - intros s o s' Hc Hi Hh. rewrite Hh, Hc, Hi. cbn [length]. rewrite Nat.add_0_r.
    repeat split.
  - intros s o1 s1 o2 s2 (Hm1 & Hr1 & Hi1) (Hm2 & Hr2 & Hi2).
    rewrite Hm1 in Hm2, Hr2, Hi2. rewrite hints_app, map_app, length_app.
    split; [exact Hm2|]. split.
    + rewrite rotation_app, Hr1, Hr2. f_equal. apply rotation_mod, Hi1.
    + rewrite Hi2, Nat.add_assoc.
      rewrite (Nat.Div0.add_mod (_idleMsgIdx s1)), Hi1, <- Nat.Div0.add_mod. reflexivity.
  - intros now s. destruct (maybeShowIdleHint_effects now s) as (_ & Hm & Hcase).
    split; [exact Hm|].
    destruct Hcase as [(-> & _ & ->)|(-> & Hne & _ & _ & ->)]; cbn [map snd length].
    + rewrite Nat.add_0_r. split; reflexivity.
    + split.
      * unfold rotation, next_message. cbn [seq map]. rewrite Nat.add_0_r. reflexivity.
      * rewrite <- Nat.add_1_r, Nat.Div0.add_mod_idemp_l. reflexivity.
Qed.

Lemma expire_hint_frame (now : Z) s :
  idleTimer (expire_hint now s).1 = idleTimer s
  /\ _lastActivityTs (expire_hint now s).1 = _lastActivityTs s
  /\ _idleStartTs (expire_hint now s).1 = _idleStartTs s
  /\ idles (expire_hint now s).2 = [].
Proof.
  unfold expire_hint. destruct (_idleHintTimer s) as [h|]; [|repeat split].
  destruct (live h && (due h <=? now)); [|repeat split].
  unfold onHintTimer. cbn [_idleStartTs].
  destruct (_idleStartTs s) as [st|]; [|repeat split].
  unfold _maybeShowIdleHint. cbn [idleHintConfig _idleMsgIdx _lastActivityTs _idleStartTs].
  destruct (_ <? _); [repeat split|].
  destruct (messages (idleHintConfig s)); repeat split.
Qed.

(** The idle timer is due [idleMs] after the last activity, and an open
    idle session began at least [idleMs] before [clock]. *)
Lemma expire_keeps_onset (from now : Z) s :
  from <= now ->
  (forall h, idleTimer s = Some h -> due h = _lastActivityTs s + Z.max 0 idleMs) ->
  (forall start, _idleStartTs s = Some start -> start + Z.max 0 idleMs <= from) ->
  (forall h, idleTimer (expire idleMs now s).1 = Some h ->
             due h = _lastActivityTs (expire idleMs now s).1 + Z.max 0 idleMs)
  /\ (forall start, _idleStartTs (expire idleMs now s).1 = Some start ->
                    start + Z.max 0 idleMs <= now)
  /\ idles (expire idleMs now s).2 = [].
Proof.
  intros Hclock Htimer Hstart. unfold expire.
  assert (H1 : (forall h, idleTimer (expire_idle idleMs now s) = Some h ->
                  due h = _lastActivityTs (expire_idle idleMs now s) + Z.max 0 idleMs)
               /\ (forall start, _idleStartTs (expire_idle idleMs now s) = Some start ->
                     start + Z.max 0 idleMs <= now)).
  { unfold expire_idle. destruct (idleTimer s) as [h|] eqn:Eh.
    - destruct (live h && (due h <=? now)) eqn:Efire.
      + apply andb_true_iff in Efire as [_ Hdue]. apply Z.leb_le in Hdue.
        pose proof (Htimer h eq_refl) as Hh. unfold onIdleTimer.
        cbn [idleTimer _lastActivityTs _idleStartTs]. rewrite Eh. split.
        * intros h' [= <-]. cbn. exact Hh.
        * intros start. destruct (_idleStartTs s) as [st|] eqn:Es.
          -- intros [= <-]. specialize (Hstart st eq_refl). lia.
          -- intros [= <-]. lia.
      + split; [rewrite Eh; exact Htimer|].
        intros start Hs. specialize (Hstart start Hs). lia.
    - split; [rewrite Eh; discriminate|].
      intros start Hs. specialize (Hstart start Hs). lia. }
  destruct H1 as [Ht1 Hs1]. set (s1 := expire_idle idleMs now s) in *.
  destruct (expire_hint_frame now s1) as (-> & -> & -> & ->). auto.
Qed.

Lemma handle_keeps_onset (now : Z) (e : event) s :
  (forall h, idleTimer s = Some h -> due h = _lastActivityTs s + Z.max 0 idleMs) ->
  (forall start, _idleStartTs s = Some start -> start + Z.max 0 idleMs <= now) ->
  (forall h, idleTimer (handle idleMs now e s).1 = Some h ->
             due h = _lastActivityTs (handle idleMs now e s).1 + Z.max 0 idleMs)
  /\ (forall start, _idleStartTs (handle idleMs now e s).1 = Some start ->
                    start + Z.max 0 idleMs <= now)
  /\ Forall (fun x => sent_at x = now /\ to_ts x = now
                      /\ lasted x = to_ts x - from_ts x
                      /\ Z.max 0 idleMs <= lasted x)
       (idles (handle idleMs now e s).2).
Proof.
  intros Htimer Hstart.
  assert (Hclose : forall hidden src,
    Forall (fun x => sent_at x = now /\ to_ts x = now
                     /\ lasted x = to_ts x - from_ts x
                     /\ Z.max 0 idleMs <= lasted x)
      (idles (close_idle now hidden src s).2)
    /\ _idleStartTs (close_idle now hidden src s).1 = None
    /\ idleTimer (close_idle now hidden src s).1 = idleTimer s
    /\ _lastActivityTs (close_idle now hidden src s).1 = _lastActivityTs s).
  { intros hidden src. unfold close_idle. destruct (_idleStartTs s) as [st|] eqn:Es.
    - cbn. specialize (Hstart st eq_refl). repeat split; try lia.
      constructor; [|constructor]. cbn. repeat split; lia.
    - cbn. repeat split; [constructor|exact Es]. }
  assert (Hact : forall hidden src,
    (forall h, idleTimer (onActivity idleMs now hidden src s).1 = Some h ->
               due h = _lastActivityTs (onActivity idleMs now hidden src s).1 + Z.max 0 idleMs)
    /\ (forall start, _idleStartTs (onActivity idleMs now hidden src s).1 = Some start ->
                      start + Z.max 0 idleMs <= now)
    /\ Forall (fun x => sent_at x = now /\ to_ts x = now
                        /\ lasted x = to_ts x - from_ts x
                        /\ Z.max 0 idleMs <= lasted x)
         (idles (onActivity idleMs now hidden src s).2)).
  { intros hidden src. unfold onActivity.
    destruct (Hclose hidden src) as (Ho & Hs & _).
    destruct (close_idle now hidden src s) as [s1 o1]. cbn [fst snd] in *.
    unfold scheduleIdleAndHint. cbn [idleTimer _lastActivityTs _idleStartTs].
    split; [intros h [= <-]; reflexivity|]. split; [rewrite Hs; discriminate|exact Ho]. }
  destruct e as [evt hidden|[|]|hidden]; cbn [handle].
  - apply Hact.
  - cbn [fst snd idles flat_map]. repeat split; [exact Htimer|exact Hstart|constructor].
  - apply Hact.
  - destruct (Hclose hidden "pagehide") as (Ho & Hs & Ht & Hl).
    rewrite Hs, Ht, Hl. split; [exact Htimer|]. split; [discriminate|exact Ho].
Qed.

(** X19. An idle span is never shorter than the threshold.  On a clock
    that does not run backwards, every [user_idle] event sent after
    [initIdleAndFocus] reports a span that ends when the event is sent,
    whose [duration_ms] is the difference of its two timestamps, and that
    lasted at least [idleMs]. *)
Theorem user_idle_lasts_at_least_idleMs (at_ : Z) (c : IdleHintConfig) events :
  ascending at_ events ->
  Forall (fun x => to_ts x = sent_at x
                   /\ lasted x = to_ts x - from_ts x
                   /\ Z.max 0 idleMs <= lasted x)
    (idles (run idleMs events (initIdleAndFocus idleMs at_ c)).2).
Proof.
  assert (Hrun : forall events (from : Z) s,
    ascending from events ->
    (forall h, idleTimer s = Some h -> due h = _lastActivityTs s + Z.max 0 idleMs) ->
    (forall start, _idleStartTs s = Some start -> start + Z.max 0 idleMs <= from) ->
    Forall (fun x => to_ts x = sent_at x
                     /\ lasted x = to_ts x - from_ts x
                     /\ Z.max 0 idleMs <= lasted x)
      (idles (run idleMs events s).2)).
  { clear events. induction events as [|[now e] rest IH]; intros from s Hasc Ht Hs;
      [constructor|].
    destruct Hasc as [Hfrom Hasc]. cbn [run].
    destruct (expire_keeps_onset from now s Hfrom Ht Hs) as (Ht1 & Hs1 & Ho1).
    destruct (expire idleMs now s) as [s1 o1]. cbn [fst snd] in *.
    destruct (handle_keeps_onset now e s1 Ht1 Hs1) as (Ht2 & Hs2 & Ho2).
    destruct (handle idleMs now e s1) as [s2 o2]. cbn [fst snd] in *.
    specialize (IH now s2 Hasc Ht2 Hs2). destruct (run idleMs rest s2) as [s3 o3].
    cbn [snd] in *. rewrite !idles_app, Ho1. cbn [app]. apply Forall_app. split; [|exact IH].
    eapply Forall_impl; [exact Ho2|]. cbn. intros x (H1 & H2 & H3 & H4).
    repeat split; congruence || assumption. }
  intros Hasc. apply (Hrun events at_ _ Hasc).
  - intros h [= <-]. reflexivity.
  - discriminate.
Qed.

End IdleRuns.

(** * Further properties of delivery *)

Section DeliveryRuns.

Import Delivery.

Context {D : Type}.

Implicit Types (w : Transport) (i : Identity) (p : Envelope D).

(** X20. [_sendPayload], in the revisions that try the beacon and then
    [fetch], keeps every failure to itself: it returns normally whatever
    the browser does, calls a transport at most once, to the address it
    was given and with the envelope it was handed, and logs exactly one
    warning when the transport fails in a way it can see, none
    otherwise. *)
Theorem sendPayload_contains_failures w (target : string) (cred : option string) p :
  let r := beacon_or_fetch w target cred p in
  snd r = Normal tt
  /\ (length (List.filter is_transport (fst r)) <= 1)%nat
  /\ length (List.filter is_warning (fst r)) = (if transport_fails w then 1 else 0)%nat
  /\ Forall (fun e =>
       is_transport e = true ->
       carried e = Some p
       /\ match e with
          | SendBeacon u _ _ => u = target
          | Fetch q => url q = target /\ credentials q = cred
          | _ => False
          end) (fst r).
Proof.
  cbv zeta. unfold beacon_or_fetch, stringify, transport_fails.
  destruct (navigator_declared w), (sendBeacon w), (stringify_ok w),
    (fetch w) as [|[|]]; cbn; repeat split; try lia;
    repeat (constructor; cbn; try discriminate; auto).
Qed.

(** X21. The beacon has no fallback.  Where [navigator.sendBeacon] is a
    function, [fetch] is never called: what happens does not depend on
    what [fetch] would do, nor on whether the browser accepted the beacon,
    so a refused beacon (a [false] result) loses the event without a
    warning. *)
Theorem beacon_has_no_fallback w (target : string) (cred : option string) p (queued : bool) :
  navigator_declared w = true ->
  sendBeacon w = BeaconReturns queued ->
  beacon_or_fetch w target cred p
  = if stringify_ok w then ([SendBeacon target "application/json" p], Normal tt)
    else ([ConsoleWarn SendException], Normal tt).
Proof.
  intros Hn Hb. unfold beacon_or_fetch, stringify. rewrite Hn, Hb.
  destruct (stringify_ok w); reflexivity.
Qed.

(** X22. Who can break the caller.  [logEvent] over the beacon-or-fetch
    [_sendPayload] never raises.  Over the [apiClient] revision, which has
    no [try], it raises exactly when there is an identity and either
    [window.apiClient] is [null], or [postWithoutAuth] throws, or what it
    returns is not a promise; on [null] it raises before anything is
    logged or sent.  A client that is undefined, or has no such method,
    costs one [console.error] and no transport call; a promise costs one
    call, and one warning if it is rejected. *)
Theorem logEvent_raises_only_through_apiClient
    w (target : string) (cred : option string) (apiClient : client)
    i (now : Z) (eventType : string) (eventData : D) :
  snd (logEvent (beacon_or_fetch w target cred) i now eventType eventData) = Normal tt
  /\ (snd (logEvent (_sendPayload_apiClient apiClient) i now eventType eventData) = Raised
      <-> no_identity i = false
          /\ (apiClient = ClientNull
              \/ apiClient = ClientWith PostThrows
              \/ apiClient = ClientWith (PostReturns ReturnsOther)))
  /\ (no_identity i = false ->
      exists p,
        participant_id p <> Js.Null
        /\ event_type p = eventType /\ event_data p = eventData /\ timestamp p = now
        /\ logEvent (_sendPayload_apiClient apiClient) i now eventType eventData
           = match apiClient with
             | ClientUndefined | ClientWithout =>
                 ([ConsoleError ApiClientMissing], Normal tt)
             | ClientNull => ([], Raised)
             | ClientWith PostThrows | ClientWith (PostReturns ReturnsOther) =>
                 ([ApiPost "/behavior/log" p], Raised)
             | ClientWith (PostReturns (ReturnsPromise Fulfilled)) =>
                 ([ApiPost "/behavior/log" p], Normal tt)
             | ClientWith (PostReturns (ReturnsPromise Rejected)) =>
                 ([ApiPost "/behavior/log" p; ConsoleWarn PostFailed], Normal tt)
             end).
Proof.
  unfold logEvent. rewrite resolve_participant_truthy.
  destruct (no_identity i) eqn:Hid; cbn [negb].
  - split; [reflexivity|]. split; [|discriminate].
    split; [discriminate|intros [? _]; discriminate].
  - split; [apply beacon_or_fetch_returns|]. split.
    + destruct apiClient as [| | |[|[[|]|]]]; cbn; split; try discriminate; auto;
        intros [_ [?|[?|?]]]; discriminate.
    + intros _. eexists. split; [|split; [|split; [|split]]].
      5: destruct apiClient as [| | |[|[[|]|]]]; reflexivity.
      * cbn [participant_id]. apply truthy_not_null.
        rewrite resolve_participant_truthy, Hid. reflexivity.
      * reflexivity.
      * reflexivity.
      * reflexivity.
Qed.

Lemma strip_slash_slash (b : string) : strip_slash (String.append b "/") = b.
Proof.
  induction b as [|c b IH]; [reflexivity|].
  change (String.append (String c b) "/") with (String c (String.append b "/")).
  destruct (String.append b "/") as [|a rest] eqn:E; [destruct b; discriminate|].
  change (strip_slash (String c (String a rest)))
    with (String c (strip_slash (String a rest))).
  rewrite IH. reflexivity.
Qed.

Lemma strip_slash_other (b : string) :
  (forall b', b <> String.append b' "/") -> strip_slash b = b.
Proof.
  induction b as [|c b IH]; intros Hno; [reflexivity|].
  destruct b as [|a rest].
  - cbn [strip_slash]. destruct (Ascii.eqb_spec c (Ascii.ascii_of_nat 47)) as [->|_];
      [|reflexivity].
    exfalso. apply (Hno ""). reflexivity.
  - change (strip_slash (String c (String a rest)))
      with (String c (strip_slash (String a rest))).
    rewrite IH; [reflexivity|].
    intros b' Hb. apply (Hno (String c b')). rewrite Hb. reflexivity.
Qed.

(** X23. Where the events go.  A non-empty string given to [init] is the
    endpoint as it stands.  Otherwise the first of [window.__API_BASE__]
    and the [api-base] meta tag that is not empty gives the base, and the
    endpoint is that base followed by [/api/v1/behavior/log]: a base
    without a slash at its end is used whole, a base with one loses that
    one slash and nothing more.  With neither, the endpoint is that path
    alone.  The endpoint is never the empty string. *)
Theorem resolveBehaviorEndpoint_precedence
    (configEndpoint : Js.value) (api_base meta_content : option string) (b : string) :
  (forall s, configEndpoint = Js.Str s -> s <> "" ->
     resolveBehaviorEndpoint configEndpoint api_base meta_content = s)
  /\ (forall c absent,
        (forall s, c = Js.Str s -> s = "") ->
        absent = None \/ absent = Some "" ->
        (resolveBehaviorEndpoint c (Some (String.append b "/")) meta_content
         = String.append b log_path
         /\ resolveBehaviorEndpoint c absent (Some (String.append b "/"))
            = String.append b log_path)
        /\ (b <> "" -> (forall b', b <> String.append b' "/") ->
            resolveBehaviorEndpoint c (Some b) meta_content = String.append b log_path
            /\ resolveBehaviorEndpoint c absent (Some b) = String.append b log_path)
        /\ (forall absent',
              absent' = None \/ absent' = Some "" ->
              resolveBehaviorEndpoint c absent absent' = log_path))
  /\ resolveBehaviorEndpoint configEndpoint api_base meta_content <> "".
Proof.
  assert (Hslash : from_base (Some (String.append b "/")) = Some (String.append b log_path)).
  { unfold from_base. rewrite strip_slash_slash.
    destruct (String.eqb_spec (String.append b "/") ""); [destruct b; discriminate|reflexivity]. }
  assert (Hplain : b <> "" -> (forall b', b <> String.append b' "/") ->
                   from_base (Some b) = Some (String.append b log_path)).
  { intros Hb Hno. unfold from_base. rewrite (strip_slash_other b Hno).
    destruct (String.eqb_spec b ""); [contradiction|reflexivity]. }
  assert (Habsent : forall a, a = None \/ a = Some "" -> from_base a = None).
  { intros a [->| ->]; reflexivity. }
  assert (Hne : forall base, default log_path (from_base base) <> "").
  { intros [x|]; [|discriminate]. unfold from_base.
    destruct (String.eqb_spec x ""); [discriminate|]. cbn [default].
    destruct (strip_slash x); discriminate. }
  assert (Hrest : default (default log_path (from_base meta_content)) (from_base api_base) <> "").
  { destruct (from_base api_base) as [x|] eqn:E; [|apply Hne].
    specialize (Hne api_base). rewrite E in Hne. exact Hne. }
  split; [|split].
  - intros s -> Hs. unfold resolveBehaviorEndpoint.
    destruct (String.eqb_spec s ""); [contradiction|reflexivity].
  - intros c absent Hc Ha.
    assert (Hskip : forall a m, resolveBehaviorEndpoint c a m
                                = default (default log_path (from_base m)) (from_base a)).
    { intros a m. unfold resolveBehaviorEndpoint. destruct c; try reflexivity.
      rewrite (Hc s eq_refl). reflexivity. }
    rewrite !Hskip, Hslash, (Habsent absent Ha). split; [split; reflexivity|]. split.
    + intros Hb Hno. rewrite ?Hskip, (Hplain Hb Hno), ?(Habsent absent Ha).
      split; reflexivity.
    + intros absent' Ha'. rewrite ?Hskip, ?(Habsent absent Ha), (Habsent absent' Ha').
      reflexivity.
  - unfold resolveBehaviorEndpoint. destruct configEndpoint; try exact Hrest.
    destruct (String.eqb_spec s ""); [exact Hrest|assumption].
Qed.

End DeliveryRuns.

(** * Properties of the change log *)

Section ChangeLogFacts.

Import ChangeLog.

Implicit Types (s : State) (changes : list (Z * string * Text.text)).

Lemma increment_lookup (k k' : string) (m : gmap string (option Z)) :
  mjoin (increment k m !! k')
  = if String.eqb k k' then n ← mjoin (m !! k); Some (n + 1) else mjoin (m !! k').
Proof.
  unfold increment. destruct (String.eqb_spec k k') as [<-|Hne].
  - rewrite lookup_insert_eq. destruct (m !! k) as [[n|]|]; reflexivity.
  - rewrite lookup_insert_ne by exact Hne. reflexivity.
Qed.

Lemma run_snoc_change changes (now : Z) (e : string) (c : Text.text) s :
  run (changes ++ [(now, e, c)]) s
  = let '(s1, o1) := run changes s in
    let '(s2, o2) := _recordCodeChange now e c s1 in (s2, o1 ++ o2).
Proof.
  revert s. induction changes as [|[[t0 e0] c0] rest IH]; intros s.
  - reflexivity.
  - cbn [app run]. destruct (_recordCodeChange t0 e0 c0 s) as [sa oa]. rewrite IH.
    destruct (run rest sa) as [s1 o1].
    destruct (_recordCodeChange now e c s1) as [s2 o2]. rewrite app_assoc. reflexivity.
Qed.

(** X24. The counters of [codeStats] agree with the history.  After
    [clearCodeChangeHistory], and any number of changes of the [html],
    [css] and [js] editors, [totalChanges] is the length of
    [codeChangeHistory], each of [htmlChanges], [cssChanges] and
    [jsChanges] is the number of records of its editor, the records are
    the changes in order, each with at least one line, and [startTime] is
    still the time of the clearing. *)
Theorem change_counters_match_history changes (now : Z) s0 :
  Forall (fun c => c.1.2 = "html" \/ c.1.2 = "css" \/ c.1.2 = "js") changes ->
  let s := (run changes (clearCodeChangeHistory now s0)).1 in
  counter "totalChanges" s = Some (Z.of_nat (length (codeChangeHistory s)))
  /\ (forall e, e = "html" \/ e = "css" \/ e = "js" ->
      counter (String.append e "Changes") s
      = Some (Z.of_nat (length (List.filter (fun r => String.eqb (editor r) e)
                                  (codeChangeHistory s)))))
  /\ map (fun r => (timestamp r, editor r, codeLength r)) (codeChangeHistory s)
     = map (fun c => (c.1.1, c.1.2, Text.length c.2)) changes
  /\ Forall (fun r => 1 <= lineCount r <= codeLength r + 1) (codeChangeHistory s)
  /\ counter "startTime" s = Some now.
Proof.
  cbv zeta. induction changes as [|[[t e] c] changes IH] using rev_ind; intros Hall.
  - cbn. repeat split; [|constructor].
    intros e [->|[->| ->]]; reflexivity.
  - apply Forall_app in Hall as [Hall Hlast]. inversion Hlast as [|? ? He _]; subst.
    cbn [fst snd] in He. specialize (IH Hall).
    rewrite run_snoc_change.
    destruct (run changes (clearCodeChangeHistory now s0)) as [s1 o1]. cbn [fst] in IH.
    destruct IH as (Htot & Hed & Hmap & Hlines & Hstart).
    unfold _recordCodeChange. cbn [fst codeChangeHistory codeStats].
    unfold counter in *. cbn [codeStats].
    rewrite !length_app, !map_app, Hmap. cbn [length map fst snd editor].
    assert (Hkeys : forall e', e' = "html" \/ e' = "css" \/ e' = "js" ->
              String.eqb "totalChanges" (String.append e' "Changes") = false
              /\ String.eqb (String.append e' "Changes") "totalChanges" = false
              /\ String.eqb (String.append e' "Changes") "startTime" = false
              /\ String.eqb (String.append e "Changes") (String.append e' "Changes")
                 = String.eqb e e').
    { intros e' [->|[->| ->]]; destruct He as [->|[->| ->]]; repeat split. }
    destruct (Hkeys e He) as (Hk0 & Hk1 & Hk2 & _).
    split; [|split; [|split; [|split]]].
    + rewrite !increment_lookup, Hk1. change (String.eqb "totalChanges" "totalChanges") with true.
      cbv iota. rewrite Htot. cbn [mbind option_bind]. apply (f_equal Some). lia.
    + intros e' He'. destruct (Hkeys e' He') as (Hk3 & _ & _ & Hk4).
      rewrite !increment_lookup, Hk4, Hk3, Hk0.
      rewrite List.filter_app, length_app. cbn [List.filter editor].
      destruct (String.eqb_spec e e') as [<-|Hne].
      * rewrite (Hed e He). cbn [mbind option_bind length]. apply (f_equal Some). lia.
      * rewrite (Hed e' He'). cbn [length]. apply (f_equal Some). lia.
    + reflexivity.
    + apply Forall_app. split; [exact Hlines|]. constructor; [|constructor].
      cbn [lineCount codeLength]. unfold lines, Text.length.
      pose proof (List.filter_length_le (N.eqb 10) c). lia.
    + rewrite !increment_lookup, Hk2. change (String.eqb "totalChanges" "startTime") with false.
      cbv iota. exact Hstart.
Qed.

(** X25. The intervals of the change log add up to the time between its
    first and its last record, whatever the clock did in between, so that
    the average interval reported is that time over the number of records
    less one.  [lastChangeTime] is the time of the last record; and since
    [clearCodeChangeHistory] leaves [lastChangeTime] alone, the first
    record after a clearing measures its own interval from the last change
    before it. *)
Theorem change_intervals_telescope changes (now : Z) s0 :
  let s := (run changes (clearCodeChangeHistory now s0)).1 in
  lastChangeTime s = List.last (map timestamp (codeChangeHistory s)) (lastChangeTime s0)
  /\ intervals_sum (codeChangeHistory s)
     = lastChangeTime s - hd (lastChangeTime s) (map timestamp (codeChangeHistory s))
  /\ (forall first rest,
        codeChangeHistory s = first :: rest ->
        timeSinceLastChange first = timestamp first - lastChangeTime s0).
Proof.
  cbv zeta. induction changes as [|[[t e] c] changes IH] using rev_ind.
  - cbn. split; [reflexivity|]. split; [lia|discriminate].
  - rewrite run_snoc_change.
    destruct (run changes (clearCodeChangeHistory now s0)) as [s1 o1]. cbn [fst] in IH.
    destruct IH as (Hlast & Hsum & Hfirst).
    unfold _recordCodeChange. cbn [fst codeChangeHistory lastChangeTime].
    rewrite map_app. cbn [map timestamp].
    split; [rewrite last_app_default; reflexivity|]. split.
    + unfold intervals_sum, intervals in *.
      destruct (codeChangeHistory s1) as [|f h]; [cbn; lia|].
      cbn [app tail map hd] in *. rewrite map_app, foldl_app. cbn [map foldl timeSinceLastChange].
      rewrite Hsum. lia.
    + intros first rest Hh. destruct (codeChangeHistory s1) as [|f h].
      * cbn in Hh, Hlast. injection Hh as <- <-. cbn. rewrite Hlast. reflexivity.
      * cbn in Hh. injection Hh as <- <-. apply (Hfirst f h eq_refl).
Qed.

End ChangeLogFacts.

(** * Properties of idle tracking in the earlier revision *)

Section OldIdleFacts.

Import Timers OldIdle.

Variable idleMs : Z.

Implicit Types (s : State) (events : list (Z * event)).


End OldIdleFacts.

(** * Properties of the chat and selection handlers *)

Section HandlerFacts.

Lemma drop_space_nil (s : Text.text) :
  ClickRecord.drop_space s = [] <-> Forall (fun c => ClickRecord.is_space c = true) s.
Proof.
  induction s as [|c s IH]; [split; [constructor|reflexivity]|].
  cbn [ClickRecord.drop_space]. destruct (ClickRecord.is_space c) eqn:E.
  - rewrite IH. split; [intros H; constructor; assumption|].
    intros H. inversion H; assumption.
  - split; [discriminate|]. intros H. inversion H; congruence.
Qed.

Lemma trim_nil (s : Text.text) :
  ClickRecord.trim s = [] <-> Forall (fun c => ClickRecord.is_space c = true) s.
Proof.
  unfold ClickRecord.trim. split.
  - intros H. apply (f_equal (@rev N)) in H. rewrite rev_involutive in H. cbn in H.
    apply drop_space_nil in H. apply Forall_rev in H. rewrite rev_involutive in H.
    destruct (ClickRecord.drop_space s) as [|c rest] eqn:E.
    + apply drop_space_nil, E.
    + pose proof (drop_space_head s c rest E) as Hc. inversion H; congruence.
  - intros H. apply drop_space_nil in H. rewrite H. reflexivity.
Qed.

(** X27. What a request for help carries.  An input that is empty or all
    white space sends nothing; any other input sends one
    [ai_help_request] whose message is the first 2000 units of the input
    as typed, white space at its start included, with the mode and the
    content id of the page.  From the keyboard only Enter without Shift
    sends, and only then is the default action of the key prevented. *)
Theorem sendMessage_blank_or_prefix
    (mode : string) (contentId : option string) (value : Text.text) :
  (Chat.sendMessage mode contentId value = []
   <-> Forall (fun c => ClickRecord.is_space c = true) value)
  /\ (Chat.sendMessage mode contentId value <> [] ->
      exists m,
        Chat.sendMessage mode contentId value
        = [("ai_help_request",
            {| Chat.message := m; Chat.mode := mode; Chat.content_id := contentId |})]
        /\ m = take 2000 value
        /\ 0 < Text.length m <= 2000)
  /\ (forall key shiftKey,
        Chat.onKeydown mode contentId key shiftKey value
        = if String.eqb key "Enter" && negb shiftKey
          then (true, Chat.sendMessage mode contentId value)
          else (false, [])).
Proof.
  unfold Chat.sendMessage. pose proof (trim_nil value) as Ht.
  destruct (ClickRecord.trim value) as [|c rest] eqn:E.
  - split; [split; [intros _; apply Ht; reflexivity|reflexivity]|].
    split; [contradiction|]. intros key shiftKey. unfold Chat.onKeydown, Chat.sendMessage.
    rewrite E. reflexivity.
  - split; [split; [discriminate|intros H; apply Ht in H; discriminate]|].
    split.
    + intros _. eexists. split; [reflexivity|]. split; [reflexivity|].
      unfold Text.length. rewrite length_take.
      destruct value as [|v value]; [discriminate|]. cbn [length]. lia.
    + intros key shiftKey. unfold Chat.onKeydown, Chat.sendMessage. rewrite E. reflexivity.
Qed.

Import DomSelect.



End HandlerFacts.

(** * The further properties at concrete inputs *)

Lemma run_history_bounded_witness :
  EditCycle.codeMonitoringConfig (end_of_run EditCycle.newTracker typing_six).1
  = EditCycle.codeMonitoringConfig EditCycle.newTracker
  /\ EditCycle.len (EditCycle.significantEdits (end_of_run EditCycle.newTracker typing_six).1)
     <= EditCycle.maxHistoryLength (EditCycle.codeMonitoringConfig EditCycle.newTracker).
Proof.
  apply (run_history_bounded typing_six EditCycle.newTracker
           (end_of_run EditCycle.newTracker typing_six).1
           (end_of_run EditCycle.newTracker typing_six).2).
  - vm_compute. reflexivity.
  - evaluate.
Defined.

Lemma run_reports_every_problem_witness :
  EditCycle.problemEvents (end_of_run tracker_struggling [js_signal 11500 120]).1
  = EditCycle.problemEvents tracker_struggling
    ++ EditCycle.reported (end_of_run tracker_struggling [js_signal 11500 120]).2
  /\ Forall (fun p =>
       EditCycle.problemDetectionThreshold (EditCycle.codeMonitoringConfig tracker_struggling)
       <= EditCycle.problem_consecutiveEdits p
       /\ EditCycle.severity p
          = EditCycle._calculateProblemSeverity (EditCycle.problem_consecutiveEdits p))
      (EditCycle.reported (end_of_run tracker_struggling [js_signal 11500 120]).2).
Proof.
  apply (run_reports_every_problem [js_signal 11500 120] tracker_struggling
           (end_of_run tracker_struggling [js_signal 11500 120]).1
           (end_of_run tracker_struggling [js_signal 11500 120]).2).
  vm_compute. reflexivity.
Defined.

Lemma run_spaces_problem_hints_witness :
  EditCycle.spaced (EditCycle.cooldownPeriod (EditCycle.hintConfig tracker_struggling))
    (EditCycle.lastHintTime (EditCycle.hintConfig tracker_struggling))
    (EditCycle.hint_times (end_of_run tracker_struggling [js_signal 11500 120]).2)
  /\ EditCycle.lastHintTime
       (EditCycle.hintConfig (end_of_run tracker_struggling [js_signal 11500 120]).1)
     = List.last (EditCycle.hint_times (end_of_run tracker_struggling [js_signal 11500 120]).2)
         (EditCycle.lastHintTime (EditCycle.hintConfig tracker_struggling))
  /\ EditCycle.cooldownPeriod
       (EditCycle.hintConfig (end_of_run tracker_struggling [js_signal 11500 120]).1)
     = EditCycle.cooldownPeriod (EditCycle.hintConfig tracker_struggling).
Proof.
  apply (run_spaces_problem_hints [js_signal 11500 120] tracker_struggling
           (end_of_run tracker_struggling [js_signal 11500 120]).1
           (end_of_run tracker_struggling [js_signal 11500 120]).2).
  vm_compute. reflexivity.
Defined.

Lemma run_edit_buffers_bounded_witness :
  map_Forall (fun _ state => EditCycle.len (EditCycle.editBuffer state) <= 20)
    (EditCycle.codeMonitorStates (end_of_run EditCycle.newTracker typing_six).1).
Proof.
  apply (run_edit_buffers_bounded typing_six EditCycle.newTracker
           (end_of_run EditCycle.newTracker typing_six).1
           (end_of_run EditCycle.newTracker typing_six).2).
  - vm_compute. reflexivity.
  - intros k state Hk.
    assert (Hb : EditCycle.editBuffer state = []).
    { unfold EditCycle.newTracker in Hk. cbn [EditCycle.codeMonitorStates] in Hk.
      destruct (decide (k = "html")) as [->|H1];
        [vm_compute in Hk; injection Hk as <-; reflexivity|].
      destruct (decide (k = "css")) as [->|H2];
        [vm_compute in Hk; injection Hk as <-; reflexivity|].
      destruct (decide (k = "js")) as [->|H3];
        [vm_compute in Hk; injection Hk as <-; reflexivity|].
      rewrite !lookup_insert_ne, lookup_empty in Hk by congruence. discriminate. }
    rewrite Hb. evaluate.
Defined.

Lemma cycle_measured_from_first_deletion_witness :
  exists t' o r,
    EditCycle.run tracker_typed
      [{| EditCycle.at_time := 11000; EditCycle.drawn := EditCycle.template0;
          EditCycle.surface := "js"; EditCycle.content := text_of_length 90 |};
       {| EditCycle.at_time := 11500; EditCycle.drawn := EditCycle.template0;
          EditCycle.surface := "js"; EditCycle.content := text_of_length 120 |}]
    = Some (t', o)
    /\ last (EditCycle.significantEdits t') = Some (EditCycle.Cycle r)
    /\ EditCycle.startLength r = Text.length (text_of_length 90)
    /\ EditCycle.endLength r = Text.length (text_of_length 120)
    /\ EditCycle.netChange r
       = Text.length (text_of_length 120) - Text.length (text_of_length 90)
    /\ EditCycle.duration r = 11500 - 11000
    /\ EditCycle.cycle_consecutiveEdits r = EditCycle.consecutiveEdits typed + 1.
Proof.
  apply (cycle_measured_from_first_deletion tracker_typed "js" typed
           (text_of_length 90) (text_of_length 120) 11000 11500
           EditCycle.template0 EditCycle.template0).
  - vm_compute. reflexivity.
  - vm_compute. reflexivity.
  - evaluate.
  - evaluate.
  - evaluate.
  - evaluate.
Defined.

Lemma rapid_addition_never_recorded_witness :
  exists ta oa tb,
    EditCycle._smartRecordCodeChange tracker_typed 13000 EditCycle.template0 "js"
      (text_of_length 110) = Some (ta, oa)
    /\ EditCycle._smartRecordCodeChange ta 14500 EditCycle.template0 "js"
         (text_of_length 200) = Some (tb, [])
    /\ EditCycle.significantEdits tb = EditCycle.significantEdits ta
    /\ EditCycle.problemEvents tb = EditCycle.problemEvents ta.
Proof.
  apply (rapid_addition_never_recorded tracker_typed "js" typed
           (text_of_length 110) (text_of_length 200) 13000 14500
           EditCycle.template0 EditCycle.template0).
  - vm_compute. reflexivity.
  - evaluate.
  - evaluate.
  - evaluate.
Defined.

Lemma analysis_counts_after_reset_witness :
  EditCycle.editsByType
    (EditCycle.significantEdits
       (end_of_run (EditCycle.resetCodeMonitoring tracker_struggling) typing_six).1)
    !! "addition" = Some 6
  /\ EditCycle.editsByEditor
       (EditCycle.significantEdits
          (end_of_run (EditCycle.resetCodeMonitoring tracker_struggling) typing_six).1)
       !! "css" = None.
Proof.
  destruct (analysis_counts_after_reset typing_six tracker_struggling
              (end_of_run (EditCycle.resetCodeMonitoring tracker_struggling) typing_six).1
              (end_of_run (EditCycle.resetCodeMonitoring tracker_struggling) typing_six).2)
    as (Hty & Hed & _).
  - vm_compute. reflexivity.
  - split; [rewrite Hty|rewrite Hed]; vm_compute; reflexivity.
Defined.

Lemma run_until_delivers_every_click_witness :
  (ClickBatch.run_until ClickBatch.defaults
     (ClickBatch.clicks (numbered_clicks 1 3) ++ [(1500, ClickBatch.VisibilityChange false)])
     2700 ClickBatch.initial).1 = ClickBatch.initial
  /\ ClickBatch.flushed
       (ClickBatch.run_until ClickBatch.defaults
          (ClickBatch.clicks (numbered_clicks 1 3)
           ++ [(1500, ClickBatch.VisibilityChange false)])
          2700 ClickBatch.initial).2
     = [1; 2; 3]%nat.
Proof.
  apply (run_until_delivers_every_click ClickBatch.defaults
           (ClickBatch.clicks (numbered_clicks 1 3)
            ++ [(1500, ClickBatch.VisibilityChange false)]) 2700).
  unfold numbered_clicks, ClickBatch.clicks. cbn [map seq app].
  repeat (constructor; [evaluate|]). constructor.
Defined.

Lemma page_leave_delivers_every_click_witness :
  ClickBatch.flushed
    (ClickBatch.run ClickBatch.defaults
       (ClickBatch.clicks (numbered_clicks 1 3) ++ [(1040, ClickBatch.PageHide)])
       ClickBatch.initial).2
  = [1; 2; 3]%nat.
Proof.
  apply (page_leave_delivers_every_click ClickBatch.defaults
           (ClickBatch.clicks (numbered_clicks 1 3)) 1040 1040 ClickBatch.PageHide).
  reflexivity.
Defined.

Lemma first_click_area_sets_window_witness :
  HotBatch.expire 1500
    (HotBatch.run HotBatch.defaults
       [(1000, 1%nat, true); (1100, 2%nat, false); (1400, 3%nat, true)]
       HotBatch.initial).1
  = ({| HotBatch._clickBatch := []; HotBatch._clickBatchTimer := None;
        HotBatch._lastFlushAt := 1500 |},
     HotBatch._sendClickBatch 1500 [1; 2; 3]%nat).
Proof.
  apply (first_click_area_sets_window HotBatch.defaults 1000 1%nat true
           [(1100, 2%nat, false); (1400, 3%nat, true)] 1500).
  - evaluate.
  - cbn. repeat split; evaluate.
  - repeat (constructor; [evaluate|]). constructor.
  - evaluate.
  - evaluate.
Defined.

Lemma getInteractiveContent_single_spaced_witness :
  ClickRecord.single_spaced true
    (default [] (ClickRecord._getInteractiveContent labelled_button 8)).
Proof.
  apply (getInteractiveContent_single_spaced labelled_button 8
           (default [] (ClickRecord._getInteractiveContent labelled_button 8))).
  vm_compute. reflexivity.
Defined.

Lemma selector_rooted_at_nearest_id_witness :
  Selector._generateCssSelector third_item = "ul#menu > li:nth-of-type(3)"
  /\ Selector._generateCssSelector third_item
     = Selector._generateCssSelector (take 2 third_item).
Proof.
  split; [reflexivity|].
  destruct (selector_rooted_at_nearest_id (take 1 third_item) (drop 2 third_item)
              {| Selector.nodeName := "UL"; Selector.id := "menu";
                 Selector.previousSiblings := ["DIV"] |}) as [_ H].
  - repeat constructor.
  - destruct H as [_ H]; [discriminate|exact H].
Defined.

Lemma user_idle_lasts_at_least_idleMs_witness :
  Forall (fun x => Idle.to_ts x = Idle.sent_at x
                   /\ Idle.lasted x = Idle.to_ts x - Idle.from_ts x
                   /\ Z.max 0 4000 <= Idle.lasted x)
    (Idle.idles
       (Idle.run 4000
          [(105000, Idle.Activity "keydown" false); (107000, Idle.VisibilityChange true);
           (112000, Idle.PageHide true)]
          (Idle.initIdleAndFocus 4000 100000 Idle.defaultHintConfig)).2).
Proof.
  apply (user_idle_lasts_at_least_idleMs 4000 100000 Idle.defaultHintConfig).
  cbn. repeat split; evaluate.
Defined.

Lemma beacon_has_no_fallback_witness :
  Delivery._sendPayload_omit page_with_full_beacon "/api/v1/behavior/log" code_edit_envelope
  = ([Delivery.SendBeacon "/api/v1/behavior/log" "application/json" code_edit_envelope],
     Delivery.Normal tt).
Proof.
  apply (beacon_has_no_fallback page_with_full_beacon "/api/v1/behavior/log" (Some "omit")
           code_edit_envelope false).
  - reflexivity.
  - reflexivity.
Defined.

Lemma change_counters_match_history_witness :
  ChangeLog.counter "totalChanges"
    (ChangeLog.run [(1000, "html", [60; 10; 62]%N); (1500, "js", []); (2100, "html", [60]%N)]
       (ChangeLog.clearCodeChangeHistory 900 (ChangeLog.construct 0))).1
  = Some 3.
Proof.
  apply (change_counters_match_history
           [(1000, "html", [60; 10; 62]%N); (1500, "js", []); (2100, "html", [60]%N)]
           900 (ChangeLog.construct 0)).
  repeat (constructor; [cbn; auto|]). constructor.
Defined.

